(** * MoTeC telemetry clean-up: lap classification, personal-best curation,
      snapshot comparison, undo and cleanup

    A shallow embedding of [src/scan.py] and of the tolerance helpers of
    [src/config_editor.py], followed by the properties of the engine.

    Modelling conventions.
    - Python [float] values (lap times, benchmarks, tolerances) are exact
      rationals [Q]; IEEE-754 rounding is not part of the model.  The lap
      classifier only uses [1], [+], [-], [*], [<=] and [<], so it is written
      once over an interface [Arith] and instantiated both at [Q] and at the
      binary64 numbers of the kernel ([PrimFloat]), where the scenarios of
      the specification are evaluated with the rounding Python performs.
    - Python [str] values are lists of characters ([str]); a directory is
      the list of its entries in the order [iterdir] yields them.
    - [None] is [None]; a raised exception is an explicit constructor of the
      result type of the function that can raise it. *)

From Stdlib Require Import PrimFloat.
From Stdlib Require Import Bool Arith ZArith NArith QArith Qround Qabs Lia Lqa.
From Stdlib Require Import List Ascii String Permutation Sorted.
Import ListNotations.

Set Implicit Arguments.

(* ================================================================== *)
(** * Part I: the embedding                                              *)
(* ================================================================== *)

(** ** Strings and results *)

Abbreviation str := (list ascii).

Definition str_of_string (x : string) : str := list_ascii_of_string x.
Coercion str_of_string : string >-> list.

(** A Python call either returns or raises; an exception is represented by
    its text. *)
Inductive py (A : Type) : Type :=
| Return (a : A)
| Raise (e : str).
Arguments Return {A} a.
Arguments Raise {A} e.

(** ** Numbers *)

(** The operations the classifier applies to lap times. *)
Class Arith (A : Type) : Type := {
  num_one : A;
  num_add : A -> A -> A;
  num_sub : A -> A -> A;
  num_mul : A -> A -> A;
  num_leb : A -> A -> bool;
  num_ltb : A -> A -> bool
}.

Declare Scope num_scope.
Delimit Scope num_scope with num.
Notation "x + y" := (num_add x y) : num_scope.
Notation "x - y" := (num_sub x y) : num_scope.
Notation "x * y" := (num_mul x y) : num_scope.
Notation "x <=? y" := (num_leb x y) : num_scope.
Notation "x <? y" := (num_ltb x y) : num_scope.

(** [x < y] on rationals, as a boolean. *)
Definition Qlt_bool (x y : Q) : bool := negb (Qle_bool y x).

#[export] Instance Q_arith : Arith Q := {
  num_one := 1%Q;
  num_add := Qplus;
  num_sub := Qminus;
  num_mul := Qmult;
  num_leb := Qle_bool;
  num_ltb := Qlt_bool
}.

(** Python's own numbers: binary64, round to nearest even. *)
#[export] Instance binary64_arith : Arith PrimFloat.float := {
  num_one := PrimFloat.one;
  num_add := PrimFloat.add;
  num_sub := PrimFloat.sub;
  num_mul := PrimFloat.mul;
  num_leb := PrimFloat.leb;
  num_ltb := PrimFloat.ltb
}.

(** ** Lap classification ([scan.py], "Lap Classification") *)

(** The three strings [classify_lap] returns; its [None] is [None]. *)
Inductive condition : Type := dry | wet | gap.

Definition condition_eqb (a b : condition) : bool :=
  match a, b with
  | dry, dry | wet, wet | gap, gap => true
  | _, _ => false
  end.

Section Classifier.
Context {A : Type} {arith : Arith A}.
Local Open Scope num_scope.

(** [check_threshold_overlap]: returns [(overlaps, dry_max, wet_min)]. *)
Definition check_threshold_overlap (dry_benchmark wet_benchmark tolerance : A)
  : bool * A * A :=
  let dry_max := dry_benchmark * (num_one + tolerance) in
  let wet_min := wet_benchmark * (num_one - tolerance) in
  let overlaps := wet_min <=? dry_max in
  (overlaps, dry_max, wet_min).

(** [classify_lap]: dry range first, then wet range, then the gap. *)
Definition classify_lap (lap_time dry_benchmark wet_benchmark tolerance : A)
  : option condition :=
  let dry_min := dry_benchmark * (num_one - tolerance) in
  let dry_max := dry_benchmark * (num_one + tolerance) in
  let wet_min := wet_benchmark * (num_one - tolerance) in
  let wet_max := wet_benchmark * (num_one + tolerance) in
  if (dry_min <=? lap_time) && (lap_time <=? dry_max) then Some dry
  else if (wet_min <=? lap_time) && (lap_time <=? wet_max) then Some wet
  else if (dry_max <? wet_min) && ((dry_max <? lap_time) && (lap_time <? wet_min))
       then Some gap
  else None.

(** Python's [min] over a non-empty list: the first least element,
    found with [<] only. *)
Fixpoint min_from (m : A) (l : list A) : A :=
  match l with
  | [] => m
  | x :: l' => min_from (if x <? m then x else m) l'
  end.

Definition py_min (l : list A) : option A :=
  match l with
  | [] => None
  | x :: l' => Some (min_from x l')
  end.

(** The three lists the loop of [classify_laps] fills, in lap order. *)
Definition laps_of (c : condition) (lap_times : list A)
           (dry_benchmark wet_benchmark tolerance : A) : list A :=
  filter (fun lap_time =>
            match classify_lap lap_time dry_benchmark wet_benchmark tolerance with
            | Some c' => condition_eqb c' c
            | None => false
            end) lap_times.

(** [classify_laps]: [(best_dry, best_wet, gap_laps)]. *)
Definition classify_laps (lap_times : list A)
           (dry_benchmark wet_benchmark tolerance : A)
  : option A * option A * list A :=
  let dry_laps := laps_of dry lap_times dry_benchmark wet_benchmark tolerance in
  let wet_laps := laps_of wet lap_times dry_benchmark wet_benchmark tolerance in
  let gap_laps := laps_of gap lap_times dry_benchmark wet_benchmark tolerance in
  (py_min dry_laps, py_min wet_laps, gap_laps).

(** The words of the specification: [x] lies in [[lo, hi]], and [x] lies
    strictly between [lo] and [hi]. *)
Definition within (lo x hi : A) : Prop :=
  (lo <=? x) = true /\ (x <=? hi) = true.

Definition strictly_between (lo x hi : A) : Prop :=
  (lo <? x) = true /\ (x <? hi) = true.
End Classifier.

(** ** Tolerance helpers ([config_editor.py]) *)

(** [round(x)] of a float: nearest integer, halves to the even one. *)
Definition py_round (x : Q) : Z :=
  let f := Qfloor x in
  let r := x - inject_Z f in
  if Qlt_bool r (1 # 2) then f
  else if Qlt_bool (1 # 2) r then (f + 1)%Z
  else if Z.even f then f else (f + 1)%Z.


Module ConfigEditor.




End ConfigEditor.



(** ** String operations *)

Definition str_eqb (a b : str) : bool :=
  if list_eq_dec ascii_dec a b then true else false.

(** [s.split(sep)] for a one-character separator. *)
Fixpoint split (sep : ascii) (s : str) : list str :=
  match s with
  | [] => [[]]
  | c :: s' =>
      if Ascii.eqb c sep then [] :: split sep s'
      else match split sep s' with
           | p :: ps => (c :: p) :: ps
           | [] => [[c]]
           end
  end.

(** [sep.join(parts)]. *)
Fixpoint join (sep : str) (parts : list str) : str :=
  match parts with
  | [] => []
  | p :: ps =>
      match ps with
      | [] => p
      | _ :: _ => p ++ sep ++ join sep ps
      end
  end.

(** [s.rsplit(sep, 1)[0]]: the text before the last [sep], or all of [s]. *)
Fixpoint rsplit1_head (sep : ascii) (s : str) : str :=
  match s with
  | [] => []
  | c :: s' =>
      if existsb (Ascii.eqb sep) s' then c :: rsplit1_head sep s'
      else if Ascii.eqb c sep then [] else c :: s'
  end.

(** Is [p] a prefix of [s]? *)
Fixpoint prefixb (p s : str) : bool :=
  match p, s with
  | [], _ => true
  | a :: p', b :: s' => Ascii.eqb a b && prefixb p' s'
  | _ :: _, [] => false
  end.

(** [s.replace(old, new)] for a non-empty [old]: occurrences are replaced
    from the left and do not overlap; [skip] counts the characters of an
    occurrence still to be dropped. *)
Fixpoint replace_from (old new s : str) (skip : nat) : str :=
  match s with
  | [] => []
  | c :: s' =>
      match skip with
      | S k => replace_from old new s' k
      | O => if prefixb old s then new ++ replace_from old new s' (List.length old - 1)
             else c :: replace_from old new s' 0
      end
  end.

Definition replace (old new s : str) : str := replace_from old new s 0.

(** [c.lower()] on the letters A..Z, the only ones whose lower case can
    spell "dry" or "wet". *)
Definition lower_char (c : ascii) : ascii :=
  let n := N_of_ascii c in
  if ((65 <=? n) && (n <=? 90))%N then ascii_of_N (n + 32) else c.

Definition lower (s : str) : str := map lower_char s.

Definition is_digit (c : ascii) : bool :=
  let n := N_of_ascii c in ((48 <=? n) && (n <=? 57))%N.

Definition digit_val (c : ascii) : N := (N_of_ascii c - 48)%N.

Definition digit_char (d : N) : ascii := ascii_of_N (48 + d).

(** [str(n)] for a natural number; [fuel] bounds the number of digits. *)
Fixpoint digits_fuel (fuel : nat) (n : N) (acc : str) : str :=
  match fuel with
  | O => acc
  | S f =>
      let acc' := digit_char (n mod 10) :: acc in
      if (n <? 10)%N then acc' else digits_fuel f (n / 10) acc'
  end.

Definition str_of_N (n : N) : str :=
  digits_fuel (S (N.to_nat (N.log2 n))) n [].

(** [str(z)], as an f-string prints an [int]. *)
Definition str_of_Z (z : Z) : str :=
  match z with
  | Z0 => str_of_N 0
  | Zpos p => str_of_N (Npos p)
  | Zneg p => "-"%char :: str_of_N (Npos p)
  end.

(** [int(s)] on a string of decimal digits. *)
Definition int_of_digits (s : str) : N :=
  fold_left (fun a c => (10 * a + digit_val c)%N) s 0%N.

(** The longest prefix whose characters satisfy [p], and the rest. *)
Fixpoint span (p : ascii -> bool) (s : str) : str * str :=
  match s with
  | [] => ([], [])
  | c :: s' =>
      if p c then let (a, b) := span p s' in (c :: a, b) else ([], s)
  end.

(** ** File names of personal bests ([scan.py], "Filename Parsing and
       Generation") *)

(** Three decimal digits of a number below 1000. *)
Definition digits3 (n : N) : str :=
  [digit_char (n / 100); digit_char ((n / 10) mod 10); digit_char (n mod 10)].

(** [f"{x:.3f}"]: [x] rounded to thousandths, halves to even. *)
Definition format_3f (x : Q) : str :=
  let n := py_round (Qabs x * 1000) in
  let body := str_of_Z (n / 1000) ++ "."%char :: digits3 (Z.to_N (n mod 1000)) in
  if Qlt_bool x 0 then "-"%char :: body else body.

(** [seconds // 60] and [seconds % 60]. *)
Definition floordiv60 (seconds : Q) : Z := Qfloor (seconds / 60).
Definition mod60 (seconds : Q) : Q := seconds - 60 * inject_Z (floordiv60 seconds).

(** [format_lap_time_filename]: [{minutes}m{seconds.milliseconds}s]. *)
Definition format_lap_time_filename (seconds : Q) : str :=
  let minutes := floordiv60 seconds in
  let secs := mod60 seconds in
  str_of_Z minutes ++ "m"%char :: format_3f secs ++ ["s"%char].

(** [{1: "1st", 2: "2nd", 3: "3rd"}.get(rank, f"{rank}th")]. *)
Definition rank_suffix (rank : Z) : str :=
  match rank with
  | 1%Z => "1st"%string
  | 2%Z => "2nd"%string
  | 3%Z => "3rd"%string
  | _ => str_of_Z rank ++ "th"%string
  end.

(** [generate_pb_filename]. *)
Definition generate_pb_filename (track car cond : str) (rank : Z)
           (lap_time : Q) (date_str : str) : str :=
  let lap_time_str := format_lap_time_filename lap_time in
  let date_formatted := replace "."%string "-"%string date_str in
  track ++ "_"%char :: car ++ "_"%char :: cond ++ "_"%char :: rank_suffix rank
        ++ "_"%char :: lap_time_str ++ "_"%char :: date_formatted ++ ".ld"%string.

(** The dictionary [parse_pb_filename] returns. *)
Record pb_info : Type := {
  pb_track : str;
  pb_car : str;
  pb_condition : str;
  pb_rank : Z;
  pb_lap_time : Q;
  pb_date : str
}.

Definition is_digit_or_dot (c : ascii) : bool :=
  is_digit c || Ascii.eqb c "."%char.

(** [re.match(r'(\d+)m([\d.]+)s', s)]: both groups are greedy and the
    characters that end them cannot be given back, so each group is the
    longest run; the result is the pair of groups. *)
Definition match_lap_time (s : str) : option (str * str) :=
  let (g1, r1) := span is_digit s in
  match g1, r1 with
  | _ :: _, c1 :: r2 =>
      if Ascii.eqb c1 "m"%char then
        let (g2, r3) := span is_digit_or_dot r2 in
        match g2, r3 with
        | _ :: _, c2 :: _ => if Ascii.eqb c2 "s"%char then Some (g1, g2) else None
        | _, _ => None
        end
      else None
  | _, _ => None
  end.

(** [float(s)] on a string of digits and dots: at most one dot and at
    least one digit, otherwise [ValueError] ([None]). *)
Definition float_of_decimal (s : str) : option Q :=
  let (ip, r) := span is_digit s in
  match r with
  | [] => match ip with
          | [] => None
          | _ :: _ => Some (inject_Z (Z.of_N (int_of_digits ip)))
          end
  | c :: fp =>
      if Ascii.eqb c "."%char && forallb is_digit fp
         && negb (Nat.eqb (List.length ip + List.length fp) 0)
      then Some (inject_Z (Z.of_N (int_of_digits ip))
                 + inject_Z (Z.of_N (int_of_digits fp))
                   / inject_Z (10 ^ Z.of_nat (List.length fp)))
      else None
  end.

Definition is_condition_part (part : str) : bool :=
  str_eqb (lower part) "dry"%string || str_eqb (lower part) "wet"%string.

(** Index of the first element satisfying [p]. *)
Fixpoint find_index {A : Type} (p : A -> bool) (l : list A) : option nat :=
  match l with
  | [] => None
  | x :: l' => if p x then Some O
               else match find_index p l' with
                    | Some i => Some (S i)
                    | None => None
                    end
  end.

(** [parse_pb_filename]; [ValueError] and [IndexError] give [None]. *)
Definition parse_pb_filename (filename : str) : option pb_info :=
  let name := rsplit1_head "."%char filename in
  let parts := split "_"%char name in
  if (List.length parts <? 6)%nat then None
  else
    match nth_error parts 0 with
    | None => None
    | Some track =>
        match find_index is_condition_part parts with
        | None => None
        | Some condition_idx =>
            let car := join "_"%string (skipn 1 (firstn condition_idx parts)) in
            match nth_error parts condition_idx,
                  nth_error parts (condition_idx + 1),
                  nth_error parts (condition_idx + 2) with
            | Some cond_part, Some (c :: _), Some lap_time_str =>
                if is_digit c then
                  match match_lap_time lap_time_str with
                  | Some (g1, g2) =>
                      match float_of_decimal g2 with
                      | Some seconds =>
                          Some {| pb_track := track;
                                  pb_car := car;
                                  pb_condition := lower cond_part;
                                  pb_rank := Z.of_N (digit_val c);
                                  pb_lap_time :=
                                    inject_Z (Z.of_N (int_of_digits g1)) * 60 + seconds;
                                  pb_date := last parts [] |}
                      | None => None
                      end
                  | None => None
                  end
                else None
            | _, _, _ => None
            end
        end
    end.

(** The form [YYYY.MM.DD] in which the scanner hands a recording date to
    [generate_pb_filename]. *)
Definition is_date_form (s : str) : bool :=
  match s with
  | [y1; y2; y3; y4; p1; m1; m2; p2; d1; d2] =>
      forallb is_digit [y1; y2; y3; y4; m1; m2; d1; d2]
      && Ascii.eqb p1 "."%char && Ascii.eqb p2 "."%char
  | _ => false
  end.

(** ** Lists, sorting and dictionaries *)

Section StableSort.
Variables (A K : Type) (ltb : K -> K -> bool) (key : A -> K).

(** [x] goes before the first element whose key is not smaller than its
    own, so it stays ahead of the equal keys that came after it. *)
Fixpoint insert_by_key (x : A) (l : list A) : list A :=
  match l with
  | [] => [x]
  | y :: l' => if ltb (key y) (key x) then y :: insert_by_key x l' else x :: l
  end.

(** [l.sort(key=key)]: Python's sort is stable and compares keys with [<]
    only; stable insertion gives the same list. *)
Fixpoint sort_by_key (l : list A) : list A :=
  match l with
  | [] => []
  | x :: l' => insert_by_key x (sort_by_key l')
  end.

(** [l.sort(key=key, reverse=True)]: reverse, sort, reverse again, which
    is how the stability of a descending sort is kept. *)
Definition sort_by_key_reverse (l : list A) : list A :=
  rev (sort_by_key (rev l)).

(** [a] is not after [b] in the order of the keys. *)
Definition key_le (a b : A) : Prop := ltb (key b) (key a) = false.

(** [x] has the key [k], up to the order. *)
Definition same_key (k : K) (x : A) : bool :=
  negb (ltb (key x) k) && negb (ltb k (key x)).
End StableSort.

(** [enumerate(l, start)]. *)
Fixpoint enumerate {A : Type} (start : Z) (l : list A) : list (Z * A) :=
  match l with
  | [] => []
  | x :: l' => (start, x) :: enumerate (start + 1) l'
  end.

Section Dict.
Variables (K V : Type) (eqb : K -> K -> bool).

(** A dictionary in insertion order. *)
Definition dict : Type := list (K * V).

Fixpoint dict_get (k : K) (d : dict) : option V :=
  match d with
  | [] => None
  | (k', v) :: d' => if eqb k k' then Some v else dict_get k d'
  end.

(** [d[k] = f(d[k])], a missing key being created from [default] at the
    end, as a [defaultdict] does. *)
Fixpoint dict_update (k : K) (f : V -> V) (default : V) (d : dict) : dict :=
  match d with
  | [] => [(k, f default)]
  | (k', v) :: d' =>
      if eqb k k' then (k', f v) :: d' else (k', v) :: dict_update k f default d'
  end.

(** [k in d]. *)
Definition dict_mem (k : K) (d : dict) : bool :=
  match dict_get k d with Some _ => true | None => false end.

(** [d[k] = v]: a new key goes last, an old one keeps its place. *)
Fixpoint dict_set (k : K) (v : V) (d : dict) : dict :=
  match d with
  | [] => [(k, v)]
  | (k', v') :: d' =>
      if eqb k k' then (k', v) :: d' else (k', v') :: dict_set k v d'
  end.

(** In-place change of the value stored under a key that is present. *)
Fixpoint dict_modify (k : K) (f : V -> V) (d : dict) : dict :=
  match d with
  | [] => []
  | (k', v) :: d' =>
      if eqb k k' then (k', f v) :: d' else (k', v) :: dict_modify k f d'
  end.
End Dict.

Definition key2 : Type := str * str.
Definition key3 : Type := str * str * str.

Definition key2_eqb (a b : key2) : bool :=
  str_eqb (fst a) (fst b) && str_eqb (snd a) (snd b).

Definition key3_eqb (a b : key3) : bool :=
  let '(a1, a2, a3) := a in
  let '(b1, b2, b3) := b in
  str_eqb a1 b1 && str_eqb a2 b2 && str_eqb a3 b3.

(** ** The telemetry directory *)

(** What the code can observe of an entry of the telemetry directory: its
    size, the error text the operating system gives when [unlink] or [rmdir]
    is refused ([None]: the call succeeds) and, for a directory, its
    children: their names, each with the error [unlink] would raise on it
    (a child that is itself a directory always has one).  [unlink] of a
    directory is always refused. *)
Inductive node : Type :=
| File (st_size : N) (unlink_error : option str)
| Dir (st_size : N) (children : list (str * option str)) (unlink_error : str)
      (rmdir_error : option str).

(** The entries of a directory, in the order [iterdir] yields them. *)
Definition directory : Type := list (str * node).

(** A path below the telemetry directory, as its components. *)
Definition path : Type := list str.

(** [p.parent]. *)
Definition parent (p : path) : path := removelast p.

Definition is_dir (n : node) : bool :=
  match n with Dir _ _ _ _ => true | File _ _ => false end.

Definition children_of (n : node) : list (str * option str) :=
  match n with Dir _ children _ _ => children | File _ _ => [] end.

Definition size_of (n : node) : N :=
  match n with Dir sz _ _ _ => sz | File sz _ => sz end.

(** Does [name] end with [suffix]? *)
Definition ends_with (suffix name : str) : bool :=
  prefixb (rev suffix) (rev name).

(** [d.glob("*" + suffix)]: the entries of [d] itself whose name ends with
    [suffix], in directory order. *)
Definition glob_suffix {X : Type} (suffix : str) (d : list (str * X))
  : list (str * X) :=
  filter (fun e => ends_with suffix (fst e)) d.

Fixpoint lookup_entry {X : Type} (name : str) (d : list (str * X)) : option X :=
  match d with
  | [] => None
  | (n, x) :: d' => if str_eqb n name then Some x else lookup_entry name d'
  end.

Fixpoint remove_entry {X : Type} (name : str) (d : list (str * X))
  : list (str * X) :=
  match d with
  | [] => []
  | (n, x) :: d' => if str_eqb n name then d' else (n, x) :: remove_entry name d'
  end.

Fixpoint replace_entry {X : Type} (name : str) (x' : X) (d : list (str * X))
  : list (str * X) :=
  match d with
  | [] => []
  | (n, x) :: d' =>
      if str_eqb n name then (n, x') :: d' else (n, x) :: replace_entry name x' d'
  end.

Definition enoent : str := "No such file or directory"%string.

(** [p.unlink()]: the new directory, and the error raised if any. *)
Definition unlink (p : path) (d : directory) : directory * option str :=
  match p with
  | [name] =>
      match lookup_entry name d with
      | Some (File _ None) => (remove_entry name d, None)
      | Some (File _ (Some e)) => (d, Some e)
      | Some (Dir _ _ e _) => (d, Some e)
      | None => (d, Some enoent)
      end
  | [folder; name] =>
      match lookup_entry folder d with
      | Some (Dir sz children ue re) =>
          match lookup_entry name children with
          | Some None =>
              (replace_entry folder (Dir sz (remove_entry name children) ue re) d,
               None)
          | Some (Some e) => (d, Some e)
          | None => (d, Some enoent)
          end
      | _ => (d, Some enoent)
      end
  | _ => (d, Some enoent)
  end.

(** [p.rmdir()] of an entry of the telemetry directory. *)
Definition rmdir (name : str) (d : directory) : directory * option str :=
  match lookup_entry name d with
  | Some (Dir _ [] _ None) => (remove_entry name d, None)
  | Some (Dir _ [] _ (Some e)) => (d, Some e)
  | Some (Dir _ (_ :: _) _ _) => (d, Some ("Directory not empty"%string : str))
  | Some (File _ _) => (d, Some ("Not a directory"%string : str))
  | None => (d, Some enoent)
  end.

(** ** Output directories and their timestamps *)

Record datetime : Type := {
  year : N; month : N; day : N; hour : N; minute : N; second : N
}.

Definition is_leap (y : N) : bool :=
  ((y mod 4 =? 0) && (negb (y mod 100 =? 0) || (y mod 400 =? 0)))%N.

Definition days_in_month (y m : N) : N :=
  match m with
  | 2%N => if is_leap y then 29 else 28
  | 4%N | 6%N | 9%N | 11%N => 30
  | _ => 31
  end.

(** The shape [\d{4}-\d{2}-\d{2}_\d{6}]. *)
Definition is_timestamp_shape (ts : str) : bool :=
  match ts with
  | [y1; y2; y3; y4; s1; m1; m2; s2; d1; d2; s3; h1; h2; n1; n2; c1; c2] =>
      forallb is_digit [y1; y2; y3; y4; m1; m2; d1; d2; h1; h2; n1; n2; c1; c2]
      && Ascii.eqb s1 "-"%char && Ascii.eqb s2 "-"%char && Ascii.eqb s3 "_"%char
  | _ => false
  end.

(** [re.compile(r'^PBs_(\d{4}-\d{2}-\d{2}_\d{6})$').match(name)]: group 1
    on success.  [$] also matches just before a final newline. *)
Definition match_pb_pattern (name : str) : option str :=
  if prefixb "PBs_"%string name then
    let rest := skipn 4 name in
    let ts := firstn 17 rest in
    let tail := skipn 17 rest in
    if is_timestamp_shape ts
       && (str_eqb tail [] || str_eqb tail ["010"%char])
    then Some ts else None
  else None.

(** [datetime.strptime(ts, "%Y-%m-%d_%H%M%S")] on a string of that shape;
    [ValueError] is [None]. *)
Definition strptime (ts : str) : option datetime :=
  let num (a b : nat) := int_of_digits (firstn b (skipn a ts)) in
  let dt := {| year := num 0%nat 4%nat; month := num 5%nat 2%nat;
               day := num 8%nat 2%nat; hour := num 11%nat 2%nat;
               minute := num 13%nat 2%nat; second := num 15%nat 2%nat |} in
  if ((1 <=? year dt) && (1 <=? month dt) && (month dt <=? 12)
      && (1 <=? day dt) && (day dt <=? days_in_month (year dt) (month dt))
      && (hour dt <=? 23) && (minute dt <=? 59) && (second dt <=? 59))%N
  then Some dt else None.

(** Datetimes compare field by field; every field has a fixed number of
    digits, so that order is the order of the fourteen digits read as one
    number. *)
Definition datetime_key (dt : datetime) : N :=
  (((((year dt * 100 + month dt) * 100 + day dt) * 100 + hour dt) * 100
    + minute dt) * 100 + second dt)%N.

Definition datetime_ltb (a b : datetime) : bool :=
  (datetime_key a <? datetime_key b)%N.

(** The timestamp of an entry that is an output directory. *)
Definition pb_folder_timestamp (e : str * node) : option datetime :=
  if is_dir (snd e) then
    match match_pb_pattern (fst e) with
    | Some ts => strptime ts
    | None => None
    end
  else None.

(** [find_previous_pb_folders]: [(folder, timestamp)], newest first. *)
Definition find_previous_pb_folders (source_dir : directory)
  : list (str * node * datetime) :=
  let pb_folders :=
    flat_map (fun item => match pb_folder_timestamp item with
                          | Some timestamp => [(item, timestamp)]
                          | None => []
                          end) source_dir in
  sort_by_key_reverse datetime_ltb snd pb_folders.

(** ** Previous personal bests ([scan.py], "Previous PB Detection") *)

(** [(rank, lap_time, filename)]. *)
Definition prev_entry : Type := Z * Q * str.

Definition prev_rank (e : prev_entry) : Z := fst (fst e).
Definition prev_lap (e : prev_entry) : Q := snd (fst e).

(** [load_previous_pbs]: the decoded names of a folder, grouped by
    [(track, car, condition)], each group sorted by rank. *)
Definition load_previous_pbs {X : Type} (pb_folder : list (str * X))
  : dict key3 (list prev_entry) :=
  let pbs :=
    fold_left
      (fun pbs ld_file =>
         match parse_pb_filename (fst ld_file) with
         | Some parsed =>
             dict_update key3_eqb
               (pb_track parsed, pb_car parsed, pb_condition parsed)
               (fun l => l ++ [(pb_rank parsed, pb_lap_time parsed, fst ld_file)])
               [] pbs
         | None => pbs
         end)
      (glob_suffix ".ld"%string pb_folder) [] in
  map (fun kv => (fst kv, sort_by_key Z.ltb prev_rank (snd kv))) pbs.

(** What [scan_telemetry] compares against: the decoded newest output
    directory, or the empty dictionary when there is none. *)
Definition previous_pbs_of (source_dir : directory) : dict key3 (list prev_entry) :=
  match find_previous_pb_folders source_dir with
  | (latest_pb_folder, _) :: _ => load_previous_pbs (children_of (snd latest_pb_folder))
  | [] => []
  end.

(** ** Undo ([scan.py], "Undo Feature") *)

(** [get_undo_candidates]: [(folder, timestamp, file_count)], newest first;
    [None] is a telemetry directory that does not exist. *)
Definition get_undo_candidates (source_dir : option directory)
  : list (str * node * datetime * nat) :=
  match source_dir with
  | None => []
  | Some d =>
      let candidates :=
        flat_map (fun item =>
                    match pb_folder_timestamp item with
                    | Some timestamp =>
                        let file_count :=
                          List.length (glob_suffix ".ld"%string (children_of (snd item))) in
                        [(item, timestamp, file_count)]
                    | None => []
                    end) d in
      sort_by_key_reverse datetime_ltb (fun c => snd (fst c)) candidates
  end.

(** [for item in folder.iterdir(): item.unlink()]: stops at the first
    error. *)
Fixpoint unlink_all (folder : str) (names : list str) (d : directory)
  : directory * option str :=
  match names with
  | [] => (d, None)
  | name :: names' =>
      match unlink [folder; name] d with
      | (d', None) => unlink_all folder names' d'
      | (d', Some e) => (d', Some e)
      end
  end.

(** [undo_last_scan]: the directory afterwards and [(folder, message)]. *)
Definition undo_last_scan (source_dir : option directory)
  : option directory * (option str * str) :=
  match get_undo_candidates source_dir, source_dir with
  | (folder, timestamp, file_count) :: _, Some d =>
      let name := fst folder in
      match unlink_all name (map fst (children_of (snd folder))) d with
      | (d1, Some e) => (Some d1, (None, "Error deleting folder: "%string ++ e))
      | (d1, None) =>
          match rmdir name d1 with
          | (d2, Some e) => (Some d2, (None, "Error deleting folder: "%string ++ e))
          | (d2, None) =>
              (Some d2,
               (Some name,
                "Deleted "%string ++ name ++ " ("%string
                  ++ str_of_N (N.of_nat file_count) ++ " PB files)"%string))
          end
      end
  | _, _ => (source_dir, (None, "No PB folders found to undo."%string : str))
  end.

(** ** Cleanup ([scan.py], "Cleanup Old Files") *)

Record cleanup_candidates : Type := {
  files : list path;
  count : nat;
  total_size_mb : Q
}.

(** [round(x, 2)]. *)
Definition py_round2 (x : Q) : Q := inject_Z (py_round (x * 100)) / 100.

(** [get_cleanup_candidates]. *)
Definition get_cleanup_candidates (source_dir : option directory)
  : cleanup_candidates :=
  match source_dir with
  | None => {| files := []; count := 0; total_size_mb := 0 |}
  | Some d =>
      let found :=
        flat_map (fun ext =>
                    flat_map (fun e => let file_path : path := [fst e] in
                                       if list_eq_dec (list_eq_dec ascii_dec)
                                            (parent file_path) []
                                       then [(file_path, size_of (snd e))] else [])
                             (glob_suffix ext d))
                 [(".ld"%string : str); (".ldx"%string : str)] in
      let files_to_delete := map fst found in
      let total_size := fold_left N.add (map snd found) 0%N in
      {| files := files_to_delete;
         count := List.length files_to_delete;
         total_size_mb :=
           py_round2 (inject_Z (Z.of_N total_size) / inject_Z (1024 * 1024)) |}
  end.

(** The loop of [cleanup_old_files]: counts, messages and the directory
    left behind. *)
Fixpoint cleanup_loop (file_paths : list path) (d : directory)
         (success_count error_count : nat) (errors : list str)
  : directory * (nat * nat * list str) :=
  match file_paths with
  | [] => (d, (success_count, error_count, errors))
  | file_path :: rest =>
      match unlink file_path d with
      | (d', None) => cleanup_loop rest d' (S success_count) error_count errors
      | (d', Some e) =>
          cleanup_loop rest d' success_count (S error_count)
                       (errors ++ [last file_path [] ++ ": "%string ++ e])
      end
  end.

(** [cleanup_old_files]: [(success_count, error_count, errors)]. *)
Definition cleanup_old_files (source_dir : option directory)
  : option directory * (nat * nat * list str) :=
  let candidates := get_cleanup_candidates source_dir in
  match files candidates, source_dir with
  | _ :: _, Some d =>
      let (d', r) := cleanup_loop (files candidates) d 0 0 [] in (Some d', r)
  | _, _ => (source_dir, (0%nat, 0%nat, []))
  end.

(** ** The scanner ([scan.py], "Main Scanner") *)

(** What the external readers give for one telemetry file: venue, car and
    recording date, the benchmark pair and tolerance resolved for its track
    and category, and the lap times of its companion file. *)
Record source_info : Type := {
  si_track : str;
  si_car : str;
  si_date : str;
  si_dry_benchmark : Q;
  si_wet_benchmark : Q;
  si_tolerance : Q;
  si_lap_times : list Q
}.

(** [(lap_time, file_path, date)]. *)
Definition lap_entry : Type := Q * str * str.

Definition lap_of (e : lap_entry) : Q := fst (fst e).
Definition file_of (e : lap_entry) : str := snd (fst e).
Definition date_of (e : lap_entry) : str := snd e.

(** [{'dry': [...], 'wet': [...], 'gap': [...]}]. *)
Record bucket : Type := {
  b_dry : list lap_entry;
  b_wet : list lap_entry;
  b_gap : list lap_entry
}.

Definition empty_bucket : bucket := {| b_dry := []; b_wet := []; b_gap := [] |}.

Definition bucket_get (c : condition) (b : bucket) : list lap_entry :=
  match c with dry => b_dry b | wet => b_wet b | gap => b_gap b end.

Definition bucket_append (c : condition) (x : lap_entry) (b : bucket) : bucket :=
  match c with
  | dry => {| b_dry := b_dry b ++ [x]; b_wet := b_wet b; b_gap := b_gap b |}
  | wet => {| b_dry := b_dry b; b_wet := b_wet b ++ [x]; b_gap := b_gap b |}
  | gap => {| b_dry := b_dry b; b_wet := b_wet b; b_gap := b_gap b ++ [x] |}
  end.

Record scan_state : Type := {
  track_car_data : dict key2 bucket;
  skipped : nat;
  processed : nat
}.

(** [track_car_data[key][c].append(x)] on the [defaultdict]. *)
Definition add_lap (key : key2) (c : condition) (x : lap_entry)
           (data : dict key2 bucket) : dict key2 bucket :=
  dict_update key2_eqb key (bucket_append c x) empty_bucket data.

(** The truth value of an optional float: [None] and [0.0] are false. *)
Definition truthy (x : option Q) : bool :=
  match x with Some q => negb (Qeq_bool q 0) | None => false end.

Definition cond_name (c : condition) : str :=
  match c with
  | dry => "dry"%string
  | wet => "wet"%string
  | gap => "gap"%string
  end.

(** [(file_path, new_filename, track, car, condition, rank, lap_time)]. *)
Record pb_slot : Type := {
  slot_file : str;
  slot_new_filename : str;
  slot_track : str;
  slot_car : str;
  slot_condition : condition;
  slot_rank : Z;
  slot_lap_time : Q
}.

(** An element of [comparison_data[(track, car)][condition]['current']]. *)
Record comparison : Type := {
  cmp_rank : Z;
  cmp_lap_time : Q;
  cmp_previous_time : option Q;
  cmp_delta : option Q;
  cmp_is_new_pb : bool
}.

Record cond_comparison : Type := {
  current : list comparison;
  previous : list (Z * Q)
}.

Record comparison_group : Type := {
  cmp_dry : cond_comparison;
  cmp_wet : cond_comparison
}.

Record additional_pb : Type := {
  add_condition : condition;
  add_rank : Z;
  add_lap_time : Q;
  add_filename : str
}.

(** A value of [copied_files]. *)
Record copied_file : Type := {
  dest_ld : str;
  dest_ldx : option str;
  cf_track : str;
  cf_car : str;
  primary_condition : condition;
  primary_rank : Z;
  primary_lap_time : Q;
  primary_filename : str;
  additional_pbs : list additional_pb
}.

(** [copied_files], and the calls of [shutil.copy2] made so far as
    [(source, destination)]. *)
Record copy_state : Type := {
  copied_files : dict str copied_file;
  copy_log : list (str * str)
}.

(** [Path.with_suffix]: the text from the last dot is the old suffix unless
    that dot opens or closes the name. *)
Definition with_suffix (name suffix : str) : str :=
  let stem := rsplit1_head "."%char name in
  if existsb (Ascii.eqb "."%char) name
     && negb (str_eqb stem [])
     && negb (ends_with "."%string name)
  then stem ++ suffix else name ++ suffix.

(** The time of the previous snapshot for a rank: the first entry of the
    group with that rank. *)
Definition previous_time_of (previous_pbs : dict key3 (list prev_entry))
           (prev_key : key3) (rank : Z) : option Q :=
  match dict_get key3_eqb prev_key previous_pbs with
  | Some entries =>
      match find (fun e => Z.eqb (prev_rank e) rank) entries with
      | Some e => Some (prev_lap e)
      | None => None
      end
  | None => None
  end.

Record scan_result : Type := {
  res_processed : nat;
  res_skipped : nat;
  res_pbs : nat;
  res_files_copied : nat;
  res_pbs_dir : str;
  res_comparison_data : dict key2 comparison_group;
  res_track_car_data : dict key2 bucket;
  res_files_to_pb : list pb_slot;
  res_copied_files : dict str copied_file;
  res_copy_log : list (str * str)
}.

Section Scanner.
(** The readers of one telemetry file; [None] when the file is skipped
    before its laps are looked at (cloud-only, no companion file, or an
    exception while reading). *)
Variable read_source : str -> option source_info.
(** [get_pb_count()]. *)
Variable pb_count : nat.
(** The comparison baseline. *)
Variable previous_pbs : dict key3 (list prev_entry).
(** [ldx_file.exists()] when the copies are made. *)
Variable ldx_exists : str -> bool.
(** The error [shutil.copy2] raises on a source, if any. *)
Variable copy_error : str -> option str.
(** [pbs_dir / name]. *)
Variable joinpath : str -> str -> str.

(** The body of the loop over [ld_files]. *)
Definition process_file (st : scan_state) (ld_file : str) : scan_state :=
  let skip := {| track_car_data := track_car_data st;
                 skipped := S (skipped st);
                 processed := processed st |} in
  match read_source ld_file with
  | None => skip
  | Some info =>
      match si_lap_times info with
      | [] => skip
      | _ :: _ =>
          let '(best_dry, best_wet, gap_laps) :=
            classify_laps (si_lap_times info) (si_dry_benchmark info)
                          (si_wet_benchmark info) (si_tolerance info) in
          let key := (si_track info, si_car info) in
          let data1 :=
            match best_dry with
            | Some lap => if truthy best_dry
                          then add_lap key dry (lap, ld_file, si_date info)
                                       (track_car_data st)
                          else track_car_data st
            | None => track_car_data st
            end in
          let data2 :=
            match best_wet with
            | Some lap => if truthy best_wet
                          then add_lap key wet (lap, ld_file, si_date info) data1
                          else data1
            | None => data1
            end in
          let data3 :=
            fold_left (fun data gap_lap =>
                         add_lap key gap (gap_lap, ld_file, si_date info) data)
                      gap_laps data2 in
          {| track_car_data := data3;
             skipped := skipped st;
             processed := S (processed st) |}
      end
  end.

Definition process_files (ld_files : list str) : scan_state :=
  fold_left process_file ld_files
            {| track_car_data := []; skipped := 0; processed := 0 |}.

(** The top of a sorted list with its ranks:
    [enumerate(laps[:pb_count], 1)] after [laps.sort(key=lambda x: x[0])]. *)
Definition ranked_pbs (laps : list lap_entry) : list (Z * lap_entry) :=
  enumerate 1 (firstn pb_count (sort_by_key Qlt_bool lap_of laps)).

Definition slot_of (track car : str) (c : condition) (r : Z * lap_entry)
  : pb_slot :=
  let '(rank, (lap_time, file_path, date_str)) := r in
  {| slot_file := file_path;
     slot_new_filename :=
       generate_pb_filename track car (cond_name c) rank lap_time date_str;
     slot_track := track;
     slot_car := car;
     slot_condition := c;
     slot_rank := rank;
     slot_lap_time := lap_time |}.

Definition comparison_of (track car : str) (c : condition) (r : Z * lap_entry)
  : comparison :=
  let rank := fst r in
  let lap_time := lap_of (snd r) in
  let prev_time := previous_time_of previous_pbs (track, car, cond_name c) rank in
  {| cmp_rank := rank;
     cmp_lap_time := lap_time;
     cmp_previous_time := prev_time;
     cmp_delta := match prev_time with
                  | Some p => Some (lap_time - p)
                  | None => None
                  end;
     cmp_is_new_pb := match prev_time with
                      | Some p => Qlt_bool lap_time p
                      | None => true
                      end |}.

(** One turn of [for condition in ['dry', 'wet']]: the slots appended to
    [files_to_pb] and the comparison data of the condition. *)
Definition curate_condition (track car : str) (c : condition)
           (laps : list lap_entry) : list pb_slot * cond_comparison :=
  match laps with
  | [] => ([], {| current := []; previous := [] |})
  | _ :: _ =>
      (map (slot_of track car c) (ranked_pbs laps),
       {| current := map (comparison_of track car c) (ranked_pbs laps);
          previous :=
            match dict_get key3_eqb (track, car, cond_name c) previous_pbs with
            | Some entries => map (fun e => (prev_rank e, prev_lap e)) entries
            | None => []
            end |})
  end.

(** One turn of the loop over [track_car_data.items()]: dry, then wet. *)
Definition curate_group (kv : key2 * bucket) : list pb_slot * comparison_group :=
  let '(track, car) := fst kv in
  let (dry_slots, dry_cmp) := curate_condition track car dry (b_dry (snd kv)) in
  let (wet_slots, wet_cmp) := curate_condition track car wet (b_wet (snd kv)) in
  (dry_slots ++ wet_slots, {| cmp_dry := dry_cmp; cmp_wet := wet_cmp |}).

(** [files_to_pb] once every group has been processed. *)
Definition files_to_pb_of (data : dict key2 bucket) : list pb_slot :=
  flat_map (fun kv => fst (curate_group kv)) data.

Definition comparison_data_of (data : dict key2 bucket)
  : dict key2 comparison_group :=
  map (fun kv => (fst kv, snd (curate_group kv))) data.

(** [track_car_data] after the in-place sorts. *)
Definition sorted_data (data : dict key2 bucket) : dict key2 bucket :=
  map (fun kv => (fst kv,
                  {| b_dry := sort_by_key Qlt_bool lap_of (b_dry (snd kv));
                     b_wet := sort_by_key Qlt_bool lap_of (b_wet (snd kv));
                     b_gap := b_gap (snd kv) |})) data.

(** The body of the loop over [files_to_pb]; an error raised by
    [shutil.copy2] ends the run. *)
Definition copy_step (pbs_dir : str) (st : copy_state) (slot : pb_slot)
  : copy_state * option str :=
  let source_key := slot_file slot in
  if dict_mem str_eqb source_key (copied_files st) then
    ({| copied_files :=
          dict_modify str_eqb source_key
            (fun info =>
               {| dest_ld := dest_ld info;
                  dest_ldx := dest_ldx info;
                  cf_track := cf_track info;
                  cf_car := cf_car info;
                  primary_condition := primary_condition info;
                  primary_rank := primary_rank info;
                  primary_lap_time := primary_lap_time info;
                  primary_filename := primary_filename info;
                  additional_pbs :=
                    additional_pbs info
                    ++ [{| add_condition := slot_condition slot;
                           add_rank := slot_rank slot;
                           add_lap_time := slot_lap_time slot;
                           add_filename := slot_new_filename slot |}] |})
            (copied_files st);
        copy_log := copy_log st |}, None)
  else
    let new_ld := joinpath pbs_dir (slot_new_filename slot) in
    let new_ldx :=
      joinpath pbs_dir
               (replace ".ld"%string ".ldx"%string (slot_new_filename slot)) in
    match copy_error (slot_file slot) with
    | Some e => (st, Some e)
    | None =>
        let log1 := copy_log st ++ [(slot_file slot, new_ld)] in
        let ldx_file := with_suffix (slot_file slot) ".ldx"%string in
        let record (log : list (str * str)) :=
          {| copied_files :=
               dict_set str_eqb source_key
                 {| dest_ld := new_ld;
                    dest_ldx := if ldx_exists ldx_file then Some new_ldx else None;
                    cf_track := slot_track slot;
                    cf_car := slot_car slot;
                    primary_condition := slot_condition slot;
                    primary_rank := slot_rank slot;
                    primary_lap_time := slot_lap_time slot;
                    primary_filename := slot_new_filename slot;
                    additional_pbs := [] |}
                 (copied_files st);
             copy_log := log |} in
        if ldx_exists ldx_file then
          match copy_error ldx_file with
          | Some e => ({| copied_files := copied_files st; copy_log := log1 |},
                       Some e)
          | None => (record (log1 ++ [(ldx_file, new_ldx)]), None)
          end
        else (record log1, None)
    end.

(** The loop over [files_to_pb]: the state reached, and the error that
    ended it if one was raised. *)
Fixpoint copy_pb_files (pbs_dir : str) (files_to_pb : list pb_slot)
         (st : copy_state) : copy_state * option str :=
  match files_to_pb with
  | [] => (st, None)
  | slot :: rest =>
      match copy_step pbs_dir st slot with
      | (st', None) => copy_pb_files pbs_dir rest st'
      | (st', Some e) => (st', Some e)
      end
  end.

End Scanner.

(** [scan_telemetry], without its prints and report files: [None] when the
    directory holds no telemetry file; [now] is the timestamp of the run. *)
Definition scan_telemetry (read_source : str -> option source_info)
           (pb_count : nat) (ldx_exists : str -> bool)
           (copy_error : str -> option str) (joinpath : str -> str -> str)
           (source_dir : directory) (dry_run : bool) (now : str)
  : py (option scan_result) :=
  let ld_files := map fst (glob_suffix ".ld"%string source_dir) in
  match ld_files with
  | [] => Return None
  | _ :: _ =>
      let st := process_files read_source ld_files in
      let previous_pbs := previous_pbs_of source_dir in
      let pbs_dir := "PBs_"%string ++ now in
      let files_to_pb := files_to_pb_of pb_count previous_pbs (track_car_data st) in
      let comparison_data :=
        comparison_data_of pb_count previous_pbs (track_car_data st) in
      let start := {| copied_files := []; copy_log := [] |} in
      let (copied, err) :=
        if dry_run then (start, None)
        else copy_pb_files ldx_exists copy_error joinpath pbs_dir files_to_pb
                           start in
      match err with
      | Some e => Raise e
      | None =>
          let total_pbs := List.length files_to_pb in
          Return (Some
            {| res_processed := processed st;
               res_skipped := skipped st;
               res_pbs := total_pbs;
               res_files_copied :=
                 if dry_run then total_pbs
                 else List.length (copied_files copied);
               res_pbs_dir := pbs_dir;
               res_comparison_data := comparison_data;
               res_track_car_data := sorted_data (track_car_data st);
               res_files_to_pb := files_to_pb;
               res_copied_files := copied_files copied;
               res_copy_log := copy_log copied |})
      end
  end.

(** ** Vocabulary of the properties *)

(** Every lap entered into the selection of a condition, over all groups. *)
Definition all_entries (c : condition) (data : dict key2 bucket) : list lap_entry :=
  flat_map (fun kv => bucket_get c (snd kv)) data.

(** [lap] is the fastest lap of a file that is classified [c]. *)
Definition fastest_of (c : condition) (info : source_info) (lap : Q) : Prop :=
  In lap (si_lap_times info) /\
  classify_lap lap (si_dry_benchmark info) (si_wet_benchmark info)
               (si_tolerance info) = Some c /\
  forall x, In x (si_lap_times info) ->
            classify_lap x (si_dry_benchmark info) (si_wet_benchmark info)
                         (si_tolerance info) = Some c ->
            lap <= x.

(** The slots of [files_to_pb] that come from a file, for a condition. *)
Definition slots_from (p : str) (c : condition) (files_to_pb : list pb_slot)
  : list pb_slot :=
  filter (fun s => str_eqb (slot_file s) p && condition_eqb (slot_condition s) c)
         files_to_pb.

(** The laps of a selection that come from a file. *)
Definition entries_from (p : str) (entries : list lap_entry) : list lap_entry :=
  filter (fun e => str_eqb (file_of e) p) entries.

(** One step of [int] over the digits of a number, left to right. *)
Definition digits_step (a : N) (c : ascii) : N := (10 * a + digit_val c)%N.


(** What [classify_laps] keeps of a file for the dry and for the wet list. *)
Definition best_of (c : condition) (r : option Q * option Q * list Q) : option Q :=
  match c with
  | dry => fst (fst r)
  | wet => snd (fst r)
  | gap => None
  end.

(** The entries of a condition come from files already read, one entry per
    file at most, each with the file's fastest lap of the condition. *)
Definition entries_ok (read_source : str -> option source_info)
           (seen : list str) (data : dict key2 bucket) (c : condition) : Prop :=
  NoDup (map file_of (all_entries c data)) /\
  forall e, In e (all_entries c data) ->
            In (file_of e) seen /\
            exists info, read_source (file_of e) = Some info
                         /\ fastest_of c info (lap_of e).

(** The slots of [files_to_pb] that come from a file, in order. *)
Definition slots_of_file (p : str) (files_to_pb : list pb_slot) : list pb_slot :=
  filter (fun s => str_eqb (slot_file s) p) files_to_pb.

(** A slot as an entry of [additional_pbs]. *)
Definition additional_of (s : pb_slot) : additional_pb :=
  {| add_condition := slot_condition s;
     add_rank := slot_rank s;
     add_lap_time := slot_lap_time s;
     add_filename := slot_new_filename s |}.

(** The record of a copied file whose primary slot is [s1] and whose later
    slots are [rest]. *)
Definition copied_record (ldx_exists : str -> bool) (joinpath : str -> str -> str)
           (pbs_dir : str) (s1 : pb_slot) (rest : list pb_slot) : copied_file :=
  {| dest_ld := joinpath pbs_dir (slot_new_filename s1);
     dest_ldx :=
       if ldx_exists (with_suffix (slot_file s1) ".ldx"%string)
       then Some (joinpath pbs_dir
                           (replace ".ld"%string ".ldx"%string
                                    (slot_new_filename s1)))
       else None;
     cf_track := slot_track s1;
     cf_car := slot_car s1;
     primary_condition := slot_condition s1;
     primary_rank := slot_rank s1;
     primary_lap_time := slot_lap_time s1;
     primary_filename := slot_new_filename s1;
     additional_pbs := map additional_of rest |}.

(** The record [copied_files] holds for the slots of one source. *)
Definition record_of_group (ldx_exists : str -> bool)
           (joinpath : str -> str -> str) (pbs_dir : str)
           (group : list pb_slot) : option copied_file :=
  match group with
  | [] => None
  | s1 :: rest => Some (copied_record ldx_exists joinpath pbs_dir s1 rest)
  end.

(** The calls of [shutil.copy2] made for one record: the telemetry file,
    and its companion when it has one. *)
Definition copies_of (kv : str * copied_file) : list (str * str) :=
  (fst kv, dest_ld (snd kv))
    :: match dest_ldx (snd kv) with
       | Some d => [(with_suffix (fst kv) ".ldx"%string, d)]
       | None => []
       end.

(** The state of the copy loop once the slots [done] have been handled:
    one record per source, built from the slots of that source, and one
    copy per record. *)
Definition copy_inv (ldx_exists : str -> bool) (joinpath : str -> str -> str)
           (pbs_dir : str) (st : copy_state) (done : list pb_slot) : Prop :=
  NoDup (map fst (copied_files st)) /\
  (forall p, dict_get str_eqb p (copied_files st)
             = record_of_group ldx_exists joinpath pbs_dir (slots_of_file p done)) /\
  copy_log st = flat_map copies_of (copied_files st).

(** What is left of the children of a folder, and the error raised, when
    they are unlinked in order. *)
Fixpoint remaining_children (children : list (str * option str))
  : list (str * option str) * option str :=
  match children with
  | [] => ([], None)
  | (_, None) :: rest => remaining_children rest
  | (_, Some e) :: _ => (children, Some e)
  end.

(** The error [rmdir] raises on an empty directory, if any. *)
Definition rmdir_error_of (n : node) : option str :=
  match n with Dir _ _ _ e => e | File _ _ => None end.

(** The error [unlink] raises on an entry, if any. *)
Definition unlink_error_of (n : node) : option str :=
  match n with File _ e => e | Dir _ _ e _ => Some e end.

(** Can the entry be unlinked? *)
Definition deletable (e : str * node) : bool :=
  match unlink_error_of (snd e) with None => true | Some _ => false end.

(** The line [cleanup_old_files] reports for an entry it could not delete. *)
Definition cleanup_message (e : str * node) : list str :=
  match unlink_error_of (snd e) with
  | Some err => [fst e ++ ": "%string ++ err]
  | None => []
  end.

(** The entries that [get_cleanup_candidates] lists. *)
Definition cleanup_entries (d : directory) : list (str * node) :=
  glob_suffix ".ld"%string d ++ glob_suffix ".ldx"%string d.

(** ** A small telemetry directory, used to exercise the properties *)

Definition example_info (laps : list Q) : source_info :=
  {| si_track := "Spa"%string;
     si_car := "bmw_m4"%string;
     si_date := "2024.05.12"%string;
     si_dry_benchmark := 100;
     si_wet_benchmark := 120;
     si_tolerance := 0.05;
     si_lap_times := laps |}.

Definition example_read_source (ld_file : str) : option source_info :=
  if str_eqb ld_file "a.ld"%string then Some (example_info [100.123; 120.456])
  else if str_eqb ld_file "b.ld"%string then Some (example_info [118.2; 110])
  else if str_eqb ld_file "c.ld"%string then Some (example_info [101.5; 300])
  else None.

Definition example_ld_files : list str :=
  [("a.ld"%string : str); ("b.ld"%string : str); ("c.ld"%string : str);
   ("d.ld"%string : str)].

Definition example_joinpath (a b : str) : str := a ++ "/"%char :: b.

Definition example_root : directory :=
  [(("a.ld"%string : str), File 10 None);
   (("a.ldx"%string : str), File 1 None);
   (("b.ld"%string : str), File 10 None);
   (("c.ld"%string : str), File 3 (Some ("locked"%string : str)));
   (("d.ld"%string : str), File 3 None);
   (("notes.txt"%string : str), File 1 None);
   (("PBs_2023-01-01_120000"%string : str),
    Dir 0 [(("x.ld"%string : str), None)] ("EISDIR"%string : str) None);
   (("PBs_2024-01-01_120000"%string : str),
    Dir 0 [(("Spa_bmw_m4_dry_1st_1m40.000s_2024-01-01.ld"%string : str), None);
           (("Spa_bmw_m4_dry_1st_1m40.000s_2024-01-01.ldx"%string : str), None);
           (("operation_log.txt"%string : str), None)]
        ("EISDIR"%string : str) None);
   (("PBs_2023-02-30_120000"%string : str),
    Dir 0 [(("y.ld"%string : str), None)] ("EISDIR"%string : str) None)].

Definition example_files_to_pb : list pb_slot :=
  files_to_pb_of 3 []
    (track_car_data (process_files example_read_source example_ld_files)).


Definition example_pbs_dir : str := "PBs_2024-06-01_101010"%string.


(** ** Lap times of a companion file ([scan.py], "Lap Time Extraction") *)

(** What reading the companion file gives: it does not exist; an exception
    is raised while it is parsed or while a [Time] attribute is converted;
    or the [Time] attributes of its markers, in document order. *)
Inductive ldx_file : Type :=
| LdxMissing
| LdxError
| LdxMarkers (times : list Q).

(** [lap_timestamps[i] - lap_timestamps[i - 1]] for [i] from 1 on, [prev]
    being the timestamp before the first of [rest]. *)
Fixpoint lap_deltas (prev : Q) (rest : list Q) : list Q :=
  match rest with
  | [] => []
  | t :: rest' => (t - prev) :: lap_deltas t rest'
  end.

(** [get_lap_times_from_ldx]: the markers are cumulative microseconds. *)
Definition get_lap_times_from_ldx (ldx : ldx_file) : list Q :=
  match ldx with
  | LdxMissing => []
  | LdxError => []
  | LdxMarkers times =>
      let lap_timestamps := map (fun time_attr => time_attr * (1 # 1000000)) times in
      match lap_timestamps with
      | [] => []
      | first :: rest =>
          (if Qeq_bool first 0 then [] else [first]) ++ lap_deltas first rest
      end
  end.



(** Two optional durations with the same value. *)
Definition same_time (a b : option Q) : Prop :=
  match a, b with
  | Some x, Some y => x == y
  | None, None => True
  | _, _ => False
  end.

(** ** Names of telemetry files ([scan.py], [parse_original_filename]) *)

(** [re.match(r'(\d{4}\.\d{2}\.\d{2})', s)]: group 1 when the pattern
    matches at the start of [s]. *)
Definition match_date (s : str) : option str :=
  match s with
  | y1 :: y2 :: y3 :: y4 :: p1 :: m1 :: m2 :: p2 :: d1 :: d2 :: _ =>
      if is_date_form [y1; y2; y3; y4; p1; m1; m2; p2; d1; d2]
      then Some [y1; y2; y3; y4; p1; m1; m2; p2; d1; d2] else None
  | _ => None
  end.

(** [re.search]: the match at the leftmost position that has one. *)
Fixpoint search_date (s : str) : option str :=
  match match_date s with
  | Some d => Some d
  | None => match s with
            | [] => None
            | _ :: s' => search_date s'
            end
  end.

(** [parse_original_filename]: [(car_name, date_str)]. *)
Definition parse_original_filename (filename : str) : option str * option str :=
  let name := rsplit1_head "."%char filename in
  let date_str := search_date name in
  let parts := split "-"%char name in
  let car_name :=
    if (4 <=? List.length parts)%nat then nth_error parts 1 else None in
  (car_name, date_str).

(** [a or b] on an optional string: [None] and the empty string are false. *)
Definition str_or (a : option str) (b : option str) : option str :=
  match a with
  | Some (c :: s) => Some (c :: s)
  | _ => b
  end.

(** The car of a telemetry file in [scan_telemetry]:
    [car_from_filename or ld_data.head.vehicleid or "unknown"]. *)
Definition car_of (filename : str) (vehicleid : option str) : str :=
  match str_or (str_or (fst (parse_original_filename filename)) vehicleid)
               (Some ("unknown"%string : str)) with
  | Some car => car
  | None => []
  end.

(** The name of a recording as the simulator writes it:
    [{Track}-{car_name}-{number}-{YYYY.MM.DD}-{HH.MM.SS}.ld]. *)
Definition original_filename (track car number date time : str) : str :=
  track ++ "-"%char :: car ++ "-"%char :: number ++ "-"%char :: date
        ++ "-"%char :: time ++ ".ld"%string.

(** ** Lap times on screen ([format_lap_time_display], and
       [format_lap_time] of the editor) *)

(** [f"{x:06.3f}"]: the text of [format_3f], filled with zeros after the
    sign up to six characters. *)
Definition format_06_3f (x : Q) : str :=
  let s := format_3f x in
  let fill := repeat "0"%char (6 - List.length s) in
  match s with
  | c :: body => if Ascii.eqb c "-"%char then c :: fill ++ body else fill ++ s
  | [] => fill
  end.

(** [format_lap_time_display]: [M:SS.mmm]. *)
Definition format_lap_time_display (seconds : Q) : str :=
  let minutes := floordiv60 seconds in
  let secs := mod60 seconds in
  str_of_Z minutes ++ ":"%char :: format_06_3f secs.


(** ** Vocabulary for the previous personal bests *)

(** The key and the entry [load_previous_pbs] makes of a decoded name. *)
Definition prev_key_of (info : pb_info) : key3 :=
  (pb_track info, pb_car info, pb_condition info).

Definition prev_entry_of (name : str) (info : pb_info) : prev_entry :=
  (pb_rank info, pb_lap_time info, name).

(** The dictionary of [load_previous_pbs] once the files [done] have been
    read: distinct keys, no empty group, every entry decoded from one of the
    files, and every file that can be decoded entered under its key. *)
Definition previous_pbs_inv {X : Type} (done : list (str * X))
           (pbs : dict key3 (list prev_entry)) : Prop :=
  NoDup (map fst pbs) /\
  (forall key entries,
      dict_get key3_eqb key pbs = Some entries ->
      entries <> [] /\
      forall e, In e entries ->
                exists x info,
                  In (snd e, x) done /\ parse_pb_filename (snd e) = Some info
                  /\ key = prev_key_of info /\ e = prev_entry_of (snd e) info) /\
  (forall name x info,
      In (name, x) done -> parse_pb_filename name = Some info ->
      exists entries,
        dict_get key3_eqb (prev_key_of info) pbs = Some entries
        /\ In (prev_entry_of name info) entries).

(** ** The name of a new output directory *)

Definition digits2 (n : N) : str :=
  [digit_char (n / 10); digit_char (n mod 10)].

Definition digits4 (n : N) : str :=
  [digit_char (n / 1000); digit_char ((n / 100) mod 10);
   digit_char ((n / 10) mod 10); digit_char (n mod 10)].

(** [dt.strftime("%Y-%m-%d_%H%M%S")], the [scan_timestamp] of
    [scan_telemetry], for a year of four digits. *)
Definition strftime (dt : datetime) : str :=
  digits4 (year dt) ++ "-"%char :: digits2 (month dt) ++ "-"%char
    :: digits2 (day dt) ++ "_"%char :: digits2 (hour dt)
    ++ digits2 (minute dt) ++ digits2 (second dt).

(** A date and time that [datetime] can hold, with a year of four digits. *)
Definition valid_datetime (dt : datetime) : Prop :=
  (1000 <= year dt <= 9999)%N /\ (1 <= month dt <= 12)%N /\
  (1 <= day dt <= days_in_month (year dt) (month dt))%N /\
  (hour dt <= 23)%N /\ (minute dt <= 59)%N /\ (second dt <= 59)%N.

(** ** Vocabulary for the copy loop *)




(** ** Configuration files ([scan.py], "Configuration", "Config Loading",
       "Car Category Inference" and "Lap Time Benchmarks";
       [config_editor.py], settings) *)

(** A value of a configuration file. *)
Inductive json : Type :=
| JNull
| JNum (q : Q)
| JStr (s : str).

(** The object a configuration file holds, in file order, and the
    configuration directory: the files that exist, by name. *)
Definition config : Type := dict str json.
Definition config_dir : Type := dict str config.

(** [load_json_config]: the empty dictionary for a file that does not
    exist. *)
Definition load_json_config (files : config_dir) (filepath : str) : config :=
  match dict_get str_eqb filepath files with
  | Some data => data
  | None => []
  end.

(** [save_json_config]. *)
Definition save_json_config (files : config_dir) (filepath : str) (data : config)
  : config_dir :=
  dict_set str_eqb filepath data files.

Definition VALID_CATEGORIES : list str :=
  [("gt3"%string : str); ("gt4"%string : str); ("gt2"%string : str);
   ("cup"%string : str); ("tc"%string : str)].

(** [f"lap_times_{category}_{condition}.json"]. *)
Definition lap_times_file (category condition : str) : str :=
  "lap_times_"%string ++ category ++ "_"%char :: condition ++ ".json"%string.

Definition get_lap_times_config (files : config_dir) (category condition : str)
  : config :=
  load_json_config files (lap_times_file category condition).

Definition save_lap_times_config (files : config_dir) (category condition : str)
           (data : config) : config_dir :=
  save_json_config files (lap_times_file category condition) data.

(** [get_settings]. *)
Definition get_settings (files : config_dir) : config :=
  load_json_config files "settings.json"%string.

(** [d.get(key, default)]. *)
Definition json_get (key : str) (default : json) (d : config) : json :=
  match dict_get str_eqb key d with
  | Some v => v
  | None => default
  end.

(** [get_pb_count] and [get_default_tolerance]. *)
Definition get_pb_count (files : config_dir) : json :=
  json_get "pb_count"%string (JNum 3) (get_settings files).

Definition get_default_tolerance (files : config_dir) : json :=
  json_get "default_tolerance"%string (JNum 0.05) (get_settings files).

(** [get_tolerance]. *)
Definition get_tolerance (files : config_dir) (category condition : str) : json :=
  json_get "_tolerance"%string (get_default_tolerance files)
           (get_lap_times_config files category condition).

(** [c.lower()] on the code points below 256: the letters A..Z and the
    accented capitals, the multiplication sign apart. *)
Definition py_lower_char (c : ascii) : ascii :=
  let n := N_of_ascii c in
  if (((65 <=? n) && (n <=? 90))
      || ((192 <=? n) && (n <=? 222) && negb (n =? 215)))%N
  then ascii_of_N (n + 32) else c.

Definition py_lower (s : str) : str := map py_lower_char s.

(** [track.lower().replace(" ", "_")]. *)
Definition normalize_track (track : str) : str :=
  replace " "%string "_"%string (py_lower track).

(** The loop of [get_benchmark_times] over the keys of a configuration:
    the value of the first key that does not start with an underscore and
    equals the track up to case; a null value counts as missing. *)
Definition find_benchmark (track_lower : str) (cfg : config) : option json :=
  match find (fun kv => negb (prefixb "_"%string (fst kv))
                        && str_eqb (py_lower (fst kv)) track_lower) cfg with
  | Some (_, JNull) => None
  | Some (_, v) => Some v
  | None => None
  end.

(** What [get_benchmark_times] returns, whether it had to ask, and the
    configuration directory afterwards. *)
Record benchmark_times : Type := {
  bm_dry : json;
  bm_wet : json;
  bm_prompted : bool;
  bm_files : config_dir
}.

(** [get_benchmark_times]; [answers] is what [prompt_for_benchmark_times]
    returns when it is called. *)
Definition get_benchmark_times (files : config_dir) (track category : str)
           (answers : Q * Q) (auto_save : bool) : benchmark_times :=
  let dry_config := get_lap_times_config files category "dry"%string in
  let wet_config := get_lap_times_config files category "wet"%string in
  let track_lower := normalize_track track in
  match find_benchmark track_lower dry_config,
        find_benchmark track_lower wet_config with
  | Some dry_time, Some wet_time =>
      {| bm_dry := dry_time; bm_wet := wet_time; bm_prompted := false;
         bm_files := files |}
  | _, _ =>
      let (dry_time, wet_time) := answers in
      {| bm_dry := JNum dry_time; bm_wet := JNum wet_time; bm_prompted := true;
         bm_files :=
           if auto_save then
             let files1 :=
               save_lap_times_config files category "dry"%string
                 (dict_set str_eqb track_lower (JNum dry_time) dry_config) in
             save_lap_times_config files1 category "wet"%string
               (dict_set str_eqb track_lower (JNum wet_time) wet_config)
           else files |}
  end.

(** What [get_car_category] returns, whether it had to ask, and the
    configuration directory afterwards. *)
Record car_category : Type := {
  cat_value : json;
  cat_prompted : bool;
  cat_files : config_dir
}.

(** [get_car_category]; [answer] is what [prompt_for_category] returns
    when it is called. *)
Definition get_car_category (files : config_dir) (car_name : str)
           (answer : str) (auto_save : bool) : car_category :=
  let categories := load_json_config files "car_categories.json"%string in
  let categories_clean :=
    filter (fun kv => negb (prefixb "_"%string (fst kv))) categories in
  match dict_get str_eqb car_name categories_clean with
  | Some category =>
      {| cat_value := category; cat_prompted := false; cat_files := files |}
  | None =>
      {| cat_value := JStr answer; cat_prompted := true;
         cat_files :=
           if auto_save then
             save_json_config files "car_categories.json"%string
               (dict_set str_eqb car_name (JStr answer) categories)
           else files |}
  end.

Module Settings.

(** One visit to an entry of the settings editor, with what the user
    typed already read: [None] is an empty line or a text that is not a
    number. *)
Inductive edit : Type :=
| EditMotecPath (new_path : str)
| EditReportPath (new_path : str)
| EditPbCount (count : option Z)
| EditDefaultTolerance (new_tol : option Q).

(** [edit_path_setting]: an empty path keeps the current value. *)
Definition edit_path_setting (settings : config) (key new_path : str) : config :=
  match new_path with
  | [] => settings
  | _ :: _ => dict_set str_eqb key (JStr new_path) settings
  end.

(** [edit_pb_count]. *)
Definition edit_pb_count (settings : config) (count : option Z) : config :=
  match count with
  | Some count =>
      if ((1 <=? count) && (count <=? 10))%Z
      then dict_set str_eqb "pb_count"%string (JNum (inject_Z count)) settings
      else settings
  | None => settings
  end.

(** [edit_default_tolerance]; [new_tol] is the percentage typed, divided
    by 100. *)
Definition edit_default_tolerance (settings : config) (new_tol : option Q)
  : config :=
  match new_tol with
  | Some new_tol =>
      if Qle_bool 0.01 new_tol && Qle_bool new_tol 0.50
      then dict_set str_eqb "default_tolerance"%string (JNum new_tol) settings
      else settings
  | None => settings
  end.

(** The defaults [settings_editor] fills in. *)
Definition with_defaults (settings : config) : config :=
  let set_default key v (s : config) :=
    if dict_mem str_eqb key s then s else dict_set str_eqb key v s in
  set_default ("default_tolerance"%string : str) (JNum 0.05)
    (set_default ("pb_count"%string : str) (JNum 3)
       (set_default ("report_output_path"%string : str)
                    (JStr "C:\Temp"%string)
          (set_default ("default_motec_path"%string : str)
             (JStr "C:\Users\alasd\OneDrive\Documents\Assetto Corsa Competizione\MoTeC"%string)
             settings))).

(** One turn of the loop of [settings_editor] that edits and saves. *)
Definition apply_edit (settings : config) (e : edit) : config :=
  match e with
  | EditMotecPath new_path =>
      edit_path_setting settings "default_motec_path"%string new_path
  | EditReportPath new_path =>
      edit_path_setting settings "report_output_path"%string new_path
  | EditPbCount count => edit_pb_count settings count
  | EditDefaultTolerance new_tol => edit_default_tolerance settings new_tol
  end.

(** [settings_editor]: the settings file after a session of edits. *)
Definition settings_editor (files : config_dir) (edits : list edit) : config_dir :=
  let settings := with_defaults (get_settings files) in
  match edits with
  | [] => files
  | _ :: _ =>
      save_json_config files "settings.json"%string
                       (fold_left apply_edit edits settings)
  end.

(** [apply_tolerance_to_all]; [confirmed] tells whether the key pressed
    was [y]. *)
Definition apply_tolerance_to_all (files : config_dir) (tolerance : json)
           (confirmed : bool) : config_dir :=
  if confirmed then
    fold_left
      (fun files cat =>
         fold_left
           (fun files condition =>
              let config_file := lap_times_file cat condition in
              let config := load_json_config files config_file in
              save_json_config files config_file
                (dict_set str_eqb "_tolerance"%string tolerance config))
           [("dry"%string : str); ("wet"%string : str)] files)
      VALID_CATEGORIES files
  else files.

End Settings.

(** ** Lap times typed in ([parse_lap_time_input], in [scan.py] and in
       [config_editor.py]) *)

(** White space as [str.strip] sees it, on the code points below 256. *)
Definition is_space (c : ascii) : bool :=
  let n := N_of_ascii c in
  (((9 <=? n) && (n <=? 13)) || ((28 <=? n) && (n <=? 32))
   || (n =? 133) || (n =? 160))%N.

Fixpoint lstrip (s : str) : str :=
  match s with
  | [] => []
  | c :: s' => if is_space c then lstrip s' else s
  end.

(** [s.strip()]. *)
Definition strip (s : str) : str := rev (lstrip (rev (lstrip s))).


Section LapTimeInput.
(** The floats of Python, its [int] and [float] on a string ([None] is
    [ValueError]), and [minutes * 60 + seconds]. *)
Variable F : Type.
Variable py_int : str -> option Z.
Variable py_float : str -> option F.
Variable minutes_and_seconds : Z -> F -> F.

(** The branch of [parse_lap_time_input] for [M:SS] and [M:SS.mmm];
    [None] when it falls through to the plain seconds. *)
Definition parse_minutes_seconds (time_str : str) : option F :=
  if existsb (Ascii.eqb ":"%char) time_str then
    match split ":"%char time_str with
    | [minutes; seconds] =>
        match py_int minutes with
        | Some minutes =>
            match py_float seconds with
            | Some seconds => Some (minutes_and_seconds minutes seconds)
            | None => None
            end
        | None => None
        end
    | _ => None
    end
  else None.

(** [parse_lap_time_input] of [scan.py]. *)
Definition parse_lap_time_input (time_str : str) : option F :=
  let time_str := strip time_str in
  match parse_minutes_seconds time_str with
  | Some t => Some t
  | None => py_float time_str
  end.
End LapTimeInput.

(** The rest of [config_editor.py]. *)
Module Editor.

(** [format_lap_time]. *)
Definition format_lap_time (seconds : option Q) : str :=
  match seconds with
  | None => "--:--"%string
  | Some s => str_of_Z (floordiv60 s) ++ ":"%char :: format_06_3f (mod60 s)
  end.

(** [check_threshold_overlap] of the editor:
    [(overlaps, gap_start, gap_end)]. *)
Definition check_threshold_overlap (dry_time wet_time : option Q) (tolerance : Q)
  : bool * option Q * option Q :=
  match dry_time, wet_time with
  | Some d, Some w =>
      let dry_max := d * (1 + tolerance) in
      let wet_min := w * (1 - tolerance) in
      (Qle_bool wet_min dry_max, Some dry_max, Some wet_min)
  | _, _ => (false, None, None)
  end.

(** [parse_lap_time_input] of the editor: an empty text is refused
    first. *)
Definition parse_lap_time_input (F : Type) (py_int : str -> option Z)
           (py_float : str -> option F) (minutes_and_seconds : Z -> F -> F)
           (time_str : str) : option F :=
  let time_str := strip time_str in
  match time_str with
  | [] => None
  | _ :: _ =>
      match parse_minutes_seconds py_int py_float minutes_and_seconds time_str with
      | Some t => Some t
      | None => py_float time_str
      end
  end.

End Editor.

(** ** Menus ([main.py], [config_editor.py]) *)

(** What [get_key] returns, as far as the menus tell keys apart. *)
Inductive menu_key : Type := UP | DOWN | ENTER | ESC | OtherKey.

(** The selection after a key, in a menu of [n] options:
    [(selected - 1) % n] and [(selected + 1) % n]. *)
Definition move_selection (n selected : Z) (key : menu_key) : Z :=
  match key with
  | UP => (selected - 1) mod n
  | DOWN => (selected + 1) mod n
  | _ => selected
  end.

(** The loop of [main_menu] on the keys pressed: the entries launched, in
    order, until Exit is chosen or Escape is pressed. *)
Fixpoint main_menu (selected : Z) (keys : list menu_key) : list Z :=
  match keys with
  | [] => []
  | key :: rest =>
      match key with
      | ENTER =>
          if (selected =? 6)%Z then []
          else selected :: main_menu selected rest
      | ESC => []
      | _ => main_menu (move_selection 7 selected key) rest
      end
  end.

#[local] Set Warnings "-inexact-float".

(* ================================================================== *)
(** * Part II: properties                                                *)
(* ================================================================== *)

(** ** Rational comparisons *)

Lemma Qlt_bool_iff (x y : Q) : Qlt_bool x y = true <-> x < y.
Proof.
  unfold Qlt_bool. rewrite negb_true_iff.
  split; intro H.
  - apply Qnot_le_lt. intro Hle. apply Qle_bool_iff in Hle. congruence.
  - destruct (Qle_bool y x) eqn:E; [|reflexivity].
    apply Qle_bool_iff in E. exfalso. apply (Qlt_not_le _ _ H E).
Qed.

Lemma Qlt_bool_false_iff (x y : Q) : Qlt_bool x y = false <-> y <= x.
Proof.
  unfold Qlt_bool. rewrite negb_false_iff. apply Qle_bool_iff.
Qed.


(** ** The lap classifier *)

Section ClassifierFacts.
Context {A : Type} {arith : Arith A}.
Local Open Scope num_scope.

(** The result is decided by three tests taken in order. *)
Lemma classify_lap_cases (lap_time dry_benchmark wet_benchmark tolerance : A) :
  let dry_min := dry_benchmark * (num_one - tolerance) in
  let dry_max := dry_benchmark * (num_one + tolerance) in
  let wet_min := wet_benchmark * (num_one - tolerance) in
  let wet_max := wet_benchmark * (num_one + tolerance) in
  (within dry_min lap_time dry_max ->
   classify_lap lap_time dry_benchmark wet_benchmark tolerance = Some dry) /\
  (~ within dry_min lap_time dry_max -> within wet_min lap_time wet_max ->
   classify_lap lap_time dry_benchmark wet_benchmark tolerance = Some wet) /\
  (~ within dry_min lap_time dry_max -> ~ within wet_min lap_time wet_max ->
   (classify_lap lap_time dry_benchmark wet_benchmark tolerance = Some gap <->
    (dry_max <? wet_min) = true /\ strictly_between dry_max lap_time wet_min)) /\
  (~ within dry_min lap_time dry_max -> ~ within wet_min lap_time wet_max ->
   ~ ((dry_max <? wet_min) = true /\ strictly_between dry_max lap_time wet_min) ->
   classify_lap lap_time dry_benchmark wet_benchmark tolerance = None).
Proof.
  cbv zeta. unfold classify_lap, within, strictly_between.
  destruct (dry_benchmark * (num_one - tolerance) <=? lap_time);
    destruct (lap_time <=? dry_benchmark * (num_one + tolerance));
    destruct (wet_benchmark * (num_one - tolerance) <=? lap_time);
    destruct (lap_time <=? wet_benchmark * (num_one + tolerance));
    destruct (dry_benchmark * (num_one + tolerance)
              <? wet_benchmark * (num_one - tolerance));
    destruct (dry_benchmark * (num_one + tolerance) <? lap_time);
    destruct (lap_time <? wet_benchmark * (num_one - tolerance));
    simpl; intuition congruence.
Qed.
End ClassifierFacts.

Module Binary64Scenarios.

(** The thresholds and laps of the specification's scenario, computed with
    binary64 arithmetic. *)
Lemma scenario_100_140 :
  check_threshold_overlap 100%float 140%float 0.05%float
    = (false, 105%float, 133%float) /\
  classify_lap 103%float 100%float 140%float 0.05%float = Some dry /\
  classify_lap 135%float 100%float 140%float 0.05%float = Some wet /\
  classify_lap 120%float 100%float 140%float 0.05%float = Some gap.
Proof. repeat split; vm_compute; reflexivity. Qed.

End Binary64Scenarios.

(** C3: [classify_lap] tests the dry range, then the wet range, then the
    gap: a lap inside the dry range is Dry (also when it is inside the wet
    range too); otherwise a lap inside the wet range is Wet; otherwise it is
    Gap exactly when [dry_max < wet_min] and it lies strictly between the
    two; otherwise it is invalid ([None]).  This holds for any arithmetic,
    binary64 included.  With dry = 100, wet = 140 and tolerance 0.05, lap
    103 is Dry, lap 135 is Wet and lap 120 is Gap, both in binary64 and in
    exact arithmetic. *)
Theorem classify_lap_fixed_order :
  (forall (A : Type) (arith : Arith A)
          (lap_time dry_benchmark wet_benchmark tolerance : A),
      let dry_min := num_mul dry_benchmark (num_sub num_one tolerance) in
      let dry_max := num_mul dry_benchmark (num_add num_one tolerance) in
      let wet_min := num_mul wet_benchmark (num_sub num_one tolerance) in
      let wet_max := num_mul wet_benchmark (num_add num_one tolerance) in
      let result := classify_lap lap_time dry_benchmark wet_benchmark tolerance in
      (within dry_min lap_time dry_max -> result = Some dry) /\
      (~ within dry_min lap_time dry_max -> within wet_min lap_time wet_max ->
       result = Some wet) /\
      (~ within dry_min lap_time dry_max -> ~ within wet_min lap_time wet_max ->
       (result = Some gap <->
        num_ltb dry_max wet_min = true /\ strictly_between dry_max lap_time wet_min)) /\
      (~ within dry_min lap_time dry_max -> ~ within wet_min lap_time wet_max ->
       ~ (num_ltb dry_max wet_min = true
          /\ strictly_between dry_max lap_time wet_min) ->
       result = None)) /\
  (classify_lap 103%float 100%float 140%float 0.05%float = Some dry /\
   classify_lap 135%float 100%float 140%float 0.05%float = Some wet /\
   classify_lap 120%float 100%float 140%float 0.05%float = Some gap) /\
  (classify_lap (A:=Q) 103 100 140 0.05 = Some dry /\
   classify_lap (A:=Q) 135 100 140 0.05 = Some wet /\
   classify_lap (A:=Q) 120 100 140 0.05 = Some gap).
Proof.
  split; [|split].
  - intros A arith lap_time dry_benchmark wet_benchmark tolerance.
    apply classify_lap_cases.
  - pose proof Binary64Scenarios.scenario_100_140 as H. tauto.
  - repeat split; vm_compute; reflexivity.
Qed.





(** ** Rounding *)

Lemma Qfloor_frac (x : Q) :
  0 <= x - inject_Z (Qfloor x) /\ x - inject_Z (Qfloor x) < 1.
Proof.
  pose proof (Qfloor_le x) as H1. pose proof (Qlt_floor x) as H2.
  rewrite inject_Z_plus in H2. change (inject_Z 1) with 1 in H2.
  split; lra.
Qed.

Lemma py_round_cases (x : Q) :
  py_round x = Qfloor x \/ py_round x = (Qfloor x + 1)%Z.
Proof.
  unfold py_round.
  destruct (Qlt_bool _ _); [now left|].
  destruct (Qlt_bool _ _); [now right|].
  destruct (Z.even _); [now left | now right].
Qed.

(** [round] moves a number by at most one half. *)
Lemma py_round_close (x : Q) : Qabs (inject_Z (py_round x) - x) <= 1 # 2.
Proof.
  destruct (Qfloor_frac x) as [H0 H1].
  apply Qabs_Qle_condition.
  unfold py_round.
  destruct (Qlt_bool (x - inject_Z (Qfloor x)) (1 # 2)) eqn:E1.
  - apply Qlt_bool_iff in E1. split; lra.
  - apply Qlt_bool_false_iff in E1.
    assert (Hup : inject_Z (Qfloor x + 1) == inject_Z (Qfloor x) + 1)
      by (rewrite inject_Z_plus; reflexivity).
    destruct (Qlt_bool (1 # 2) (x - inject_Z (Qfloor x))) eqn:E2.
    + rewrite Hup. split; lra.
    + apply Qlt_bool_false_iff in E2.
      destruct (Z.even (Qfloor x)); [|rewrite Hup]; split; lra.
Qed.

(** [round] keeps a number between two integers that bound it. *)
Lemma py_round_between (lo hi : Z) (x : Q) :
  inject_Z lo <= x -> x <= inject_Z hi -> (lo <= py_round x <= hi)%Z.
Proof.
  intros Hlo Hhi.
  assert (Hf1 : (lo <= Qfloor x)%Z).
  { rewrite <- (Qfloor_Z lo). apply Qfloor_resp_le. exact Hlo. }
  assert (Hf2 : (Qfloor x <= hi)%Z).
  { rewrite <- (Qfloor_Z hi). apply Qfloor_resp_le. exact Hhi. }
  destruct (Qfloor_frac x) as [H0 H1].
  unfold py_round.
  destruct (Qlt_bool (x - inject_Z (Qfloor x)) (1 # 2)) eqn:E1; [lia|].
  apply Qlt_bool_false_iff in E1.
  assert (Hlt : (Qfloor x < hi)%Z).
  { destruct (Z.eq_dec (Qfloor x) hi) as [Heq|Hne]; [|lia].
    exfalso. rewrite Heq in E1. lra. }
  destruct (Qlt_bool _ _); [lia|].
  destruct (Z.even _); lia.
Qed.

(** ** The recommended tolerance *)





(** ** Strings *)

Lemma str_eqb_eq (a b : str) : str_eqb a b = true <-> a = b.
Proof.
  unfold str_eqb. destruct (list_eq_dec ascii_dec a b); split; congruence.
Qed.

Lemma str_eqb_refl (a : str) : str_eqb a a = true.
Proof. apply str_eqb_eq. reflexivity. Qed.

Lemma str_eqb_neq (a b : str) : str_eqb a b = false <-> a <> b.
Proof.
  unfold str_eqb. destruct (list_eq_dec ascii_dec a b); split; congruence.
Qed.

Lemma existsb_eqb_false (c : ascii) (s : str) :
  ~ In c s -> existsb (Ascii.eqb c) s = false.
Proof.
  intro H. destruct (existsb (Ascii.eqb c) s) eqn:E; [|reflexivity].
  apply existsb_exists in E. destruct E as (x & Hx & Hc).
  apply Ascii.eqb_eq in Hc. subst. contradiction.
Qed.

Lemma existsb_eqb_true (c : ascii) (s : str) :
  In c s -> existsb (Ascii.eqb c) s = true.
Proof.
  intro H. apply existsb_exists. exists c. split; [exact H|].
  apply Ascii.eqb_refl.
Qed.

(** Cutting at the last separator undoes appending a separator-free tail. *)
Lemma rsplit1_head_app (sep : ascii) (x t : str) :
  ~ In sep t -> rsplit1_head sep (x ++ sep :: t) = x.
Proof.
  intro Ht. induction x as [|c x IH]; simpl.
  - rewrite (existsb_eqb_false _ _ Ht). rewrite Ascii.eqb_refl. reflexivity.
  - rewrite existsb_eqb_true by (apply in_or_app; right; left; reflexivity).
    rewrite IH. reflexivity.
Qed.

Lemma split_nonempty (sep : ascii) (s : str) : split sep s <> [].
Proof.
  destruct s as [|c s]; simpl; [discriminate|].
  destruct (Ascii.eqb c sep); [discriminate|].
  destruct (split sep s); discriminate.
Qed.

Lemma split_app (sep : ascii) (a b : str) :
  split sep (a ++ sep :: b) = split sep a ++ split sep b.
Proof.
  induction a as [|c a IH]; simpl.
  - rewrite Ascii.eqb_refl. reflexivity.
  - destruct (Ascii.eqb c sep); [rewrite IH; reflexivity|].
    rewrite IH.
    destruct (split sep a) as [|p ps] eqn:E; [|reflexivity].
    exfalso. exact (split_nonempty _ _ E).
Qed.

Lemma split_none (sep : ascii) (s : str) : ~ In sep s -> split sep s = [s].
Proof.
  induction s as [|c s IH]; intro H; simpl; [reflexivity|].
  destruct (Ascii.eqb c sep) eqn:E.
  - apply Ascii.eqb_eq in E. subst. exfalso. apply H. left. reflexivity.
  - rewrite IH; [reflexivity|]. intro Hin. apply H. right. exact Hin.
Qed.



Lemma span_app (p : ascii -> bool) (a b : str) :
  forallb p a = true ->
  match b with [] => True | c :: _ => p c = false end ->
  span p (a ++ b) = (a, b).
Proof.
  intros Ha Hb. induction a as [|c a IH]; simpl in *.
  - destruct b as [|c b]; [reflexivity|]. simpl. rewrite Hb. reflexivity.
  - apply andb_true_iff in Ha. destruct Ha as [Hc Ha].
    rewrite Hc. rewrite (IH Ha). reflexivity.
Qed.

(** Replacing a single character by another is a map. *)
Lemma replace_char (c d : ascii) (s : str) :
  replace [c] [d] s = map (fun x => if Ascii.eqb c x then d else x) s.
Proof.
  unfold replace. induction s as [|x s IH]; simpl; [reflexivity|].
  rewrite andb_true_r. destruct (Ascii.eqb c x); simpl; rewrite IH; reflexivity.
Qed.

(** ** Decimal digits *)

Lemma N_of_digit_char (d : N) : (d < 10)%N -> N_of_ascii (digit_char d) = (48 + d)%N.
Proof.
  intro H. unfold digit_char. apply N_ascii_embedding. lia.
Qed.

Lemma is_digit_digit_char (d : N) : (d < 10)%N -> is_digit (digit_char d) = true.
Proof.
  intro H. unfold is_digit. rewrite (N_of_digit_char H).
  apply andb_true_iff. split; apply N.leb_le; lia.
Qed.

Lemma digit_val_digit_char (d : N) : (d < 10)%N -> digit_val (digit_char d) = d.
Proof.
  intro H. unfold digit_val. rewrite (N_of_digit_char H). lia.
Qed.

Lemma digits_fuel_digits (fuel : nat) (n : N) (acc : str) :
  forallb is_digit acc = true -> forallb is_digit (digits_fuel fuel n acc) = true.
Proof.
  revert n acc. induction fuel as [|f IH]; intros n acc Hacc; simpl; [exact Hacc|].
  assert (Hd : is_digit (digit_char (n mod 10)) = true)
    by (apply is_digit_digit_char; apply N.mod_lt; discriminate).
  destruct (n <? 10)%N.
  - simpl. rewrite Hd, Hacc. reflexivity.
  - apply IH. simpl. rewrite Hd, Hacc. reflexivity.
Qed.


Lemma str_of_N_digits (n : N) : forallb is_digit (str_of_N n) = true.
Proof. apply digits_fuel_digits. reflexivity. Qed.


Lemma int_of_digits_fuel (fuel : nat) (n : N) (acc : str) :
  (n < 2 ^ N.of_nat fuel)%N ->
  fold_left digits_step (digits_fuel fuel n acc) 0%N = fold_left digits_step acc n.
Proof.
  revert n acc. induction fuel as [|f IH]; intros n acc Hn.
  - simpl in *. assert (n = 0%N) by lia. subst. reflexivity.
  - simpl digits_fuel.
    assert (Hmod : (n mod 10 < 10)%N) by (apply N.mod_lt; discriminate).
    destruct (n <? 10)%N eqn:E.
    + apply N.ltb_lt in E. simpl. unfold digits_step at 2.
      rewrite (digit_val_digit_char Hmod). rewrite N.mod_small by exact E.
      reflexivity.
    + apply N.ltb_ge in E. rewrite IH.
      * simpl. unfold digits_step at 2. rewrite (digit_val_digit_char Hmod).
        rewrite <- N.div_mod by discriminate. reflexivity.
      * rewrite Nat2N.inj_succ, N.pow_succ_r' in Hn.
        apply N.Div0.div_lt_upper_bound. lia.
Qed.

Lemma int_of_digits_str_of_N (n : N) : int_of_digits (str_of_N n) = n.
Proof.
  unfold int_of_digits, str_of_N.
  change (fun (a : N) (c : ascii) => (10 * a + digit_val c)%N) with digits_step.
  rewrite int_of_digits_fuel; [reflexivity|].
  rewrite Nat2N.inj_succ, N2Nat.id.
  destruct n as [|p]; [reflexivity|].
  apply N.log2_spec. reflexivity.
Qed.

Lemma str_of_Z_nonneg (z : Z) : (0 <= z)%Z -> str_of_Z z = str_of_N (Z.to_N z).
Proof.
  intro H. destruct z as [|p|p]; try reflexivity. lia.
Qed.

Lemma int_of_digits3 (n : N) : (n < 1000)%N -> int_of_digits (digits3 n) = n.
Proof.
  intro H. unfold int_of_digits, digits3. cbn [fold_left].
  rewrite !digit_val_digit_char.
  - pose proof (N.div_mod n 10). pose proof (N.div_mod (n / 10) 10).
    assert (n / 100 = n / 10 / 10)%N by (rewrite N.Div0.div_div; reflexivity).
    lia.
  - apply N.mod_lt; discriminate.
  - apply N.mod_lt; discriminate.
  - apply N.Div0.div_lt_upper_bound. lia.
Qed.

Lemma digits3_digits (n : N) : (n < 1000)%N -> forallb is_digit (digits3 n) = true.
Proof.
  intro H. unfold digits3. cbn [forallb].
  rewrite !is_digit_digit_char; try reflexivity.
  - apply N.mod_lt; discriminate.
  - apply N.mod_lt; discriminate.
  - apply N.Div0.div_lt_upper_bound. lia.
Qed.

(** ** Lap times in file names *)

Lemma Qlt_bool_comp (x x' y y' : Q) :
  x == x' -> y == y' -> Qlt_bool x y = Qlt_bool x' y'.
Proof.
  intros Hx Hy. unfold Qlt_bool. rewrite (Qleb_comp _ _ Hy _ _ Hx). reflexivity.
Qed.

Lemma py_round_comp (x y : Q) : x == y -> py_round x = py_round y.
Proof.
  intro H. unfold py_round. rewrite (Qfloor_comp _ _ H).
  assert (Hr : x - inject_Z (Qfloor y) == y - inject_Z (Qfloor y))
    by (rewrite H; reflexivity).
  rewrite (Qlt_bool_comp Hr (Qeq_refl (1 # 2))).
  rewrite (Qlt_bool_comp (Qeq_refl (1 # 2)) Hr).
  reflexivity.
Qed.

Lemma py_round_nonneg (x : Q) : 0 <= x -> (0 <= py_round x)%Z.
Proof.
  intro H.
  assert (Hf : (0 <= Qfloor x)%Z).
  { rewrite <- (Qfloor_Z 0). apply Qfloor_resp_le. exact H. }
  destruct (py_round_cases x) as [E|E]; rewrite E; lia.
Qed.


Lemma mod60_range (t : Q) : 0 <= mod60 t /\ mod60 t < 60.
Proof.
  unfold mod60, floordiv60.
  destruct (Qfloor_frac (t / 60)) as [H0 H1].
  assert (E : t == 60 * (t / 60)) by (field).
  split; lra.
Qed.

(** The printed seconds of a non-negative number, as the two numbers
    around the dot. *)
Lemma format_3f_nonneg (x : Q) :
  0 <= x ->
  let n := py_round (x * 1000) in
  format_3f x
  = str_of_N (Z.to_N (n / 1000)) ++ "."%char :: digits3 (Z.to_N (n mod 1000)).
Proof.
  intros Hx n. unfold format_3f.
  assert (Hneg : Qlt_bool x 0 = false) by (apply Qlt_bool_false_iff; exact Hx).
  rewrite Hneg.
  assert (Habs : Qabs x * 1000 == x * 1000) by (rewrite (Qabs_pos _ Hx); reflexivity).
  rewrite (py_round_comp Habs). fold n.
  assert (Hn : (0 <= n)%Z) by (apply py_round_nonneg; lra).
  rewrite str_of_Z_nonneg by (apply Z.div_pos; lia).
  reflexivity.
Qed.






(** ** Generated names read back *)














(** ** Stable sorting *)

Section StableSortFacts.
Variables (A K : Type) (ltb : K -> K -> bool) (key : A -> K).
(** The keys are totally pre-ordered by [ltb]. *)
Hypothesis ltb_asym : forall a b, ltb a b = true -> ltb b a = false.
Hypothesis leb_trans : forall a b c, ltb b a = false -> ltb c b = false -> ltb c a = false.

#[local] Abbreviation key_le := (key_le ltb key).
#[local] Abbreviation same_key := (same_key ltb key).

Lemma insert_by_key_perm (x : A) (l : list A) :
  Permutation (insert_by_key ltb key x l) (x :: l).
Proof.
  induction l as [|y l IH]; simpl; [apply Permutation_refl|].
  destruct (ltb (key y) (key x)); [|apply Permutation_refl].
  eapply Permutation_trans; [apply perm_skip; exact IH | apply perm_swap].
Qed.

Lemma sort_by_key_perm (l : list A) : Permutation (sort_by_key ltb key l) l.
Proof.
  induction l as [|x l IH]; simpl; [apply Permutation_refl|].
  eapply Permutation_trans; [apply insert_by_key_perm | apply perm_skip; exact IH].
Qed.

Lemma sort_by_key_length (l : list A) :
  List.length (sort_by_key ltb key l) = List.length l.
Proof. apply Permutation_length. apply sort_by_key_perm. Qed.

Lemma sort_by_key_in (x : A) (l : list A) :
  In x (sort_by_key ltb key l) <-> In x l.
Proof.
  split; apply Permutation_in;
    [|apply Permutation_sym]; apply sort_by_key_perm.
Qed.

Lemma insert_by_key_sorted (x : A) (l : list A) :
  StronglySorted key_le l -> StronglySorted key_le (insert_by_key ltb key x l).
Proof.
  induction l as [|y l IH]; intro Hs; simpl.
  - constructor; [constructor | constructor].
  - inversion Hs as [|? ? Hl Hy]; subst.
    destruct (ltb (key y) (key x)) eqn:E.
    + constructor; [apply IH; exact Hl|].
      rewrite Forall_forall in *. intros z Hz.
      apply (Permutation_in _ (insert_by_key_perm x l)) in Hz.
      destruct Hz as [Hz|Hz]; [subst z | apply Hy; exact Hz].
      unfold key_le. apply ltb_asym. exact E.
    + constructor; [exact Hs|].
      constructor; [exact E|].
      rewrite Forall_forall in *. intros z Hz.
      unfold key_le in *. apply (leb_trans E). apply Hy. exact Hz.
Qed.

Lemma sort_by_key_sorted (l : list A) :
  StronglySorted key_le (sort_by_key ltb key l).
Proof.
  induction l as [|x l IH]; simpl; [constructor|].
  apply insert_by_key_sorted. exact IH.
Qed.

(** Elements of one key class keep their order. *)
Lemma insert_by_key_stable (k : K) (x : A) (l : list A) :
  filter (same_key k) (insert_by_key ltb key x l)
  = filter (same_key k) (x :: l).
Proof.
  induction l as [|y l IH]; simpl; [reflexivity|].
  destruct (ltb (key y) (key x)) eqn:E; [|reflexivity].
  simpl in *. rewrite IH.
  destruct (same_key k x) eqn:Ex; [|reflexivity].
  destruct (same_key k y) eqn:Ey; [|reflexivity].
  exfalso. unfold same_key in Ex, Ey.
  apply andb_true_iff in Ex. destruct Ex as [Ex1 Ex2].
  apply andb_true_iff in Ey. destruct Ey as [Ey1 Ey2].
  apply negb_true_iff in Ex1, Ex2, Ey1, Ey2.
  pose proof (leb_trans Ex2 Ey1) as H. congruence.
Qed.

Lemma sort_by_key_stable (k : K) (l : list A) :
  filter (same_key k) (sort_by_key ltb key l) = filter (same_key k) l.
Proof.
  induction l as [|x l IH]; simpl; [reflexivity|].
  rewrite insert_by_key_stable. simpl. rewrite IH. reflexivity.
Qed.

(** The head of a list sorted in descending order is a greatest element. *)
Lemma sort_by_key_reverse_perm (l : list A) :
  Permutation (sort_by_key_reverse ltb key l) l.
Proof.
  unfold sort_by_key_reverse.
  eapply Permutation_trans; [apply Permutation_sym, Permutation_rev|].
  eapply Permutation_trans; [apply sort_by_key_perm|].
  apply Permutation_sym, Permutation_rev.
Qed.

Lemma strongly_sorted_last (l : list A) (x : A) :
  StronglySorted key_le (l ++ [x]) -> forall y, In y l -> key_le y x.
Proof.
  induction l as [|z l IH]; intros Hs y Hy; [destruct Hy|].
  simpl in Hs. inversion Hs as [|? ? Hl Hz]; subst.
  destruct Hy as [Hy|Hy].
  - subst z. rewrite Forall_forall in Hz. apply Hz.
    apply in_or_app. right. left. reflexivity.
  - apply IH; assumption.
Qed.

Lemma sort_by_key_reverse_head (l : list A) (x : A) (rest : list A) :
  sort_by_key_reverse ltb key l = x :: rest ->
  In x l /\ forall y, In y l -> ltb (key x) (key y) = false.
Proof.
  intro H. split.
  - apply (Permutation_in _ (sort_by_key_reverse_perm l)). rewrite H. left.
    reflexivity.
  - intros y Hy.
    assert (Hy' : In y (x :: rest)).
    { rewrite <- H. apply (Permutation_in _ (Permutation_sym (sort_by_key_reverse_perm l))).
      exact Hy. }
    unfold sort_by_key_reverse in H.
    assert (Hrev : sort_by_key ltb key (rev l) = rev rest ++ [x]).
    { rewrite <- (rev_involutive (sort_by_key ltb key (rev l))), H. reflexivity. }
    pose proof (sort_by_key_sorted (rev l)) as Hs. rewrite Hrev in Hs.
    destruct Hy' as [Hy'|Hy'].
    + subst y.
      destruct (ltb (key x) (key x)) eqn:E; [|reflexivity].
      rewrite (ltb_asym E) in E. discriminate.
    + eapply strongly_sorted_last; [exact Hs|]. apply in_rev in Hy'. exact Hy'.
Qed.
End StableSortFacts.

(** The three orders the code sorts by. *)
Lemma Qlt_bool_asym (a b : Q) : Qlt_bool a b = true -> Qlt_bool b a = false.
Proof.
  rewrite Qlt_bool_iff, Qlt_bool_false_iff. apply Qlt_le_weak.
Qed.

Lemma Qle_bool_trans' (a b c : Q) :
  Qlt_bool b a = false -> Qlt_bool c b = false -> Qlt_bool c a = false.
Proof.
  rewrite !Qlt_bool_false_iff. intros H1 H2. eapply Qle_trans; eassumption.
Qed.

Lemma datetime_ltb_asym (a b : datetime) :
  datetime_ltb a b = true -> datetime_ltb b a = false.
Proof. unfold datetime_ltb. rewrite N.ltb_lt, N.ltb_ge. lia. Qed.

Lemma datetime_leb_trans (a b c : datetime) :
  datetime_ltb b a = false -> datetime_ltb c b = false -> datetime_ltb c a = false.
Proof. unfold datetime_ltb. rewrite !N.ltb_ge. lia. Qed.

(** ** Dictionaries *)

Lemma key2_eqb_eq (a b : key2) : key2_eqb a b = true <-> a = b.
Proof.
  destruct a as [a1 a2], b as [b1 b2]. unfold key2_eqb. simpl.
  rewrite andb_true_iff, !str_eqb_eq. split.
  - intros [H1 H2]. subst. reflexivity.
  - intro H. inversion H. split; reflexivity.
Qed.

Lemma key2_eqb_refl (a : key2) : key2_eqb a a = true.
Proof. apply key2_eqb_eq. reflexivity. Qed.

Section DictFacts.
Variables (K V : Type) (eqb : K -> K -> bool).
Hypothesis eqb_eq : forall a b, eqb a b = true <-> a = b.

Lemma dict_get_in (k : K) (v : V) (d : dict K V) :
  dict_get eqb k d = Some v -> In (k, v) d.
Proof.
  induction d as [|[k' v'] d IH]; simpl; [discriminate|].
  destruct (eqb k k') eqn:E.
  - intro H. inversion H. subst. apply eqb_eq in E. subst. left. reflexivity.
  - intro H. right. apply IH. exact H.
Qed.

Lemma dict_get_none (k : K) (d : dict K V) :
  dict_get eqb k d = None <-> ~ In k (map fst d).
Proof.
  induction d as [|[k' v'] d IH]; simpl.
  - split; [intros _ [] | reflexivity].
  - destruct (eqb k k') eqn:E.
    + apply eqb_eq in E. subst. split; [discriminate|].
      intro H. exfalso. apply H. left. reflexivity.
    + rewrite IH. split.
      * intros H [H1|H1]; [|exact (H H1)].
        subst. assert (eqb k k = true) by (apply eqb_eq; reflexivity). congruence.
      * intros H H1. apply H. right. exact H1.
Qed.

Lemma dict_get_unique (k : K) (v : V) (d : dict K V) :
  NoDup (map fst d) -> In (k, v) d -> dict_get eqb k d = Some v.
Proof.
  induction d as [|[k' v'] d IH]; simpl; intros Hnd Hin; [destruct Hin|].
  inversion Hnd as [|? ? Hk Hd]; subst.
  destruct Hin as [Hin|Hin].
  - inversion Hin. subst.
    assert (E : eqb k k = true) by (apply eqb_eq; reflexivity).
    rewrite E. reflexivity.
  - destruct (eqb k k') eqn:E.
    + apply eqb_eq in E. subst. exfalso. apply Hk.
      apply in_map_iff. exists (k', v). split; [reflexivity | exact Hin].
    + apply IH; assumption.
Qed.

(** Updating keeps the keys, or adds the new one last. *)
Lemma dict_update_keys (k : K) (f : V -> V) (default : V) (d : dict K V) :
  map fst (dict_update eqb k f default d)
  = if dict_mem eqb k d then map fst d else map fst d ++ [k].
Proof.
  unfold dict_mem. induction d as [|[k' v'] d IH]; simpl; [reflexivity|].
  destruct (eqb k k') eqn:E; simpl; [reflexivity|].
  rewrite IH. destruct (dict_get eqb k d); reflexivity.
Qed.

Lemma dict_update_nodup (k : K) (f : V -> V) (default : V) (d : dict K V) :
  NoDup (map fst d) -> NoDup (map fst (dict_update eqb k f default d)).
Proof.
  intro H. rewrite dict_update_keys. unfold dict_mem.
  destruct (dict_get eqb k d) eqn:E; [exact H|].
  apply dict_get_none in E.
  apply NoDup_rev in H. rewrite <- (rev_involutive (map fst d ++ [k])).
  apply NoDup_rev. rewrite rev_app_distr. simpl. constructor; [|exact H].
  rewrite <- in_rev. exact E.
Qed.

(** What an update does to the values: one bucket changes, or a new one
    is added. *)
Lemma dict_update_split (k : K) (f : V -> V) (default : V) (d : dict K V) :
  (exists d1 v d2, d = d1 ++ (k, v) :: d2
                   /\ dict_update eqb k f default d = d1 ++ (k, f v) :: d2)
  \/ (dict_update eqb k f default d = d ++ [(k, f default)]).
Proof.
  induction d as [|[k' v'] d IH]; simpl; [right; reflexivity|].
  destruct (eqb k k') eqn:E.
  - apply eqb_eq in E. subst. left. exists [], v', d. split; reflexivity.
  - destruct IH as [(d1 & v & d2 & H1 & H2)|H].
    + left. exists ((k', v') :: d1), v, d2.
      split; [rewrite H1 | rewrite H2]; reflexivity.
    + right. rewrite H. reflexivity.
Qed.
End DictFacts.

(** ** Ranked personal bests *)

Lemma enumerate_length {X : Type} (start : Z) (l : list X) :
  List.length (enumerate start l) = List.length l.
Proof.
  revert start. induction l as [|x l IH]; intro start; simpl; [reflexivity|].
  rewrite IH. reflexivity.
Qed.

Lemma enumerate_snd {X : Type} (start : Z) (l : list X) :
  map snd (enumerate start l) = l.
Proof.
  revert start. induction l as [|x l IH]; intro start; simpl; [reflexivity|].
  rewrite IH. reflexivity.
Qed.

Lemma enumerate_fst {X : Type} (start : nat) (l : list X) :
  map fst (enumerate (Z.of_nat start) l)
  = map Z.of_nat (seq start (List.length l)).
Proof.
  revert start. induction l as [|x l IH]; intro start; simpl; [reflexivity|].
  f_equal. rewrite <- IH. f_equal. f_equal. lia.
Qed.

Lemma firstn_in {X : Type} (n : nat) (l : list X) (x : X) :
  In x (firstn n l) -> In x l.
Proof.
  revert n. induction l as [|y l IH]; intros n H.
  - rewrite firstn_nil in H. destruct H.
  - destruct n as [|n]; simpl in H; [destruct H|].
    destruct H as [H|H]; [left; exact H | right; apply (IH n); exact H].
Qed.

Lemma strongly_sorted_firstn {X : Type} (R : X -> X -> Prop) (n : nat) (l : list X) :
  StronglySorted R l -> StronglySorted R (firstn n l).
Proof.
  revert n. induction l as [|x l IH]; intros n Hs.
  - rewrite firstn_nil. constructor.
  - destruct n as [|n]; simpl; [constructor|].
    inversion Hs as [|? ? Hl Hx]; subst.
    constructor; [apply IH; exact Hl|].
    rewrite Forall_forall in *. intros y Hy. apply Hx.
    apply (firstn_in n l). exact Hy.
Qed.

Lemma strongly_sorted_map {X Y : Type} (R : X -> X -> Prop) (S : Y -> Y -> Prop)
      (f : X -> Y) (l : list X) :
  (forall a b, R a b -> S (f a) (f b)) ->
  StronglySorted R l -> StronglySorted S (map f l).
Proof.
  intros HRS Hs. induction Hs as [|x l Hl IH Hx]; simpl; constructor.
  - exact IH.
  - rewrite Forall_forall in *. intros y Hy. apply in_map_iff in Hy.
    destruct Hy as (z & Hz & Hin). subst. apply HRS. apply Hx. exact Hin.
Qed.

Lemma strongly_sorted_weaken {X : Type} (R S : X -> X -> Prop) (l : list X) :
  (forall a b, R a b -> S a b) -> StronglySorted R l -> StronglySorted S l.
Proof.
  intros HRS Hs. induction Hs as [|x l Hl IH Hx]; constructor.
  - exact IH.
  - rewrite Forall_forall in *. intros y Hy. apply HRS. apply Hx. exact Hy.
Qed.

Lemma same_key_Qeq (t : Q) (e : lap_entry) :
  same_key Qlt_bool lap_of t e = Qeq_bool (lap_of e) t.
Proof.
  unfold same_key.
  destruct (Qeq_bool (lap_of e) t) eqn:E.
  - apply Qeq_bool_iff in E.
    assert (H1 : Qlt_bool (lap_of e) t = false) by (apply Qlt_bool_false_iff; lra).
    assert (H2 : Qlt_bool t (lap_of e) = false) by (apply Qlt_bool_false_iff; lra).
    rewrite H1, H2. reflexivity.
  - destruct (Qlt_bool (lap_of e) t) eqn:E1; [reflexivity|].
    destruct (Qlt_bool t (lap_of e)) eqn:E2; [reflexivity|].
    apply Qlt_bool_false_iff in E1, E2.
    assert (H : lap_of e == t) by lra.
    apply Qeq_bool_iff in H. congruence.
Qed.

(** The sorted laps of a group: a permutation of the laps met, ascending by
    lap time, equal times in the order met. *)
Lemma sorted_laps_spec (laps : list lap_entry) :
  let sorted := sort_by_key Qlt_bool lap_of laps in
  Permutation sorted laps /\
  StronglySorted (fun a b => lap_of a <= lap_of b) sorted /\
  (forall t, filter (fun e => Qeq_bool (lap_of e) t) sorted
             = filter (fun e => Qeq_bool (lap_of e) t) laps).
Proof.
  cbv zeta. split; [apply sort_by_key_perm|]. split.
  - eapply strongly_sorted_weaken;
      [|apply (sort_by_key_sorted Qlt_bool lap_of Qlt_bool_asym Qle_bool_trans')].
    intros a b H. unfold key_le in H. apply Qlt_bool_false_iff in H. exact H.
  - intro t.
    rewrite <- (filter_ext _ _ (same_key_Qeq t)).
    rewrite <- (filter_ext _ _ (same_key_Qeq t)).
    apply (sort_by_key_stable Qlt_bool lap_of Qle_bool_trans').
Qed.

(** ** The buckets the scanner fills *)

Lemma add_lap_nodup (key : key2) (c : condition) (x : lap_entry)
      (data : dict key2 bucket) :
  NoDup (map fst data) -> NoDup (map fst (add_lap key c x data)).
Proof. apply dict_update_nodup. exact key2_eqb_eq. Qed.

Lemma add_gap_laps_nodup (key : key2) (f date : str) (gap_laps : list Q)
      (data : dict key2 bucket) :
  NoDup (map fst data) ->
  NoDup (map fst (fold_left (fun data gap_lap =>
                               add_lap key gap (gap_lap, f, date) data)
                            gap_laps data)).
Proof.
  revert data. induction gap_laps as [|g gl IH]; intros data H; simpl; [exact H|].
  apply IH. apply add_lap_nodup. exact H.
Qed.

Lemma process_file_nodup (read_source : str -> option source_info)
      (st : scan_state) (ld_file : str) :
  NoDup (map fst (track_car_data st)) ->
  NoDup (map fst (track_car_data (process_file read_source st ld_file))).
Proof.
  intro H. unfold process_file.
  destruct (read_source ld_file) as [info|]; [|exact H].
  destruct (si_lap_times info) as [|l0 ls]; [exact H|].
  destruct (classify_laps _ _ _ _) as [[best_dry best_wet] gap_laps].
  cbn [track_car_data].
  apply add_gap_laps_nodup.
  destruct best_dry as [d|], best_wet as [w|];
    try destruct (truthy (Some d)); try destruct (truthy (Some w));
    repeat apply add_lap_nodup; exact H.
Qed.

Lemma process_files_nodup_from (read_source : str -> option source_info)
      (ld_files : list str) (st : scan_state) :
  NoDup (map fst (track_car_data st)) ->
  NoDup (map fst (track_car_data (fold_left (process_file read_source) ld_files st))).
Proof.
  revert st. induction ld_files as [|f fs IH]; intros st H; simpl; [exact H|].
  apply IH. apply process_file_nodup. exact H.
Qed.

(** The keys of [track_car_data] are distinct: one group per
    [(track, car)]. *)
Lemma process_files_nodup (read_source : str -> option source_info)
      (ld_files : list str) :
  NoDup (map fst (track_car_data (process_files read_source ld_files))).
Proof. apply process_files_nodup_from. constructor. Qed.

(** ** Top-N selection *)

Lemma curate_condition_slots (pb_count : nat)
      (previous_pbs : dict key3 (list prev_entry))
      (track car : str) (c : condition) (laps : list lap_entry) :
  fst (curate_condition pb_count previous_pbs track car c laps)
  = map (slot_of track car c) (ranked_pbs pb_count laps).
Proof.
  unfold curate_condition. destruct laps; [|reflexivity].
  unfold ranked_pbs. simpl. rewrite firstn_nil. reflexivity.
Qed.


Lemma slot_of_fields (track car : str) (c : condition) (r : Z * lap_entry) :
  let s := slot_of track car c r in
  slot_track s = track /\ slot_car s = car /\ slot_condition s = c
  /\ slot_rank s = fst r /\ slot_lap_time s = lap_of (snd r)
  /\ slot_file s = file_of (snd r)
  /\ slot_new_filename s
     = generate_pb_filename track car (cond_name c) (fst r) (lap_of (snd r))
                            (date_of (snd r)).
Proof.
  destruct r as [rank [[lap_time file_path] date_str]]. simpl.
  repeat split; reflexivity.
Qed.

Lemma files_to_pb_of_groups (pb_count : nat)
      (previous_pbs : dict key3 (list prev_entry)) (data : dict key2 bucket) :
  files_to_pb_of pb_count previous_pbs data
  = flat_map (fun kv =>
                fst (curate_condition pb_count previous_pbs (fst (fst kv))
                                      (snd (fst kv)) dry (b_dry (snd kv)))
                ++ fst (curate_condition pb_count previous_pbs (fst (fst kv))
                                         (snd (fst kv)) wet (b_wet (snd kv))))
             data.
Proof.
  unfold files_to_pb_of. apply flat_map_ext. intros [[track car] b].
  unfold curate_group. cbn [fst snd].
  destruct (curate_condition pb_count previous_pbs track car dry (b_dry b)).
  destruct (curate_condition pb_count previous_pbs track car wet (b_wet b)).
  reflexivity.
Qed.

(** C5: the (track, car) groups are distinct; for each of them and each
    condition the curation emits at most [pb_count] slots, namely
    [min pb_count (number of laps)] of them; their ranks are 1, 2, ..., k in
    that order; and they are the first laps of the group's list sorted
    ascending by lap time with equal lap times kept in the order in which
    they were met (a stable sort on the duration alone). *)
Theorem curation_top_n (read_source : str -> option source_info)
        (pb_count : nat) (previous_pbs : dict key3 (list prev_entry))
        (ld_files : list str) :
  let data := track_car_data (process_files read_source ld_files) in
  NoDup (map fst data) /\
  files_to_pb_of pb_count previous_pbs data
  = flat_map (fun kv =>
                fst (curate_condition pb_count previous_pbs (fst (fst kv))
                                      (snd (fst kv)) dry (b_dry (snd kv)))
                ++ fst (curate_condition pb_count previous_pbs (fst (fst kv))
                                         (snd (fst kv)) wet (b_wet (snd kv))))
             data /\
  forall (track car : str) (b : bucket) (c : condition),
    In ((track, car), b) data ->
    let laps := bucket_get c b in
    let slots := fst (curate_condition pb_count previous_pbs track car c laps) in
    (List.length slots <= pb_count)%nat /\
    List.length slots = Nat.min pb_count (List.length laps) /\
    map slot_rank slots = map Z.of_nat (seq 1 (List.length slots)) /\
    Forall (fun s => slot_track s = track /\ slot_car s = car
                     /\ slot_condition s = c) slots /\
    StronglySorted (fun a b => slot_lap_time a <= slot_lap_time b) slots /\
    exists sorted,
      Permutation sorted laps /\
      StronglySorted (fun a b => lap_of a <= lap_of b) sorted /\
      (forall t, filter (fun e => Qeq_bool (lap_of e) t) sorted
                 = filter (fun e => Qeq_bool (lap_of e) t) laps) /\
      map (fun s => (slot_lap_time s, slot_file s)) slots
      = map (fun e => (lap_of e, file_of e)) (firstn pb_count sorted).
Proof.
  cbv zeta. split; [apply process_files_nodup|].
  split; [apply files_to_pb_of_groups|].
  intros track car b c _.
  rewrite curate_condition_slots. unfold ranked_pbs.
  set (laps := bucket_get c b).
  destruct (sorted_laps_spec laps) as (Hperm & Hsorted & Hstable).
  set (sorted := sort_by_key Qlt_bool lap_of laps) in *.
  assert (Hlen : List.length (map (slot_of track car c)
                                  (enumerate 1 (firstn pb_count sorted)))
                 = Nat.min pb_count (List.length laps)).
  { rewrite length_map, enumerate_length, length_firstn.
    rewrite (Permutation_length Hperm). reflexivity. }
  split; [rewrite Hlen; apply Nat.le_min_l|].
  split; [exact Hlen|].
  split.
  { rewrite map_map.
    rewrite (map_ext _ fst) by (intro r; apply (slot_of_fields track car c r)).
    rewrite length_map, enumerate_length.
    apply (enumerate_fst 1). }
  split.
  { apply Forall_forall. intros s Hs. apply in_map_iff in Hs.
    destruct Hs as (r & Hr & _). subst s.
    destruct (slot_of_fields track car c r) as (H1 & H2 & H3 & _).
    repeat split; assumption. }
  assert (Hsnd : forall l : list (Z * lap_entry),
             map (fun s => (slot_lap_time s, slot_file s))
                 (map (slot_of track car c) l)
             = map (fun e => (lap_of e, file_of e)) (map snd l)).
  { intro l. rewrite !map_map. apply map_ext. intro r.
    destruct (slot_of_fields track car c r) as (_ & _ & _ & _ & H5 & H6 & _).
    cbv zeta in H5, H6. rewrite H5, H6. reflexivity. }
  split.
  { assert (Hs : StronglySorted (fun a b => lap_of a <= lap_of b)
                                (map snd (enumerate 1 (firstn pb_count sorted)))).
    { rewrite enumerate_snd. apply strongly_sorted_firstn. exact Hsorted. }
    clear Hlen.
    remember (enumerate 1 (firstn pb_count sorted)) as l eqn:El. clear El.
    induction l as [|r l IH]; simpl; [constructor|].
    simpl in Hs. inversion Hs as [|? ? Hl Hr]; subst.
    constructor; [apply IH; exact Hl|].
    rewrite Forall_forall in *. intros s Hs'. apply in_map_iff in Hs'.
    destruct Hs' as (r' & Hr' & Hin). subst s.
    destruct (slot_of_fields track car c r) as (_ & _ & _ & _ & H5 & _).
    destruct (slot_of_fields track car c r') as (_ & _ & _ & _ & H5' & _).
    cbv zeta in H5, H5'. rewrite H5, H5'. apply Hr.
    apply in_map. exact Hin. }
  exists sorted. split; [exact Hperm|]. split; [exact Hsorted|].
  split; [exact Hstable|].
  rewrite Hsnd, enumerate_snd. reflexivity.
Qed.

(** ** One lap per file and condition *)

Lemma min_from_spec (m : Q) (l : list Q) :
  (min_from m l = m \/ In (min_from m l) l)
  /\ min_from m l <= m
  /\ forall x, In x l -> min_from m l <= x.
Proof.
  revert m. induction l as [|y l IH]; intro m; simpl.
  - split; [left; reflexivity|]. split; [apply Qle_refl | intros x []].
  - destruct (IH (if Qlt_bool y m then y else m)) as (H1 & H2 & H3).
    destruct (Qlt_bool y m) eqn:E.
    + apply Qlt_bool_iff in E. split; [|split].
      * destruct H1 as [H1|H1]; right; [left; symmetry; exact H1 | right; exact H1].
      * apply Qlt_le_weak. eapply Qle_lt_trans; eassumption.
      * intros x [Hx|Hx]; [subst; exact H2 | apply H3; exact Hx].
    + apply Qlt_bool_false_iff in E. split; [|split].
      * destruct H1 as [H1|H1]; [left; exact H1 | right; right; exact H1].
      * exact H2.
      * intros x [Hx|Hx]; [subst; eapply Qle_trans; eassumption | apply H3; exact Hx].
Qed.

Lemma py_min_spec (l : list Q) (m : Q) :
  py_min l = Some m -> In m l /\ forall x, In x l -> m <= x.
Proof.
  destruct l as [|y l]; simpl; [discriminate|].
  intro H. inversion H. subst m. clear H.
  destruct (min_from_spec y l) as (H1 & H2 & H3). split.
  - destruct H1 as [H1|H1]; [left; symmetry; exact H1 | right; exact H1].
  - intros x [Hx|Hx]; [subst; exact H2 | apply H3; exact Hx].
Qed.

Lemma condition_eqb_eq (a b : condition) : condition_eqb a b = true <-> a = b.
Proof. destruct a, b; simpl; split; intro H; congruence. Qed.

Lemma best_of_fastest (c : condition) (info : source_info) (lap : Q) :
  best_of c (classify_laps (si_lap_times info) (si_dry_benchmark info)
                           (si_wet_benchmark info) (si_tolerance info))
  = Some lap ->
  fastest_of c info lap.
Proof.
  intro H.
  assert (Hmin : py_min (laps_of c (si_lap_times info) (si_dry_benchmark info)
                                 (si_wet_benchmark info) (si_tolerance info))
                 = Some lap).
  { destruct c; simpl in H; try exact H. discriminate. }
  apply py_min_spec in Hmin. destruct Hmin as [Hin Hle].
  unfold laps_of in Hin, Hle. apply filter_In in Hin. destruct Hin as [Hin Hc].
  unfold fastest_of. split; [exact Hin|]. split.
  - destruct (classify_lap lap _ _ _) as [c'|]; [|discriminate].
    apply condition_eqb_eq in Hc. subst. reflexivity.
  - intros x Hx Hcx. apply Hle. apply filter_In. split; [exact Hx|].
    rewrite Hcx. apply condition_eqb_eq. reflexivity.
Qed.

Lemma all_entries_app (c : condition) (d1 d2 : dict key2 bucket) :
  all_entries c (d1 ++ d2) = all_entries c d1 ++ all_entries c d2.
Proof. unfold all_entries. apply flat_map_app. Qed.

Lemma bucket_get_append (c c' : condition) (x : lap_entry) (b : bucket) :
  bucket_get c (bucket_append c' x b)
  = if condition_eqb c c' then bucket_get c b ++ [x] else bucket_get c b.
Proof. destruct c, c'; reflexivity. Qed.

(** Adding a lap to a bucket adds it to the entries of its condition and
    leaves the other conditions alone. *)
Lemma all_entries_add_lap (c c' : condition) (key : key2) (x : lap_entry)
      (data : dict key2 bucket) :
  Permutation (all_entries c (add_lap key c' x data))
              (if condition_eqb c c' then x :: all_entries c data
               else all_entries c data).
Proof.
  unfold add_lap.
  destruct (dict_update_split key2_eqb key2_eqb_eq key (bucket_append c' x)
                              empty_bucket data)
    as [(d1 & b & d2 & H1 & H2)|H].
  - rewrite H2, H1. rewrite !all_entries_app.
    unfold all_entries at 2 5. cbn [flat_map snd].
    fold (all_entries c d2). rewrite bucket_get_append.
    destruct (condition_eqb c c'); [|apply Permutation_refl].
    rewrite <- !app_assoc. cbn [app].
    apply Permutation_sym.
    eapply Permutation_trans; [apply Permutation_middle|].
    apply Permutation_app_head.
    eapply Permutation_trans; [apply Permutation_middle|].
    apply Permutation_app_head. apply Permutation_refl.
  - rewrite H. rewrite all_entries_app.
    unfold all_entries at 2. cbn [flat_map snd]. rewrite bucket_get_append.
    rewrite app_nil_r.
    destruct (condition_eqb c c'); cbn [bucket_get empty_bucket app].
    + destruct c; cbn; apply Permutation_sym, Permutation_cons_append.
    + destruct c; cbn; rewrite app_nil_r; apply Permutation_refl.
Qed.

Lemma all_entries_add_gaps (c : condition) (key : key2) (f date : str)
      (gap_laps : list Q) (data : dict key2 bucket) :
  c <> gap ->
  Permutation
    (all_entries c (fold_left (fun data gap_lap =>
                                 add_lap key gap (gap_lap, f, date) data)
                              gap_laps data))
    (all_entries c data).
Proof.
  intro Hc. revert data. induction gap_laps as [|g gl IH]; intro data; simpl.
  - apply Permutation_refl.
  - eapply Permutation_trans; [apply IH|].
    pose proof (all_entries_add_lap c gap key (g, f, date) data) as H.
    destruct c; simpl in H; try exact H. congruence.
Qed.

(** The entries of a condition after one more file: those before, and at
    most one new entry, which carries the file's best lap. *)
Lemma process_file_entries (read_source : str -> option source_info)
      (st : scan_state) (ld_file : str) (c : condition) :
  c = dry \/ c = wet ->
  Permutation (all_entries c (track_car_data (process_file read_source st ld_file)))
              (all_entries c (track_car_data st))
  \/ exists info lap,
       read_source ld_file = Some info
       /\ best_of c (classify_laps (si_lap_times info) (si_dry_benchmark info)
                                   (si_wet_benchmark info) (si_tolerance info))
          = Some lap
       /\ Permutation
            (all_entries c (track_car_data (process_file read_source st ld_file)))
            ((lap, ld_file, si_date info) :: all_entries c (track_car_data st)).
Proof.
  intro Hc. unfold process_file.
  destruct (read_source ld_file) as [info|] eqn:Ers;
    [|left; apply Permutation_refl].
  destruct (si_lap_times info) as [|l0 ls] eqn:El; [left; apply Permutation_refl|].
  rewrite <- El.
  destruct (classify_laps (si_lap_times info) _ _ _)
    as [[best_dry best_wet] gap_laps] eqn:Ecl.
  cbn [track_car_data].
  assert (Hng : c <> gap) by (destruct Hc; subst; discriminate).
  set (key := (si_track info, si_car info)).
  set (data := track_car_data st).
  set (data1 := match best_dry with
                | Some lap => if truthy best_dry
                              then add_lap key dry (lap, ld_file, si_date info) data
                              else data
                | None => data
                end).
  set (data2 := match best_wet with
                | Some lap => if truthy best_wet
                              then add_lap key wet (lap, ld_file, si_date info) data1
                              else data1
                | None => data1
                end).
  pose proof (all_entries_add_gaps key ld_file (si_date info) gap_laps data2 Hng)
    as Hg.
  destruct Hc as [Hc|Hc]; subst c.
  - (* dry: only the first addition matters *)
    assert (H2 : Permutation (all_entries dry data2) (all_entries dry data1)).
    { unfold data2. destruct best_wet as [w|]; [|apply Permutation_refl].
      destruct (truthy (Some w)); [|apply Permutation_refl].
      apply (all_entries_add_lap dry wet). }
    destruct best_dry as [d|]; [|left].
    + destruct (truthy (Some d)) eqn:Et.
      * right. exists info, d. split; [reflexivity|].
        split; [rewrite Ecl; reflexivity|].
        eapply Permutation_trans; [exact Hg|].
        eapply Permutation_trans; [exact H2|].
        unfold data1. apply (all_entries_add_lap dry dry).
      * left. eapply Permutation_trans; [exact Hg|].
        eapply Permutation_trans; [exact H2|].
        unfold data1. apply Permutation_refl.
    + eapply Permutation_trans; [exact Hg|].
      eapply Permutation_trans; [exact H2|]. apply Permutation_refl.
  - (* wet: only the second addition matters *)
    assert (H1 : Permutation (all_entries wet data1) (all_entries wet data)).
    { unfold data1. destruct best_dry as [d|]; [|apply Permutation_refl].
      destruct (truthy (Some d)); [|apply Permutation_refl].
      apply (all_entries_add_lap wet dry). }
    destruct best_wet as [w|]; [|left].
    + destruct (truthy (Some w)) eqn:Et.
      * right. exists info, w. split; [reflexivity|].
        split; [rewrite Ecl; reflexivity|].
        eapply Permutation_trans; [exact Hg|].
        unfold data2.
        eapply Permutation_trans; [apply (all_entries_add_lap wet wet)|].
        cbn [condition_eqb]. apply perm_skip. exact H1.
      * left. eapply Permutation_trans; [exact Hg|].
        unfold data2. exact H1.
    + eapply Permutation_trans; [exact Hg|]. exact H1.
Qed.

Lemma entries_ok_step (read_source : str -> option source_info)
      (seen : list str) (st : scan_state) (ld_file : str) (c : condition) :
  c = dry \/ c = wet ->
  ~ In ld_file seen ->
  entries_ok read_source seen (track_car_data st) c ->
  entries_ok read_source (seen ++ [ld_file])
             (track_car_data (process_file read_source st ld_file)) c.
Proof.
  intros Hc Hnew [Hnd Hall].
  assert (Hold : forall e, In e (all_entries c (track_car_data st)) ->
                 In (file_of e) (seen ++ [ld_file]) /\
                 exists info, read_source (file_of e) = Some info
                              /\ fastest_of c info (lap_of e)).
  { intros e He. destruct (Hall e He) as [H1 H2].
    split; [apply in_or_app; left; exact H1 | exact H2]. }
  destruct (process_file_entries read_source st ld_file Hc)
    as [Hp|(info & lap & Hrs & Hbest & Hp)].
  - split.
    + apply (Permutation_NoDup (Permutation_sym (Permutation_map file_of Hp))).
      exact Hnd.
    + intros e He. apply Hold. apply (Permutation_in _ Hp). exact He.
  - split.
    + apply (Permutation_NoDup (Permutation_sym (Permutation_map file_of Hp))).
      cbn [map]. constructor; [|exact Hnd].
      intro Hin. apply in_map_iff in Hin. destruct Hin as (e & He1 & He2).
      destruct (Hall e He2) as [Hs _]. rewrite He1 in Hs.
      apply Hnew. exact Hs.
    + intros e He. apply (Permutation_in _ Hp) in He.
      destruct He as [He|He]; [|apply Hold; exact He].
      subst e. split; [apply in_or_app; right; left; reflexivity|].
      exists info. split; [exact Hrs|].
      apply best_of_fastest. exact Hbest.
Qed.

Lemma entries_ok_fold (read_source : str -> option source_info)
      (c : condition) (ld_files : list str) (seen : list str) (st : scan_state) :
  c = dry \/ c = wet ->
  NoDup ld_files -> (forall f, In f ld_files -> ~ In f seen) ->
  entries_ok read_source seen (track_car_data st) c ->
  entries_ok read_source (seen ++ ld_files)
             (track_car_data (fold_left (process_file read_source) ld_files st)) c.
Proof.
  intro Hc. revert seen st.
  induction ld_files as [|f fs IH]; intros seen st Hnd Hdis Hok; simpl.
  - rewrite app_nil_r. exact Hok.
  - inversion Hnd as [|? ? Hf Hfs]; subst.
    replace (seen ++ f :: fs) with ((seen ++ [f]) ++ fs)
      by (rewrite <- app_assoc; reflexivity).
    apply IH.
    + exact Hfs.
    + intros g Hg Hin. apply in_app_or in Hin. destruct Hin as [Hin|[Hin|[]]].
      * apply (Hdis g); [right; exact Hg | exact Hin].
      * subst g. contradiction.
    + apply entries_ok_step; [exact Hc | apply Hdis; left; reflexivity | exact Hok].
Qed.

Lemma process_files_entries_ok (read_source : str -> option source_info)
      (c : condition) (ld_files : list str) :
  c = dry \/ c = wet -> NoDup ld_files ->
  entries_ok read_source ld_files
             (track_car_data (process_files read_source ld_files)) c.
Proof.
  intros Hc Hnd. unfold process_files.
  apply (@entries_ok_fold read_source c ld_files [] _ Hc Hnd).
  - intros f _ [].
  - split; [constructor | intros e []].
Qed.

(** ** Counting the slots of a file *)

Lemma entries_from_nodup (p : str) (l : list lap_entry) :
  NoDup (map file_of l) -> (List.length (entries_from p l) <= 1)%nat.
Proof.
  unfold entries_from. induction l as [|x l IH]; intro H; simpl; [lia|].
  inversion H as [|? ? Hx Hl]; subst.
  destruct (str_eqb (file_of x) p) eqn:E; [|apply IH; exact Hl].
  apply str_eqb_eq in E. simpl.
  assert (Hnil : filter (fun e => str_eqb (file_of e) p) l = []).
  { destruct (filter (fun e => str_eqb (file_of e) p) l) as [|y ys] eqn:Ef;
      [reflexivity|].
    exfalso. assert (Hy : In y (y :: ys)) by (left; reflexivity).
    rewrite <- Ef in Hy. apply filter_In in Hy. destruct Hy as [Hy1 Hy2].
    apply str_eqb_eq in Hy2. apply Hx. rewrite E, <- Hy2.
    apply in_map. exact Hy1. }
  rewrite Hnil. simpl. lia.
Qed.

Lemma filter_length_perm {X : Type} (f : X -> bool) (l l' : list X) :
  Permutation l l' -> List.length (filter f l) = List.length (filter f l').
Proof.
  intro H. induction H as [|x l l' H IH|x y l|l l' l'' H1 IH1 H2 IH2]; simpl.
  - reflexivity.
  - destruct (f x); simpl; rewrite IH; reflexivity.
  - destruct (f x), (f y); reflexivity.
  - rewrite IH1. exact IH2.
Qed.

Lemma filter_length_firstn {X : Type} (f : X -> bool) (n : nat) (l : list X) :
  (List.length (filter f (firstn n l)) <= List.length (filter f l))%nat.
Proof.
  rewrite <- (firstn_skipn n l) at 2. rewrite filter_app, length_app. lia.
Qed.

Lemma filter_enumerate_length {X : Type} (f : X -> bool) (start : Z) (l : list X) :
  List.length (filter (fun r => f (snd r)) (enumerate start l))
  = List.length (filter f l).
Proof.
  revert start. induction l as [|x l IH]; intro start; simpl; [reflexivity|].
  destruct (f x); simpl; rewrite IH; reflexivity.
Qed.

Lemma slots_from_map (p : str) (c c' : condition) (track car : str)
      (l : list (Z * lap_entry)) :
  List.length (slots_from p c (map (slot_of track car c') l))
  = if condition_eqb c' c
    then List.length (filter (fun r => str_eqb (file_of (snd r)) p) l)
    else 0%nat.
Proof.
  unfold slots_from. induction l as [|r l IH]; simpl.
  - destruct (condition_eqb c' c); reflexivity.
  - destruct (slot_of_fields track car c' r) as (_ & _ & H3 & _ & _ & H6 & _).
    cbv zeta in H3, H6. rewrite H3, H6.
    destruct (condition_eqb c' c).
    + rewrite andb_true_r. destruct (str_eqb (file_of (snd r)) p); simpl;
        rewrite IH; reflexivity.
    + rewrite andb_false_r. exact IH.
Qed.

Lemma slots_from_condition (pb_count : nat)
      (previous_pbs : dict key3 (list prev_entry)) (p : str) (c c' : condition)
      (track car : str) (laps : list lap_entry) :
  (List.length (slots_from p c
                  (fst (curate_condition pb_count previous_pbs track car c' laps)))
   <= if condition_eqb c' c then List.length (entries_from p laps) else 0)%nat.
Proof.
  rewrite curate_condition_slots, slots_from_map.
  destruct (condition_eqb c' c); [|lia].
  unfold ranked_pbs.
  rewrite (filter_enumerate_length (fun e => str_eqb (file_of e) p)).
  eapply Nat.le_trans; [apply filter_length_firstn|].
  unfold entries_from.
  rewrite (filter_length_perm _ (sort_by_key_perm Qlt_bool lap_of laps)). lia.
Qed.

Lemma slots_from_le (pb_count : nat)
      (previous_pbs : dict key3 (list prev_entry)) (p : str) (c : condition)
      (data : dict key2 bucket) :
  c = dry \/ c = wet ->
  (List.length (slots_from p c (files_to_pb_of pb_count previous_pbs data))
   <= List.length (entries_from p (all_entries c data)))%nat.
Proof.
  intro Hc. rewrite files_to_pb_of_groups. unfold all_entries.
  induction data as [|[[track car] b] data IH]; simpl; [lia|].
  unfold slots_from, entries_from in *.
  rewrite !filter_app, !length_app.
  pose proof (slots_from_condition pb_count previous_pbs p c dry track car (b_dry b))
    as Hd.
  pose proof (slots_from_condition pb_count previous_pbs p c wet track car (b_wet b))
    as Hw.
  unfold slots_from, entries_from in Hd, Hw.
  destruct Hc as [Hc|Hc]; subst c; cbn [condition_eqb bucket_get] in *; lia.
Qed.

(** C6: with distinct telemetry files, every lap entered into the selection
    of a condition is the fastest lap of its file that is classified with
    that condition ([classify_laps] keeps one dry and one wet lap per file),
    no file has more than one lap in the selection of a condition, and so no
    file fills more than one dry slot and one wet slot of a run. *)
Theorem one_lap_per_file_and_condition
        (read_source : str -> option source_info) (pb_count : nat)
        (previous_pbs : dict key3 (list prev_entry)) (ld_files : list str) :
  NoDup ld_files ->
  let data := track_car_data (process_files read_source ld_files) in
  forall c, c = dry \/ c = wet ->
    (forall e, In e (all_entries c data) ->
       In (file_of e) ld_files /\
       exists info, read_source (file_of e) = Some info
                    /\ fastest_of c info (lap_of e)) /\
    forall p,
      (List.length (entries_from p (all_entries c data)) <= 1)%nat /\
      (List.length (slots_from p c (files_to_pb_of pb_count previous_pbs data))
       <= 1)%nat.
Proof.
  intros Hnd data c Hc.
  destruct (process_files_entries_ok read_source Hc Hnd) as [Hnodup Hall].
  fold data in Hnodup, Hall.
  split; [exact Hall|].
  intro p.
  pose proof (entries_from_nodup p _ Hnodup) as H1.
  split; [exact H1|].
  eapply Nat.le_trans; [apply slots_from_le; exact Hc | exact H1].
Qed.

Lemma one_lap_per_file_and_condition_witness :
  (List.length
     (slots_from "a.ld"%string dry
        (files_to_pb_of 3 []
           (track_car_data (process_files example_read_source example_ld_files))))
   <= 1)%nat /\
  (List.length
     (slots_from "a.ld"%string wet
        (files_to_pb_of 3 []
           (track_car_data (process_files example_read_source example_ld_files))))
   <= 1)%nat.
Proof.
  assert (Hnd : NoDup example_ld_files).
  { unfold example_ld_files.
    repeat (constructor; [simpl; intuition discriminate|]). constructor. }
  split.
  - apply (@one_lap_per_file_and_condition example_read_source 3 []
                                           example_ld_files Hnd dry).
    left. reflexivity.
  - apply (@one_lap_per_file_and_condition example_read_source 3 []
                                           example_ld_files Hnd wet).
    right. reflexivity.
Defined.

(** ** Dictionaries keyed by file *)

Section StrDict.
Variable V : Type.

Lemma dict_modify_keys (k : str) (f : V -> V) (d : dict str V) :
  map fst (dict_modify str_eqb k f d) = map fst d.
Proof.
  induction d as [|[k' v] d IH]; simpl; [reflexivity|].
  destruct (str_eqb k k'); simpl; [reflexivity | rewrite IH; reflexivity].
Qed.

Lemma dict_modify_get (k q : str) (f : V -> V) (d : dict str V) :
  dict_get str_eqb q (dict_modify str_eqb k f d)
  = if str_eqb q k then option_map f (dict_get str_eqb k d)
    else dict_get str_eqb q d.
Proof.
  induction d as [|[k' v] d IH]; simpl.
  - destruct (str_eqb q k); reflexivity.
  - destruct (str_eqb k k') eqn:E; simpl.
    + apply str_eqb_eq in E. subst k'.
      destruct (str_eqb q k); reflexivity.
    + rewrite IH. destruct (str_eqb q k') eqn:E'; [|reflexivity].
      apply str_eqb_eq in E'. subst k'.
      destruct (str_eqb q k) eqn:E''; [|reflexivity].
      apply str_eqb_eq in E''. subst q. rewrite str_eqb_refl in E. discriminate.
Qed.

Lemma dict_modify_flat_map {X : Type} (g : str * V -> list X) (k : str)
      (f : V -> V) (d : dict str V) :
  (forall k' v, g (k', f v) = g (k', v)) ->
  flat_map g (dict_modify str_eqb k f d) = flat_map g d.
Proof.
  intro H. induction d as [|[k' v] d IH]; simpl; [reflexivity|].
  destruct (str_eqb k k'); simpl; [rewrite H | rewrite IH]; reflexivity.
Qed.

Lemma dict_set_absent (k : str) (v : V) (d : dict str V) :
  dict_get str_eqb k d = None -> dict_set str_eqb k v d = d ++ [(k, v)].
Proof.
  induction d as [|[k' v'] d IH]; simpl; [reflexivity|].
  destruct (str_eqb k k'); [discriminate|].
  intro H. rewrite (IH H). reflexivity.
Qed.

Lemma dict_get_app_absent (k q : str) (v : V) (d : dict str V) :
  dict_get str_eqb k d = None ->
  dict_get str_eqb q (d ++ [(k, v)])
  = if str_eqb q k then Some v else dict_get str_eqb q d.
Proof.
  intro Hk. induction d as [|[k' v'] d IH]; simpl in *.
  - destruct (str_eqb q k); reflexivity.
  - destruct (str_eqb k k') eqn:E; [discriminate|].
    rewrite (IH Hk).
    destruct (str_eqb q k') eqn:E'; [|reflexivity].
    destruct (str_eqb q k) eqn:E''; [|reflexivity].
    apply str_eqb_eq in E', E''. subst. rewrite str_eqb_refl in E. discriminate.
Qed.
End StrDict.

(** ** Copying each source once *)

Section CopyLoop.
Variables (ldx_exists : str -> bool) (copy_error : str -> option str)
          (joinpath : str -> str -> str) (pbs_dir : str).

#[local] Abbreviation loop_inv := (copy_inv ldx_exists joinpath pbs_dir).

Lemma slots_of_file_snoc (p : str) (done : list pb_slot) (s : pb_slot) :
  slots_of_file p (done ++ [s])
  = slots_of_file p done ++ (if str_eqb (slot_file s) p then [s] else []).
Proof. unfold slots_of_file. rewrite filter_app. reflexivity. Qed.

Lemma copied_record_more (s1 s : pb_slot) (rest : list pb_slot) :
  copied_record ldx_exists joinpath pbs_dir s1 (rest ++ [s])
  = let info := copied_record ldx_exists joinpath pbs_dir s1 rest in
    {| dest_ld := dest_ld info;
       dest_ldx := dest_ldx info;
       cf_track := cf_track info;
       cf_car := cf_car info;
       primary_condition := primary_condition info;
       primary_rank := primary_rank info;
       primary_lap_time := primary_lap_time info;
       primary_filename := primary_filename info;
       additional_pbs := additional_pbs info ++ [additional_of s] |}.
Proof.
  unfold copied_record. cbn. rewrite map_app. reflexivity.
Qed.

Lemma copy_step_inv (st st' : copy_state) (done : list pb_slot) (s : pb_slot) :
  loop_inv st done ->
  copy_step ldx_exists copy_error joinpath pbs_dir st s = (st', None) ->
  loop_inv st' (done ++ [s]).
Proof.
  intros (Hnd & Hget & Hlog) Hstep. unfold copy_step in Hstep.
  unfold dict_mem in Hstep.
  pose proof (Hget (slot_file s)) as Hs.
  destruct (dict_get str_eqb (slot_file s) (copied_files st)) as [info|] eqn:Eg.
  - (* the source was copied before: one more additional PB *)
    inversion Hstep. subst st'. clear Hstep.
    unfold copy_inv. cbn [copied_files copy_log].
    destruct (slots_of_file (slot_file s) done) as [|s1 rest] eqn:Egrp;
      [discriminate|].
    cbn [record_of_group] in Hs. inversion Hs. subst info. clear Hs.
    split; [rewrite dict_modify_keys; exact Hnd|]. split.
    + intro p. rewrite dict_modify_get, slots_of_file_snoc.
      destruct (str_eqb p (slot_file s)) eqn:E.
      * apply str_eqb_eq in E. subst p. rewrite str_eqb_refl, Eg, Egrp.
        cbn [option_map app record_of_group].
        rewrite copied_record_more. reflexivity.
      * assert (E' : str_eqb (slot_file s) p = false).
        { apply str_eqb_neq. intro H. subst p. rewrite str_eqb_refl in E.
          discriminate. }
        rewrite E', app_nil_r. apply Hget.
    + rewrite dict_modify_flat_map; [exact Hlog|]. intros k' v. reflexivity.
  - (* first slot of the source: it is copied *)
    destruct (slots_of_file (slot_file s) done) as [|s1 rest] eqn:Egrp;
      [|discriminate].
    destruct (copy_error (slot_file s)) as [e|]; [discriminate|].
    set (rec := copied_record ldx_exists joinpath pbs_dir s []).
    assert (Hrec : forall log,
               {| copied_files :=
                    dict_set str_eqb (slot_file s)
                      {| dest_ld := joinpath pbs_dir (slot_new_filename s);
                         dest_ldx :=
                           if ldx_exists (with_suffix (slot_file s) ".ldx"%string)
                           then Some (joinpath pbs_dir
                                        (replace ".ld"%string ".ldx"%string
                                                 (slot_new_filename s)))
                           else None;
                         cf_track := slot_track s;
                         cf_car := slot_car s;
                         primary_condition := slot_condition s;
                         primary_rank := slot_rank s;
                         primary_lap_time := slot_lap_time s;
                         primary_filename := slot_new_filename s;
                         additional_pbs := [] |} (copied_files st);
                  copy_log := log |}
               = {| copied_files := copied_files st ++ [(slot_file s, rec)];
                    copy_log := log |}).
    { intro log. rewrite dict_set_absent by exact Eg. reflexivity. }
    assert (Hfinal : copied_files st' = copied_files st ++ [(slot_file s, rec)]
                     /\ copy_log st'
                        = copy_log st ++ copies_of (slot_file s, rec)).
    { destruct (ldx_exists (with_suffix (slot_file s) ".ldx"%string)) eqn:Ex.
      - destruct (copy_error (with_suffix (slot_file s) ".ldx"%string));
          [discriminate|].
        rewrite Hrec in Hstep. inversion Hstep. subst st'.
        cbn [copied_files copy_log]. split; [reflexivity|].
        unfold copies_of, rec, copied_record. cbn [fst snd dest_ld dest_ldx].
        rewrite Ex. rewrite <- app_assoc. reflexivity.
      - rewrite Hrec in Hstep. inversion Hstep. subst st'.
        cbn [copied_files copy_log]. split; [reflexivity|].
        unfold copies_of, rec, copied_record. cbn [fst snd dest_ld dest_ldx].
        rewrite Ex. reflexivity. }
    destruct Hfinal as [Hcf Hlg].
    split; [|split].
    + rewrite Hcf, map_app. cbn [map fst].
      apply NoDup_rev in Hnd.
      rewrite <- (rev_involutive (map fst (copied_files st) ++ [slot_file s])).
      apply NoDup_rev. rewrite rev_app_distr. cbn [rev app].
      constructor; [|exact Hnd].
      rewrite <- in_rev.
      apply (dict_get_none str_eqb str_eqb_eq). exact Eg.
    + intro p. rewrite Hcf, dict_get_app_absent by exact Eg.
      rewrite slots_of_file_snoc.
      destruct (str_eqb p (slot_file s)) eqn:E.
      * apply str_eqb_eq in E. subst p. rewrite str_eqb_refl, Egrp. reflexivity.
      * assert (E' : str_eqb (slot_file s) p = false).
        { apply str_eqb_neq. intro H. subst p. rewrite str_eqb_refl in E.
          discriminate. }
        rewrite E', app_nil_r. apply Hget.
    + rewrite Hlg, Hcf, flat_map_app, Hlog. cbn [flat_map].
      rewrite app_nil_r. reflexivity.
Qed.

Lemma copy_pb_files_inv (slots done : list pb_slot) (st st' : copy_state) :
  loop_inv st done ->
  copy_pb_files ldx_exists copy_error joinpath pbs_dir slots st = (st', None) ->
  loop_inv st' (done ++ slots).
Proof.
  revert done st. induction slots as [|s slots IH]; intros done st Hinv Hrun.
  - simpl in Hrun. inversion Hrun. subst. rewrite app_nil_r. exact Hinv.
  - simpl in Hrun.
    destruct (copy_step ldx_exists copy_error joinpath pbs_dir st s)
      as [st1 [e|]] eqn:Es; [discriminate|].
    replace (done ++ s :: slots) with ((done ++ [s]) ++ slots)
      by (rewrite <- app_assoc; reflexivity).
    apply (IH _ st1); [|exact Hrun].
    eapply copy_step_inv; eassumption.
Qed.

Lemma copy_step_total (st : copy_state) (s : pb_slot) :
  (forall p, copy_error p = None) ->
  exists st', copy_step ldx_exists copy_error joinpath pbs_dir st s = (st', None).
Proof.
  intro Hok. unfold copy_step.
  destruct (dict_mem str_eqb (slot_file s) (copied_files st)); [eexists; reflexivity|].
  rewrite Hok.
  destruct (ldx_exists _); [rewrite Hok|]; eexists; reflexivity.
Qed.

Lemma copy_pb_files_total (slots : list pb_slot) (st : copy_state) :
  (forall p, copy_error p = None) ->
  exists st', copy_pb_files ldx_exists copy_error joinpath pbs_dir slots st
              = (st', None).
Proof.
  intro Hok. revert st. induction slots as [|s slots IH]; intro st; simpl.
  - eexists; reflexivity.
  - destruct (copy_step_total st s Hok) as [st1 H1]. rewrite H1. apply IH.
Qed.
End CopyLoop.

Lemma slots_of_file_nil (p : str) (slots : list pb_slot) :
  slots_of_file p slots = [] <-> ~ In p (map slot_file slots).
Proof.
  unfold slots_of_file. split.
  - intros H Hin. apply in_map_iff in Hin. destruct Hin as (s & Hs & Hin).
    assert (Hf : In s (filter (fun s => str_eqb (slot_file s) p) slots)).
    { apply filter_In. split; [exact Hin|]. apply str_eqb_eq. exact Hs. }
    rewrite H in Hf. destruct Hf.
  - intro H.
    destruct (filter (fun s => str_eqb (slot_file s) p) slots) as [|s l] eqn:E;
      [reflexivity|].
    exfalso. apply H.
    assert (Hs : In s (s :: l)) by (left; reflexivity).
    rewrite <- E in Hs. apply filter_In in Hs. destruct Hs as [Hs1 Hs2].
    apply str_eqb_eq in Hs2. apply in_map_iff. exists s. split; assumption.
Qed.

(** C4: the slots appended to [files_to_pb] are, group after group, the dry
    slots by rank and then the wet slots by rank.  When no copy fails the
    loop over [files_to_pb] completes, and whenever it completes:
    [copied_files] has exactly one record per distinct source; the record of
    a source is built from the first slot of that source in [files_to_pb]
    (its primary slot, which names the destination) and lists every later
    slot of the source, in order, as an additional PB; the calls of
    [shutil.copy2] are those of the records, one telemetry file (and its
    companion) per record; and the number of copied files is at most the
    number of slots, with equality exactly when no source supplies more than
    one slot. *)
Theorem each_source_copied_once
        (ldx_exists : str -> bool) (copy_error : str -> option str)
        (joinpath : str -> str -> str) (pbs_dir : str)
        (files_to_pb : list pb_slot) :
  let start := {| copied_files := []; copy_log := [] |} in
  (forall pb_count previous_pbs data,
      files_to_pb_of pb_count previous_pbs data
      = flat_map (fun kv =>
                    fst (curate_condition pb_count previous_pbs (fst (fst kv))
                                          (snd (fst kv)) dry (b_dry (snd kv)))
                    ++ fst (curate_condition pb_count previous_pbs (fst (fst kv))
                                             (snd (fst kv)) wet (b_wet (snd kv))))
                 data) /\
  ((forall p, copy_error p = None) ->
   exists st,
     copy_pb_files ldx_exists copy_error joinpath pbs_dir files_to_pb start
     = (st, None)) /\
  forall st,
    copy_pb_files ldx_exists copy_error joinpath pbs_dir files_to_pb start
    = (st, None) ->
    NoDup (map fst (copied_files st)) /\
    (forall p, In p (map fst (copied_files st))
               <-> In p (map slot_file files_to_pb)) /\
    (forall p, dict_get str_eqb p (copied_files st)
               = record_of_group ldx_exists joinpath pbs_dir
                                 (slots_of_file p files_to_pb)) /\
    copy_log st = flat_map copies_of (copied_files st) /\
    (List.length (copied_files st) <= List.length files_to_pb)%nat /\
    (List.length (copied_files st) = List.length files_to_pb
     <-> NoDup (map slot_file files_to_pb)).
Proof.
  intro start. split; [intros; apply files_to_pb_of_groups|].
  split; [intro Hok; apply copy_pb_files_total; exact Hok|].
  intros st Hrun.
  assert (Hinv : copy_inv ldx_exists joinpath pbs_dir st ([] ++ files_to_pb)).
  { eapply copy_pb_files_inv; [|exact Hrun].
    split; [constructor|]. split; [intro p; reflexivity | reflexivity]. }
  cbn [app] in Hinv. destruct Hinv as (Hnd & Hget & Hlog).
  assert (Hkeys : forall p, In p (map fst (copied_files st))
                            <-> In p (map slot_file files_to_pb)).
  { intro p. pose proof (Hget p) as Hp.
    pose proof (dict_get_none str_eqb str_eqb_eq p (copied_files st)) as Hn.
    pose proof (slots_of_file_nil p files_to_pb) as Hs.
    destruct (slots_of_file p files_to_pb) as [|s1 rest].
    - cbn [record_of_group] in Hp. split.
      + intro Hin. exfalso. apply Hn; assumption.
      + intro Hin. exfalso. apply Hs; [reflexivity | exact Hin].
    - cbn [record_of_group] in Hp. split.
      + intros _.
        destruct (in_dec (list_eq_dec ascii_dec) p (map slot_file files_to_pb))
          as [Hin|Hout]; [exact Hin|].
        apply Hs in Hout. discriminate.
      + intros _.
        destruct (in_dec (list_eq_dec ascii_dec) p (map fst (copied_files st)))
          as [Hin|Hout]; [exact Hin|].
        apply Hn in Hout. congruence. }
  assert (Hincl : incl (map fst (copied_files st)) (map slot_file files_to_pb))
    by (intros p Hp; apply Hkeys; exact Hp).
  assert (Hle : (List.length (copied_files st) <= List.length files_to_pb)%nat).
  { rewrite <- (length_map fst (copied_files st)).
    rewrite <- (length_map slot_file files_to_pb).
    apply NoDup_incl_length; assumption. }
  split; [exact Hnd|]. split; [exact Hkeys|]. split; [exact Hget|].
  split; [exact Hlog|]. split; [exact Hle|].
  split.
  - intro Heq. apply (NoDup_incl_NoDup Hnd); [|exact Hincl].
    rewrite !length_map. lia.
  - intro Hnd'.
    assert (Hge : (List.length files_to_pb <= List.length (copied_files st))%nat).
    { rewrite <- (length_map fst (copied_files st)).
      rewrite <- (length_map slot_file files_to_pb).
      apply NoDup_incl_length; [exact Hnd'|].
      intros p Hp. apply Hkeys. exact Hp. }
    lia.
Qed.

(** ** Output directories, newest first *)

Lemma in_timestamped (d : directory) (item : str * node) (ts : datetime) :
  In (item, ts)
     (flat_map (fun item => match pb_folder_timestamp item with
                            | Some timestamp => [(item, timestamp)]
                            | None => []
                            end) d)
  <-> In item d /\ pb_folder_timestamp item = Some ts.
Proof.
  rewrite in_flat_map. split.
  - intros (x & Hx & Hin). destruct (pb_folder_timestamp x) as [t|] eqn:E;
      [|destruct Hin].
    destruct Hin as [Hin|[]]. inversion Hin. subst. split; assumption.
  - intros [Hin Hts]. exists item. split; [exact Hin|].
    rewrite Hts. left. reflexivity.
Qed.


Lemma find_previous_pb_folders_nil (d : directory) :
  find_previous_pb_folders d = [] ->
  forall item, In item d -> pb_folder_timestamp item = None.
Proof.
  intros H item Hin. unfold find_previous_pb_folders in H.
  destruct (pb_folder_timestamp item) as [ts|] eqn:E; [|reflexivity].
  exfalso.
  assert (Hin' : In (item, ts)
                    (sort_by_key_reverse datetime_ltb snd
                       (flat_map (fun item => match pb_folder_timestamp item with
                                              | Some timestamp => [(item, timestamp)]
                                              | None => []
                                              end) d))).
  { apply (Permutation_in _ (Permutation_sym (sort_by_key_reverse_perm _ _ _))).
    apply in_timestamped. split; assumption. }
  rewrite H in Hin'. destruct Hin'.
Qed.

(** ** Deltas *)




(** ** Directory entries *)

Section Entries.
Variable X : Type.
Implicit Types (d : list (str * X)) (name : str).

Lemma lookup_entry_in name (x : X) d :
  lookup_entry name d = Some x -> In (name, x) d.
Proof.
  induction d as [|[n y] d IH]; simpl; [discriminate|].
  destruct (str_eqb n name) eqn:E.
  - intro H. inversion H. subst. apply str_eqb_eq in E. subst. left. reflexivity.
  - intro H. right. apply IH. exact H.
Qed.

Lemma lookup_entry_unique name (x : X) d :
  NoDup (map fst d) -> In (name, x) d -> lookup_entry name d = Some x.
Proof.
  induction d as [|[n y] d IH]; simpl; intros Hnd Hin; [destruct Hin|].
  inversion Hnd as [|? ? Hn Hd]; subst.
  destruct Hin as [Hin|Hin].
  - inversion Hin. subst. rewrite str_eqb_refl. reflexivity.
  - destruct (str_eqb n name) eqn:E.
    + apply str_eqb_eq in E. subst. exfalso. apply Hn.
      apply in_map_iff. exists (name, x). split; [reflexivity | exact Hin].
    + apply IH; assumption.
Qed.

Lemma remove_entry_replace name (x : X) d :
  remove_entry name (replace_entry name x d) = remove_entry name d.
Proof.
  induction d as [|[n y] d IH]; simpl; [reflexivity|].
  destruct (str_eqb n name) eqn:E; simpl; rewrite E; [reflexivity|].
  rewrite IH. reflexivity.
Qed.

Lemma replace_entry_replace name (x y : X) d :
  replace_entry name x (replace_entry name y d) = replace_entry name x d.
Proof.
  induction d as [|[n z] d IH]; simpl; [reflexivity|].
  destruct (str_eqb n name) eqn:E; simpl; rewrite E; [reflexivity|].
  rewrite IH. reflexivity.
Qed.

Lemma replace_entry_same name (x : X) d :
  lookup_entry name d = Some x -> replace_entry name x d = d.
Proof.
  induction d as [|[n y] d IH]; simpl; [reflexivity|].
  destruct (str_eqb n name) eqn:E.
  - intro H. inversion H. reflexivity.
  - intro H. rewrite (IH H). reflexivity.
Qed.

Lemma lookup_entry_replace name (x y : X) d :
  lookup_entry name d = Some y -> lookup_entry name (replace_entry name x d) = Some x.
Proof.
  induction d as [|[n z] d IH]; simpl; [discriminate|].
  destruct (str_eqb n name) eqn:E; simpl; rewrite E; [reflexivity|].
  exact IH.
Qed.

Lemma lookup_entry_remove_other name other d :
  other <> name -> lookup_entry other (remove_entry name d) = lookup_entry other d.
Proof.
  intro Hne. induction d as [|[n y] d IH]; simpl; [reflexivity|].
  destruct (str_eqb n name) eqn:E.
  - apply str_eqb_eq in E. subst n.
    destruct (str_eqb name other) eqn:E'; [|reflexivity].
    apply str_eqb_eq in E'. congruence.
  - simpl. rewrite IH. reflexivity.
Qed.

Lemma in_remove_entry name (e : str * X) d :
  In e (remove_entry name d) -> In e d.
Proof.
  induction d as [|[n y] d IH]; simpl; [tauto|].
  destruct (str_eqb n name); [intro H; right; exact H|].
  intros [H|H]; [left; exact H | right; apply IH; exact H].
Qed.

Lemma in_remove_entry_other name (e : str * X) d :
  fst e <> name -> In e d -> In e (remove_entry name d).
Proof.
  intro Hne. induction d as [|[n y] d IH]; simpl; [tauto|].
  destruct (str_eqb n name) eqn:E.
  - apply str_eqb_eq in E. subst n.
    intros [H|H]; [subst e; simpl in Hne; congruence | exact H].
  - intros [H|H]; [left; exact H | right; apply IH; exact H].
Qed.

Lemma remove_entry_names name d :
  NoDup (map fst d) -> NoDup (map fst (remove_entry name d))
  /\ ~ In name (map fst (remove_entry name d)).
Proof.
  induction d as [|[n y] d IH]; simpl; intro Hnd.
  - split; [constructor | tauto].
  - inversion Hnd as [|? ? Hn Hd]; subst.
    destruct (str_eqb n name) eqn:E.
    + apply str_eqb_eq in E. subst n. split; assumption.
    + destruct (IH Hd) as [H1 H2]. simpl. split.
      * constructor; [|exact H1]. intro Hin. apply Hn.
        apply in_map_iff in Hin. destruct Hin as (e & He & Hin).
        apply in_map_iff. exists e. split; [exact He|].
        apply (in_remove_entry _ _ _ Hin).
      * intros [H|H]; [|exact (H2 H)].
        subst n. rewrite str_eqb_refl in E. discriminate.
Qed.

Lemma remove_entry_absent name d :
  ~ In name (map fst d) -> remove_entry name d = d.
Proof.
  induction d as [|[n y] d IH]; simpl; intro H; [reflexivity|].
  destruct (str_eqb n name) eqn:E.
  - apply str_eqb_eq in E. subst n. exfalso. apply H. left. reflexivity.
  - rewrite IH; [reflexivity|]. intro Hin. apply H. right. exact Hin.
Qed.

Lemma in_replace_entry_other name (x : X) (e : str * X) d :
  fst e <> name -> (In e (replace_entry name x d) <-> In e d).
Proof.
  intro Hne. induction d as [|[n y] d IH]; simpl; [tauto|].
  destruct (str_eqb n name) eqn:E; simpl.
  - apply str_eqb_eq in E. subst n. split.
    + intros [H|H]; [subst e; simpl in Hne; congruence | right; exact H].
    + intros [H|H]; [subst e; simpl in Hne; congruence | right; exact H].
  - rewrite IH. tauto.
Qed.
End Entries.

(** ** Undo *)

Lemma unlink_in_folder (name c : str) (d : directory) (sz : N)
      (rest : list (str * option str)) (err : option str) (ue : str)
      (re : option str) :
  lookup_entry name d = Some (Dir sz ((c, err) :: rest) ue re) ->
  unlink [name; c] d
  = match err with
    | None => (replace_entry name (Dir sz rest ue re) d, None)
    | Some e => (d, Some e)
    end.
Proof.
  intro H. unfold unlink. rewrite H. simpl. rewrite str_eqb_refl.
  destruct err; reflexivity.
Qed.

(** Unlinking the children of a folder changes only that folder. *)
Lemma unlink_all_spec (name : str) (sz : N) (ue : str) (re : option str)
      (children : list (str * option str)) (d : directory) :
  lookup_entry name d = Some (Dir sz children ue re) ->
  unlink_all name (map fst children) d
  = (replace_entry name (Dir sz (fst (remaining_children children)) ue re) d,
     snd (remaining_children children)).
Proof.
  revert d. induction children as [|[c err] rest IH]; intros d H.
  - simpl. rewrite (replace_entry_same _ _ H). reflexivity.
  - cbn [map fst unlink_all]. rewrite (unlink_in_folder _ _ H).
    destruct err as [e|].
    + cbn [remaining_children fst snd]. rewrite (replace_entry_same _ _ H).
      reflexivity.
    + cbn [remaining_children].
      rewrite (IH (replace_entry name (Dir sz rest ue re) d)).
      * rewrite replace_entry_replace. reflexivity.
      * eapply lookup_entry_replace. exact H.
Qed.

Lemma in_undo_candidates (d : directory) (item : str * node) (ts : datetime)
      (n : nat) :
  In (item, ts, n)
     (flat_map (fun item =>
                  match pb_folder_timestamp item with
                  | Some timestamp =>
                      [(item, timestamp,
                        List.length (glob_suffix ".ld"%string
                                                 (children_of (snd item))))]
                  | None => []
                  end) d)
  <-> In item d /\ pb_folder_timestamp item = Some ts
      /\ n = List.length (glob_suffix ".ld"%string (children_of (snd item))).
Proof.
  rewrite in_flat_map. split.
  - intros (x & Hx & Hin). destruct (pb_folder_timestamp x) as [t|] eqn:E;
      [|destruct Hin].
    destruct Hin as [Hin|[]]. inversion Hin. subst.
    split; [assumption|]. split; [assumption | reflexivity].
  - intros (Hin & Hts & Hn). exists item. split; [exact Hin|].
    rewrite Hts. left. subst n. reflexivity.
Qed.

Lemma get_undo_candidates_head (d : directory) (folder : str * node)
      (ts : datetime) (file_count : nat)
      (rest : list (str * node * datetime * nat)) :
  get_undo_candidates (Some d) = (folder, ts, file_count) :: rest ->
  In folder d /\ pb_folder_timestamp folder = Some ts /\
  file_count = List.length (glob_suffix ".ld"%string (children_of (snd folder))) /\
  forall item ts', In item d -> pb_folder_timestamp item = Some ts' ->
                   datetime_ltb ts ts' = false.
Proof.
  intro H. unfold get_undo_candidates in H.
  apply (sort_by_key_reverse_head datetime_ltb (fun c => snd (fst c))
                                  datetime_ltb_asym datetime_leb_trans) in H.
  destruct H as [Hin Hmax]. apply in_undo_candidates in Hin.
  destruct Hin as (Hin & Hts & Hn).
  split; [exact Hin|]. split; [exact Hts|]. split; [exact Hn|].
  intros item ts' Hitem Hts'.
  apply (Hmax (item, ts', List.length (glob_suffix ".ld"%string
                                                   (children_of (snd item))))).
  apply in_undo_candidates. split; [assumption|]. split; [assumption | reflexivity].
Qed.

Lemma pb_folder_is_dir (e : str * node) (ts : datetime) :
  pb_folder_timestamp e = Some ts ->
  exists sz children ue re, snd e = Dir sz children ue re.
Proof.
  unfold pb_folder_timestamp. destruct (snd e) as [sz err|sz ch ue re]; simpl.
  - discriminate.
  - intros _. exists sz, ch, ue, re. reflexivity.
Qed.

Lemma remaining_children_done (children : list (str * option str)) :
  snd (remaining_children children) = None ->
  fst (remaining_children children) = [].
Proof.
  induction children as [|[c [e|]] rest IH]; simpl; intro H.
  - reflexivity.
  - discriminate.
  - apply IH. exact H.
Qed.

(** C9: [undo_last_scan] looks only at the output directories
    [PBs_{timestamp}] of the telemetry directory and acts on the newest one
    alone.  Its children are unlinked in order and then the directory is
    removed: on success the directory is gone and it is returned with the
    message "Deleted ..."; when an unlink or the final rmdir raises, the
    result is [None] with the message "Error deleting folder: " followed by
    that error, and the directory is still there.  In every case each other
    entry of the telemetry directory, older output directories included, is
    left exactly as it was.  Without any output directory nothing changes. *)
Theorem undo_deletes_only_newest (d : directory) :
  NoDup (map fst d) ->
  undo_last_scan None
  = (None, (None, ("No PB folders found to undo."%string : str))) /\
  match get_undo_candidates (Some d) with
  | [] =>
      undo_last_scan (Some d)
      = (Some d, (None, ("No PB folders found to undo."%string : str)))
  | (folder, ts, file_count) :: _ =>
      In folder d /\ pb_folder_timestamp folder = Some ts /\
      (forall item ts', In item d -> pb_folder_timestamp item = Some ts' ->
                        datetime_ltb ts ts' = false) /\
      exists d' result message,
        undo_last_scan (Some d) = (Some d', (result, message)) /\
        (forall e, fst e <> fst folder -> (In e d' <-> In e d)) /\
        remove_entry (fst folder) d' = remove_entry (fst folder) d /\
        match snd (remaining_children (children_of (snd folder))),
              rmdir_error_of (snd folder) with
        | None, None =>
            result = Some (fst folder) /\
            d' = remove_entry (fst folder) d /\
            ~ In (fst folder) (map fst d') /\
            message = "Deleted "%string ++ fst folder ++ " ("%string
                        ++ str_of_N (N.of_nat file_count) ++ " PB files)"%string
        | Some e, _ | None, Some e =>
            result = None /\
            message = "Error deleting folder: "%string ++ e /\
            exists n, In (fst folder, n) d' /\ is_dir n = true
        end
  end.
Proof.
  intro Hnd. split; [reflexivity|].
  destruct (get_undo_candidates (Some d)) as [|[[folder ts] file_count] rest] eqn:Ec.
  - unfold undo_last_scan. rewrite Ec. reflexivity.
  - destruct (get_undo_candidates_head _ Ec) as (Hin & Hts & Hcount & Hmax).
    split; [exact Hin|]. split; [exact Hts|]. split; [exact Hmax|].
    destruct (pb_folder_is_dir _ Hts) as (sz & children & ue & re & Hdir).
    destruct folder as [name n]. cbn [fst snd] in *. subst n.
    assert (Hlook : lookup_entry name d = Some (Dir sz children ue re))
      by (apply lookup_entry_unique; assumption).
    unfold undo_last_scan. rewrite Ec. cbn [fst snd children_of rmdir_error_of].
    rewrite (@unlink_all_spec name sz ue re children d Hlook).
    set (d1 := replace_entry name
                 (Dir sz (fst (remaining_children children)) ue re) d).
    assert (Hframe1 : forall e, fst e <> name -> (In e d1 <-> In e d))
      by (intros e He; apply in_replace_entry_other; exact He).
    assert (Hrem1 : remove_entry name d1 = remove_entry name d)
      by (apply remove_entry_replace).
    assert (Hlook1 : lookup_entry name d1
                     = Some (Dir sz (fst (remaining_children children)) ue re))
      by (eapply lookup_entry_replace; exact Hlook).
    destruct (snd (remaining_children children)) as [e|] eqn:Erem.
    + exists d1, None, ("Error deleting folder: "%string ++ e).
      split; [reflexivity|]. split; [exact Hframe1|]. split; [exact Hrem1|].
      split; [reflexivity|]. split; [reflexivity|].
      eexists. split; [eapply lookup_entry_in; exact Hlook1 | reflexivity].
    + rewrite (@remaining_children_done children Erem) in Hlook1.
      unfold rmdir. rewrite Hlook1.
      destruct re as [e|].
      * exists d1, None, ("Error deleting folder: "%string ++ e).
        split; [reflexivity|]. split; [exact Hframe1|]. split; [exact Hrem1|].
        split; [reflexivity|]. split; [reflexivity|].
        eexists. split; [eapply lookup_entry_in; exact Hlook1 | reflexivity].
      * eexists (remove_entry name d1), (Some name), _.
        split; [reflexivity|].
        destruct (@remove_entry_names _ name d Hnd) as [_ Hgone].
        rewrite Hrem1. split; [|split].
        -- intros e He. split.
           ++ apply in_remove_entry.
           ++ apply in_remove_entry_other. exact He.
        -- apply remove_entry_absent. exact Hgone.
        -- split; [reflexivity|]. split; [reflexivity|].
           split; [exact Hgone | reflexivity].
Qed.

(** ** Cleanup *)

Lemma unlink_root_entry (name : str) (d : directory) (n : node) :
  lookup_entry name d = Some n ->
  unlink [name] d
  = match unlink_error_of n with
    | None => (remove_entry name d, None)
    | Some e => (d, Some e)
    end.
Proof.
  intro H. unfold unlink. rewrite H.
  destruct n as [sz [e|]|sz ch ue re]; reflexivity.
Qed.

(** The candidates of [get_cleanup_candidates] are its listed entries. *)
Lemma cleanup_candidate_files (d : directory) :
  files (get_cleanup_candidates (Some d))
  = map (fun e => [fst e]) (cleanup_entries d).
Proof.
  unfold get_cleanup_candidates, cleanup_entries. cbn [files flat_map].
  rewrite app_nil_r, !map_app.
  assert (H : forall l : list (str * node),
             map fst (flat_map (fun e : str * node =>
                                  if list_eq_dec (list_eq_dec ascii_dec)
                                                 (parent [fst e]) []
                                  then [([fst e], size_of (snd e))] else []) l)
             = map (fun e => [fst e]) l).
  { induction l as [|e l IH]; [reflexivity|].
    cbn [flat_map]. rewrite map_app, IH.
    change (parent [fst e]) with (@nil str).
    destruct (list_eq_dec (list_eq_dec ascii_dec) (@nil str) []); [|congruence].
    reflexivity. }
  rewrite !H. reflexivity.
Qed.

Lemma ends_with_ld_not_ldx (name : str) :
  ends_with ".ld"%string name = true -> ends_with ".ldx"%string name = false.
Proof.
  unfold ends_with. cbn [rev str_of_string list_ascii_of_string app].
  destruct (rev name) as [|c1 r]; cbn [prefixb]; [discriminate|].
  destruct (Ascii.eqb "d" c1) eqn:E1; [|discriminate].
  apply Ascii.eqb_eq in E1. subst c1. reflexivity.
Qed.

Lemma glob_suffix_nodup (suffix : str) (d : directory) :
  NoDup (map fst d) -> NoDup (map fst (glob_suffix suffix d)).
Proof.
  unfold glob_suffix. induction d as [|e d IH]; simpl; intro H; [constructor|].
  inversion H as [|? ? He Hd]; subst.
  destruct (ends_with suffix (fst e)); [|apply IH; exact Hd].
  simpl. constructor; [|apply IH; exact Hd].
  intro Hin. apply He. apply in_map_iff in Hin. destruct Hin as (x & Hx & Hin).
  apply filter_In in Hin. apply in_map_iff. exists x. split; [exact Hx | apply Hin].
Qed.

Lemma cleanup_entries_spec (d : directory) (e : str * node) :
  In e (cleanup_entries d)
  <-> In e d /\ (ends_with ".ld"%string (fst e) = true
                 \/ ends_with ".ldx"%string (fst e) = true).
Proof.
  unfold cleanup_entries, glob_suffix. rewrite in_app_iff, !filter_In. tauto.
Qed.

Lemma cleanup_entries_nodup (d : directory) :
  NoDup (map fst d) -> NoDup (map fst (cleanup_entries d)).
Proof.
  intro H. unfold cleanup_entries. rewrite map_app.
  apply NoDup_app.
  - apply glob_suffix_nodup. exact H.
  - apply glob_suffix_nodup. exact H.
  - intros n H1 H2. apply in_map_iff in H1. destruct H1 as (e1 & E1 & H1).
    apply in_map_iff in H2. destruct H2 as (e2 & E2 & H2).
    apply filter_In in H1. apply filter_In in H2.
    destruct H1 as [_ H1]. destruct H2 as [_ H2].
    rewrite E1 in H1. rewrite E2 in H2.
    rewrite (ends_with_ld_not_ldx _ H1) in H2. discriminate.
Qed.

(** The loop on a list of distinct entries that are all present. *)
Lemma cleanup_loop_spec (cands : list (str * node)) (d : directory)
      (success_count error_count : nat) (errors : list str) :
  NoDup (map fst cands) ->
  (forall e, In e cands -> lookup_entry (fst e) d = Some (snd e)) ->
  cleanup_loop (map (fun e => [fst e]) cands) d success_count error_count errors
  = (fold_left (fun d e => if deletable e then remove_entry (fst e) d else d)
               cands d,
     ((success_count + List.length (filter deletable cands))%nat,
      (error_count + List.length (filter (fun e => negb (deletable e)) cands))%nat,
      errors ++ flat_map cleanup_message cands)).
Proof.
  revert d success_count error_count errors.
  induction cands as [|e cands IH]; intros d s f errs Hnd Hlook.
  - simpl. rewrite !Nat.add_0_r, app_nil_r. reflexivity.
  - cbn [map cleanup_loop].
    rewrite (unlink_root_entry _ _ (Hlook e (or_introl eq_refl))).
    inversion Hnd as [|? ? He Hc]; subst.
    destruct (unlink_error_of (snd e)) as [err|] eqn:Ee.
    + assert (Hd : deletable e = false) by (unfold deletable; rewrite Ee; reflexivity).
      assert (Hm : cleanup_message e = [fst e ++ ": "%string ++ err])
        by (unfold cleanup_message; rewrite Ee; reflexivity).
      cbn [fold_left filter flat_map]. rewrite Hd, Hm. cbn [negb].
      rewrite IH; [|exact Hc|].
      * cbn [List.length last app]. rewrite <- app_assoc. cbn [app].
        replace (S f + List.length (filter (fun e0 => negb (deletable e0)) cands))%nat
          with (f + S (List.length (filter (fun e0 => negb (deletable e0)) cands)))%nat
          by lia.
        reflexivity.
      * intros x Hx. apply Hlook. right. exact Hx.
    + assert (Hd : deletable e = true) by (unfold deletable; rewrite Ee; reflexivity).
      assert (Hm : cleanup_message e = [])
        by (unfold cleanup_message; rewrite Ee; reflexivity).
      cbn [fold_left filter flat_map]. rewrite Hd, Hm. cbn [negb].
      rewrite IH; [|exact Hc|].
      * cbn [List.length app].
        replace (S s + List.length (filter deletable cands))%nat
          with (s + S (List.length (filter deletable cands)))%nat by lia.
        reflexivity.
      * intros x Hx. rewrite lookup_entry_remove_other.
        -- apply Hlook. right. exact Hx.
        -- intro Heq. apply He. rewrite <- Heq. apply in_map. exact Hx.
Qed.

(** Two entries of a directory with the same name are the same entry. *)
Lemma entry_unique (d : directory) (x y : str * node) :
  NoDup (map fst d) -> In x d -> In y d -> fst x = fst y -> x = y.
Proof.
  intros Hnd Hx Hy Hfst.
  assert (H1 : lookup_entry (fst x) d = Some (snd x))
    by (apply lookup_entry_unique; [exact Hnd | rewrite <- surjective_pairing; exact Hx]).
  assert (H2 : lookup_entry (fst y) d = Some (snd y))
    by (apply lookup_entry_unique; [exact Hnd | rewrite <- surjective_pairing; exact Hy]).
  rewrite Hfst in H1. rewrite H1 in H2. inversion H2 as [H3].
  destruct x, y. simpl in *. subst. reflexivity.
Qed.


Lemma filter_partition_length {X : Type} (f : X -> bool) (l : list X) :
  (List.length (filter f l) + List.length (filter (fun x => negb (f x)) l)
   = List.length l)%nat.
Proof.
  induction l as [|x l IH]; simpl; [reflexivity|].
  destruct (f x); simpl; lia.
Qed.


Lemma cleanup_old_files_spec (d : directory) :
  NoDup (map fst d) ->
  cleanup_old_files (Some d)
  = (Some (fold_left (fun d e => if deletable e then remove_entry (fst e) d else d)
                     (cleanup_entries d) d),
     (List.length (filter deletable (cleanup_entries d)),
      List.length (filter (fun e => negb (deletable e)) (cleanup_entries d)),
      flat_map cleanup_message (cleanup_entries d))).
Proof.
  intro Hnd. unfold cleanup_old_files. rewrite cleanup_candidate_files.
  destruct (cleanup_entries d) as [|e l] eqn:E; [reflexivity|].
  rewrite <- E. cbn [map].
  replace (map (fun e0 : str * node => [fst e0]) (cleanup_entries d))
    with ([fst e] :: map (fun e0 : str * node => [fst e0]) l)
    by (rewrite E; reflexivity).
  change ([fst e] :: map (fun e0 : str * node => [fst e0]) l)
    with (map (fun e0 : str * node => [fst e0]) (e :: l)).
  rewrite <- E.
  rewrite cleanup_loop_spec.
  - reflexivity.
  - apply cleanup_entries_nodup. exact Hnd.
  - intros x Hx. apply cleanup_entries_spec in Hx. destruct Hx as [Hx _].
    apply lookup_entry_unique; [exact Hnd|].
    rewrite <- surjective_pairing. exact Hx.
Qed.



(** ** The example directory *)

Lemma example_root_names : NoDup (map fst example_root).
Proof.
  unfold example_root. cbn [map fst].
  repeat (constructor; [cbn [In]; intuition discriminate|]). constructor.
Qed.

(** The scenario of the specification: file [a.ld] supplies the dry rank 1
    (100.123 s) and the wet rank 2 (120.456 s) of its group; it is copied
    once, under the name of the dry slot, and the wet slot is listed as an
    additional PB of the same record. *)
Lemma scenario_shared_source :
  map (fun s => (slot_file s, slot_condition s, slot_rank s)) example_files_to_pb
  = [(("a.ld"%string : str), dry, 1%Z); (("c.ld"%string : str), dry, 2%Z);
     (("b.ld"%string : str), wet, 1%Z); (("a.ld"%string : str), wet, 2%Z)]
  /\ exists st,
       copy_pb_files (fun _ => true) (fun _ => None) example_joinpath
                     example_pbs_dir example_files_to_pb
                     {| copied_files := []; copy_log := [] |} = (st, None)
       /\ map fst (copied_files st)
          = [("a.ld"%string : str); ("c.ld"%string : str); ("b.ld"%string : str)]
       /\ option_map (fun r => (primary_condition r, primary_rank r,
                                primary_filename r,
                                map (fun a => (add_condition a, add_rank a))
                                    (additional_pbs r)))
                     (dict_get str_eqb "a.ld"%string (copied_files st))
          = Some (dry, 1%Z,
                  ("Spa_bmw_m4_dry_1st_1m40.123s_2024-05-12.ld"%string : str),
                  [(wet, 2%Z)]).
Proof.
  split; [vm_compute; reflexivity|].
  eexists. split; [vm_compute; reflexivity|].
  split; vm_compute; reflexivity.
Qed.

Lemma curation_top_n_witness :
  match dict_get key2_eqb (("Spa"%string : str), ("bmw_m4"%string : str))
                 (track_car_data (process_files example_read_source
                                                example_ld_files)) with
  | Some b =>
      (List.length (fst (curate_condition 3 [] "Spa"%string "bmw_m4"%string dry
                                          (bucket_get dry b))) <= 3)%nat
  | None => False
  end.
Proof.
  destruct (dict_get key2_eqb (("Spa"%string : str), ("bmw_m4"%string : str))
                     (track_car_data (process_files example_read_source
                                                    example_ld_files)))
    as [b|] eqn:E.
  - apply (dict_get_in key2_eqb key2_eqb_eq) in E.
    destruct (curation_top_n example_read_source 3 [] example_ld_files)
      as (_ & _ & H).
    destruct (H _ _ b dry E) as [Hle _]. exact Hle.
  - vm_compute in E. discriminate.
Defined.

Lemma each_source_copied_once_witness :
  exists st,
    copy_pb_files (fun _ => true) (fun _ => None) example_joinpath
                  example_pbs_dir example_files_to_pb
                  {| copied_files := []; copy_log := [] |} = (st, None)
    /\ (List.length (copied_files st) <= List.length example_files_to_pb)%nat
    /\ dict_get str_eqb "a.ld"%string (copied_files st)
       = record_of_group (fun _ => true) example_joinpath example_pbs_dir
                         (slots_of_file "a.ld"%string example_files_to_pb).
Proof.
  destruct (each_source_copied_once (fun _ => true) (fun _ => None)
                                    example_joinpath example_pbs_dir
                                    example_files_to_pb)
    as (_ & Htotal & Hdone).
  destruct (Htotal (fun _ => eq_refl)) as [st Hst].
  destruct (Hdone st Hst) as (_ & _ & Hget & _ & Hle & _).
  exists st. split; [exact Hst|]. split; [exact Hle | apply Hget].
Defined.


Lemma undo_deletes_only_newest_witness :
  exists d',
    undo_last_scan (Some example_root)
    = (Some d',
       (Some ("PBs_2024-01-01_120000"%string : str),
        ("Deleted PBs_2024-01-01_120000 (1 PB files)"%string : str)))
    /\ forall e, fst e <> ("PBs_2024-01-01_120000"%string : str) ->
                 (In e d' <-> In e example_root).
Proof.
  destruct (@undo_deletes_only_newest example_root example_root_names) as [_ H].
  remember (get_undo_candidates (Some example_root)) as c eqn:Ec.
  vm_compute in Ec. subst c.
  destruct H as (_ & _ & _ & d' & r & m & Hrun & Hframe & _ & Hres).
  cbv in Hres. destruct Hres as (Hr & Hd & _ & Hm).
  exists d'. split; [|exact Hframe].
  rewrite Hrun, Hr, Hm. reflexivity.
Defined.



(* ================================================================== *)
(** * Part III: further properties of the code                           *)
(* ================================================================== *)

(** ** The classifier in exact arithmetic *)







(** ** [classify_laps] *)

Lemma laps_of_in (c : condition) (l : list Q) (d w t x : Q) :
  In x (laps_of c l d w t) <-> In x l /\ classify_lap x d w t = Some c.
Proof.
  unfold laps_of. rewrite filter_In.
  destruct (classify_lap x d w t) as [c'|].
  - split; intros [H1 H2]; split; try assumption.
    + apply condition_eqb_eq in H2. congruence.
    + apply condition_eqb_eq. congruence.
  - split; intros [H1 H2]; discriminate.
Qed.

Lemma py_min_none (l : list Q) : py_min l = None <-> l = [].
Proof. destruct l; simpl; split; intro H; congruence. Qed.

(** X3: what [classify_laps] returns.  The best dry (wet) lap is a lap of
    the list that [classify_lap] calls Dry (Wet) and no Dry (Wet) lap of the
    list is shorter; it is [None] exactly when the list has no such lap.
    The gap laps are the laps classified Gap, in the order of the list, and
    a lap that [classify_lap] rejects appears in none of the three. *)
Theorem classify_laps_best_and_gaps
        (lap_times : list Q) (dry_benchmark wet_benchmark tolerance : Q) :
  let class x := classify_lap x dry_benchmark wet_benchmark tolerance in
  let '(best_dry, best_wet, gap_laps) :=
    classify_laps lap_times dry_benchmark wet_benchmark tolerance in
  (forall best, best_dry = Some best ->
     In best lap_times /\ class best = Some dry /\
     forall x, In x lap_times -> class x = Some dry -> best <= x) /\
  (best_dry = None <-> forall x, In x lap_times -> class x <> Some dry) /\
  (forall best, best_wet = Some best ->
     In best lap_times /\ class best = Some wet /\
     forall x, In x lap_times -> class x = Some wet -> best <= x) /\
  (best_wet = None <-> forall x, In x lap_times -> class x <> Some wet) /\
  gap_laps = filter (fun x => match class x with
                              | Some gap => true
                              | _ => false
                              end) lap_times /\
  (forall x, class x = None ->
     best_dry <> Some x /\ best_wet <> Some x /\ ~ In x gap_laps).
Proof.
  cbv zeta. unfold classify_laps.
  assert (Hbest : forall c best,
             py_min (laps_of c lap_times dry_benchmark wet_benchmark tolerance)
             = Some best ->
             In best lap_times
             /\ classify_lap best dry_benchmark wet_benchmark tolerance = Some c
             /\ forall x, In x lap_times ->
                          classify_lap x dry_benchmark wet_benchmark tolerance
                          = Some c -> best <= x).
  { intros c best H. apply py_min_spec in H. destruct H as [Hin Hle].
    apply laps_of_in in Hin. destruct Hin as [Hin Hc].
    repeat split; try assumption.
    intros x Hx Hcx. apply Hle. apply laps_of_in. split; assumption. }
  assert (Hnone : forall c,
             py_min (laps_of c lap_times dry_benchmark wet_benchmark tolerance)
             = None
             <-> forall x, In x lap_times ->
                           classify_lap x dry_benchmark wet_benchmark tolerance
                           <> Some c).
  { intro c. rewrite py_min_none. split.
    - intros H x Hx Hc.
      assert (Hin : In x (laps_of c lap_times dry_benchmark wet_benchmark tolerance))
        by (apply laps_of_in; split; assumption).
      rewrite H in Hin. exact Hin.
    - intro H.
      destruct (laps_of c lap_times dry_benchmark wet_benchmark tolerance)
        as [|x l'] eqn:E; [reflexivity|].
      assert (Hin : In x (laps_of c lap_times dry_benchmark wet_benchmark tolerance))
        by (rewrite E; left; reflexivity).
      apply laps_of_in in Hin. destruct Hin as [Hin Hc].
      exfalso. exact (H x Hin Hc). }
  split; [apply Hbest|]. split; [apply Hnone|].
  split; [apply Hbest|]. split; [apply Hnone|].
  split.
  - unfold laps_of. apply filter_ext. intro x.
    destruct (classify_lap x dry_benchmark wet_benchmark tolerance) as [[ | | ]|];
      reflexivity.
  - intros x Hx. repeat split.
    + intro H. apply Hbest in H. destruct H as (_ & H & _). congruence.
    + intro H. apply Hbest in H. destruct H as (_ & H & _). congruence.
    + intro H. apply laps_of_in in H. destruct H as [_ H]. congruence.
Qed.

Lemma laps_of_perm (c : condition) (l l' : list Q) (d w t : Q) :
  Permutation l l' -> Permutation (laps_of c l d w t) (laps_of c l' d w t).
Proof.
  intro H. unfold laps_of. induction H; simpl.
  - constructor.
  - destruct (match classify_lap x d w t with
              | Some c' => condition_eqb c' c | None => false end);
      [constructor|]; assumption.
  - destruct (match classify_lap x d w t with
              | Some c' => condition_eqb c' c | None => false end);
      destruct (match classify_lap y d w t with
                | Some c' => condition_eqb c' c | None => false end);
      try constructor; apply Permutation_refl.
  - eapply Permutation_trans; eassumption.
Qed.

Lemma py_min_perm (l l' : list Q) :
  Permutation l l' -> same_time (py_min l) (py_min l').
Proof.
  intro H.
  destruct (py_min l) as [m|] eqn:E; destruct (py_min l') as [m'|] eqn:E'; simpl.
  - apply py_min_spec in E. apply py_min_spec in E'.
    destruct E as [Hin Hle]. destruct E' as [Hin' Hle'].
    apply Qle_antisym.
    + apply Hle. eapply Permutation_in; [apply Permutation_sym; exact H|exact Hin'].
    + apply Hle'. eapply Permutation_in; [exact H|exact Hin].
  - apply py_min_none in E'. subst l'. apply Permutation_sym in H.
    apply Permutation_nil in H. subst l. discriminate.
  - apply py_min_none in E. subst l. apply Permutation_nil in H.
    subst l'. discriminate.
  - exact I.
Qed.

(** X4: the best laps do not depend on the order in which the companion
    file lists the laps: for two lists with the same laps, [classify_laps]
    gives best dry and best wet laps of the same value (or none in both),
    and the same gap laps up to their order. *)
Theorem classify_laps_order_independent
        (lap_times lap_times' : list Q)
        (dry_benchmark wet_benchmark tolerance : Q) :
  Permutation lap_times lap_times' ->
  let '(best_dry, best_wet, gap_laps) :=
    classify_laps lap_times dry_benchmark wet_benchmark tolerance in
  let '(best_dry', best_wet', gap_laps') :=
    classify_laps lap_times' dry_benchmark wet_benchmark tolerance in
  same_time best_dry best_dry' /\ same_time best_wet best_wet'
  /\ Permutation gap_laps gap_laps'.
Proof.
  intro H. unfold classify_laps.
  repeat split.
  - apply py_min_perm, laps_of_perm, H.
  - apply py_min_perm, laps_of_perm, H.
  - apply laps_of_perm, H.
Qed.

Lemma classify_laps_order_independent_witness :
  same_time (fst (fst (classify_laps [101; 99; 120; 139] 100 140 0.05)))
            (fst (fst (classify_laps [139; 120; 99; 101] 100 140 0.05))).
Proof.
  assert (P : Permutation [101; 99; 120; 139] [139; 120; 99; 101]).
  { change [101; 99; 120; 139] with (rev [139; 120; 99; 101]).
    apply Permutation_sym, Permutation_rev. }
  pose proof (@classify_laps_order_independent
                [101; 99; 120; 139] [139; 120; 99; 101] 100 140 0.05 P) as H.
  destruct (classify_laps [101; 99; 120; 139] 100 140 0.05) as [[a b] c].
  destruct (classify_laps [139; 120; 99; 101] 100 140 0.05) as [[a' b'] c'].
  exact (proj1 H).
Defined.

(** ** Tolerances that keep the ranges apart *)






(** ** From markers to lap times *)









(** X8: when the scanner finds no lap times.  [get_lap_times_from_ldx]
    returns the empty list exactly when the companion file is missing,
    cannot be read, holds no marker, or holds a single marker at time zero;
    and the loop of [scan_telemetry] counts a telemetry file as skipped,
    leaving the collected laps alone, exactly in those cases. *)
Theorem companion_without_laps_is_skipped
        (read_source : str -> option source_info) (st : scan_state)
        (ld_file : str) (info : source_info) (ldx : ldx_file) :
  read_source ld_file = Some info ->
  si_lap_times info = get_lap_times_from_ldx ldx ->
  let no_laps :=
    match ldx with
    | LdxMissing | LdxError => True
    | LdxMarkers times => times = [] \/ exists t, times = [t] /\ t == 0
    end in
  (get_lap_times_from_ldx ldx = [] <-> no_laps) /\
  (process_file read_source st ld_file
   = {| track_car_data := track_car_data st;
        skipped := S (skipped st);
        processed := processed st |} <-> no_laps).
Proof.
  intros Hr Hl. cbv zeta.
  assert (Hempty : get_lap_times_from_ldx ldx = [] <->
                   match ldx with
                   | LdxMissing | LdxError => True
                   | LdxMarkers times =>
                       times = [] \/ exists t, times = [t] /\ t == 0
                   end).
  { destruct ldx as [| |times]; simpl; try tauto.
    destruct times as [|t rest]; simpl; [tauto|].
    destruct (Qeq_bool (t * (1 # 1000000)) 0) eqn:E0.
    - apply Qeq_bool_iff in E0.
      destruct rest as [|u rest']; simpl.
      + split; [|reflexivity]. intros _. right. exists t.
        split; [reflexivity|lra].
      + split; [discriminate|].
        intros [H|[t' [H _]]]; discriminate.
    - apply Qeq_bool_neq in E0.
      split; [discriminate|].
      intros [H|[t' [H H0]]]; [discriminate|].
      injection H as Ht. subst t'. exfalso. apply E0. rewrite H0. lra. }
  split; [exact Hempty|].
  rewrite <- Hempty, <- Hl.
  unfold process_file. rewrite Hr.
  destruct (si_lap_times info) as [|x l] eqn:El.
  - split; reflexivity.
  - split; [|discriminate].
    destruct (classify_laps (x :: l) (si_dry_benchmark info)
                            (si_wet_benchmark info) (si_tolerance info))
      as [[bd bw] gl].
    intro H. apply (f_equal processed) in H. cbn [processed] in H.
    exfalso. revert H. apply Nat.neq_succ_diag_l.
Qed.

Lemma companion_without_laps_is_skipped_witness :
  process_file
    (fun _ => Some (example_info (get_lap_times_from_ldx (LdxMarkers [0]))))
    {| track_car_data := []; skipped := 0; processed := 0 |}
    ("a.ld"%string : str)
  = {| track_car_data := []; skipped := 1; processed := 0 |}.
Proof.
  apply (proj2 (@companion_without_laps_is_skipped
                  (fun _ => Some (example_info
                                    (get_lap_times_from_ldx (LdxMarkers [0]))))
                  {| track_car_data := []; skipped := 0; processed := 0 |}
                  ("a.ld"%string : str)
                  (example_info (get_lap_times_from_ldx (LdxMarkers [0])))
                  (LdxMarkers [0]) eq_refl eq_refl)).
  right. exists 0. split; reflexivity.
Defined.


(** ** Lap times on screen *)

Lemma below_100 (P : N -> bool) :
  forallb P (map N.of_nat (seq 0 100)) = true ->
  forall k, (k < 100)%N -> P k = true.
Proof.
  intros H k Hk. rewrite forallb_forall in H. apply H.
  rewrite <- (N2Nat.id k). apply in_map. apply in_seq. lia.
Qed.

(** A number below 100, filled to two digits. *)
Lemma str_of_N_two_digits (k : N) :
  (k < 100)%N ->
  (if (k <? 10)%N then "0"%char :: str_of_N k else str_of_N k)
  = [digit_char (k / 10); digit_char (k mod 10)].
Proof.
  intro Hk. apply str_eqb_eq.
  revert k Hk.
  apply (below_100
           (fun k => str_eqb (if (k <? 10)%N then "0"%char :: str_of_N k
                              else str_of_N k)
                             [digit_char (k / 10); digit_char (k mod 10)])).
  vm_compute. reflexivity.
Qed.

Lemma is_digit_not_minus (c : ascii) :
  is_digit c = true -> Ascii.eqb c "-"%char = false.
Proof.
  intro H. destruct (Ascii.eqb c "-"%char) eqn:E; [|reflexivity].
  apply Ascii.eqb_eq in E. subst c. discriminate.
Qed.

Lemma is_digit_not_dot (c : ascii) :
  is_digit c = true -> c <> "."%char.
Proof. intros H E. subst c. discriminate. Qed.

(** The seconds field of a displayed lap time. *)
Lemma format_06_3f_seconds (x : Q) :
  0 <= x -> x < 60 ->
  let n := py_round (x * 1000) in
  let k := Z.to_N (n / 1000) in
  let j := Z.to_N (n mod 1000) in
  (0 <= n)%Z /\ (k <= 60)%N /\ (j < 1000)%N /\
  format_06_3f x
  = digit_char (k / 10) :: digit_char (k mod 10) :: "."%char :: digits3 j.
Proof.
  intros H0 H60 n k j.
  assert (Hn : (0 <= n <= 60000)%Z).
  { apply py_round_between.
    - change (inject_Z 0) with 0. lra.
    - change (inject_Z 60000) with 60000. lra. }
  assert (Hdiv : (0 <= n / 1000 <= 60)%Z).
  { split; [apply Z.div_pos; lia|].
    apply Z.div_le_upper_bound; lia. }
  assert (Hmod : (0 <= n mod 1000 < 1000)%Z) by (apply Z.mod_pos_bound; lia).
  assert (Hk : (k <= 60)%N) by (unfold k; lia).
  assert (Hj : (j < 1000)%N) by (unfold j; lia).
  split; [lia|]. split; [exact Hk|]. split; [exact Hj|].
  unfold format_06_3f. rewrite (format_3f_nonneg H0). fold n. fold k. fold j.
  assert (Hk100 : (k < 100)%N) by lia.
  pose proof (str_of_N_two_digits Hk100) as H2.
  assert (Hd1 : is_digit (digit_char (k / 10)) = true).
  { apply is_digit_digit_char. apply N.Div0.div_lt_upper_bound. lia. }
  assert (Hd2 : is_digit (digit_char (k mod 10)) = true).
  { apply is_digit_digit_char. apply N.mod_lt. lia. }
  destruct (k <? 10)%N.
  - injection H2 as _ H2. rewrite H2.
    cbn [app]. rewrite (@is_digit_not_minus _ Hd2).
    unfold digits3. cbn [List.length Nat.sub repeat app].
    assert (E0 : (k / 10 = 0)%N).
    { destruct (N.eq_dec (k / 10) 0) as [E|E]; [exact E|].
      exfalso.
      assert (Hs : str_of_N k = [digit_char (k mod 10)]) by exact H2.
      pose proof (int_of_digits_str_of_N k) as Hi. rewrite Hs in Hi.
      unfold int_of_digits in Hi. cbn [fold_left] in Hi.
      rewrite digit_val_digit_char in Hi by (apply N.mod_lt; lia).
      pose proof (N.div_mod k 10) as Hdm. lia. }
    rewrite E0. reflexivity.
  - rewrite H2. cbn [app]. rewrite (@is_digit_not_minus _ Hd1).
    unfold digits3. cbn [List.length Nat.sub repeat app]. reflexivity.
Qed.

(** [float] on two digits, a dot and three digits. *)
Lemma float_of_decimal_seconds (k j : N) :
  (k < 100)%N -> (j < 1000)%N ->
  float_of_decimal
    (digit_char (k / 10) :: digit_char (k mod 10) :: "."%char :: digits3 j)
  = Some (inject_Z (Z.of_N k) + inject_Z (Z.of_N j) / 1000).
Proof.
  intros Hk Hj.
  assert (Hd1 : (k / 10 < 10)%N) by (apply N.Div0.div_lt_upper_bound; lia).
  assert (Hd2 : (k mod 10 < 10)%N) by (apply N.mod_lt; lia).
  change (digit_char (k / 10) :: digit_char (k mod 10) :: "."%char :: digits3 j)
    with ([digit_char (k / 10); digit_char (k mod 10)]
            ++ "."%char :: digits3 j).
  unfold float_of_decimal.
  rewrite span_app;
    [| cbn [forallb]; rewrite !is_digit_digit_char by assumption; reflexivity
     | reflexivity].
  rewrite Ascii.eqb_refl, (digits3_digits Hj), (int_of_digits3 Hj).
  unfold int_of_digits at 1. cbn [fold_left].
  rewrite !digit_val_digit_char by assumption.
  replace (10 * (10 * 0 + k / 10) + k mod 10)%N with k
    by (pose proof (N.div_mod k 10); lia).
  unfold digits3. cbn [List.length Nat.add Nat.eqb negb andb].
  reflexivity.
Qed.

(** X9: what a displayed lap time says.  For every duration,
    [format_lap_time_display] prints the whole minutes, a colon, and a
    seconds field of exactly two digits, a dot and three digits; read back
    as a number that field lies between 0 and 60, and minutes * 60 plus
    the field differs from the duration by at most half a millisecond.
    [format_lap_time] of the editor prints the same text. *)
Theorem display_accurate_to_half_millisecond (seconds : Q) :
  exists (s1 s2 m1 m2 m3 : ascii) (v : Q),
    format_lap_time_display seconds
    = str_of_Z (floordiv60 seconds)
        ++ ":"%char :: [s1; s2; "."%char; m1; m2; m3] /\
    forallb is_digit [s1; s2; m1; m2; m3] = true /\
    float_of_decimal [s1; s2; "."%char; m1; m2; m3] = Some v /\
    0 <= v /\ v <= 60 /\
    Qabs (inject_Z (floordiv60 seconds) * 60 + v - seconds) <= 1 # 2000 /\
    Editor.format_lap_time (Some seconds) = format_lap_time_display seconds.
Proof.
  destruct (mod60_range seconds) as [Hs0 Hs1].
  destruct (format_06_3f_seconds Hs0 Hs1) as (Hn & Hk & Hj & Hf).
  set (n := py_round (mod60 seconds * 1000)) in *.
  set (k := Z.to_N (n / 1000)) in *.
  set (j := Z.to_N (n mod 1000)) in *.
  assert (Hk100 : (k < 100)%N) by lia.
  pose proof (float_of_decimal_seconds Hk100 Hj) as Hv.
  pose proof (digits3_digits Hj) as Hd3.
  unfold digits3 in Hf, Hv, Hd3.
  exists (digit_char (k / 10)), (digit_char (k mod 10)),
         (digit_char (j / 100)), (digit_char ((j / 10) mod 10)),
         (digit_char (j mod 10)),
         (inject_Z (Z.of_N k) + inject_Z (Z.of_N j) / 1000).
  assert (Hdiv : (0 <= n / 1000)%Z) by (apply Z.div_pos; lia).
  assert (Hmod : (0 <= n mod 1000 < 1000)%Z) by (apply Z.mod_pos_bound; lia).
  assert (Ek : Z.of_N k = (n / 1000)%Z) by (unfold k; lia).
  assert (Ej : Z.of_N j = (n mod 1000)%Z) by (unfold j; lia).
  assert (En : inject_Z n == 1000 * inject_Z (n / 1000) + inject_Z (n mod 1000)).
  { rewrite (Z.div_mod n 1000) at 1 by lia.
    rewrite inject_Z_plus, inject_Z_mult. reflexivity. }
  assert (Hjq : inject_Z (n mod 1000) / 1000 * 1000 == inject_Z (n mod 1000))
    by field.
  assert (Hj0 : 0 <= inject_Z (n mod 1000)).
  { change 0 with (inject_Z 0). rewrite <- Zle_Qle. lia. }
  assert (Hk0 : 0 <= inject_Z (n / 1000)).
  { change 0 with (inject_Z 0). rewrite <- Zle_Qle. lia. }
  assert (Hn6 : (0 <= n <= 60000)%Z).
  { apply py_round_between.
    - change (inject_Z 0) with 0. lra.
    - change (inject_Z 60000) with 60000. lra. }
  assert (Hn60 : inject_Z n <= 60000).
  { change 60000 with (inject_Z 60000). rewrite <- Zle_Qle. lia. }
  split; [unfold format_lap_time_display; rewrite Hf; reflexivity|].
  split.
  { cbn [forallb] in *.
    rewrite !is_digit_digit_char
      by (first [apply N.Div0.div_lt_upper_bound; lia | apply N.mod_lt; lia]).
    cbn [andb]. first [reflexivity | exact Hd3]. }
  split; [exact Hv|].
  rewrite Ek, Ej.
  split; [lra|]. split; [lra|]. split.
  - pose proof (py_round_close (mod60 seconds * 1000)) as Hc. fold n in Hc.
    apply Qabs_Qle_condition in Hc. apply Qabs_Qle_condition.
    assert (Et : seconds == 60 * inject_Z (floordiv60 seconds) + mod60 seconds)
      by (unfold mod60; ring).
    split; lra.
  - reflexivity.
Qed.

(** ** Names of telemetry files *)

Lemma split_parts_no_sep (sep : ascii) (s part : str) :
  In part (split sep s) -> ~ In sep part.
Proof.
  revert part. induction s as [|c s IH]; intros part Hin.
  - simpl in Hin. destruct Hin as [H|[]]. subst part. intros [].
  - cbn [split] in Hin. destruct (Ascii.eqb c sep) eqn:E.
    + destruct Hin as [H|H]; [subst part; intros []|apply IH; exact H].
    + destruct (split sep s) as [|p ps] eqn:Es.
      * destruct Hin as [H|[]]. subst part. intros [H|[]].
        subst c. rewrite Ascii.eqb_refl in E. discriminate.
      * destruct Hin as [H|H].
        -- subst part. intros [H|H].
           ++ subst c. rewrite Ascii.eqb_refl in E. discriminate.
           ++ revert H. apply IH. left. reflexivity.
        -- apply IH. right. exact H.
Qed.

Lemma match_date_some (s d : str) :
  match_date s = Some d ->
  is_date_form d = true /\ (exists b, s = d ++ b) /\ nth_error s 4 = Some "."%char.
Proof.
  unfold match_date.
  destruct s as [|y1 [|y2 [|y3 [|y4 [|p1 [|m1 [|m2 [|p2 [|d1 [|d2 b]]]]]]]]]];
    try discriminate.
  destruct (is_date_form [y1; y2; y3; y4; p1; m1; m2; p2; d1; d2]) eqn:E;
    [|discriminate].
  intro H. injection H as H. subst d.
  split; [exact E|]. split; [exists b; reflexivity|].
  cbn [nth_error]. f_equal.
  unfold is_date_form in E.
  apply andb_true_iff in E. destruct E as [E _].
  apply andb_true_iff in E. destruct E as [_ E].
  apply Ascii.eqb_eq in E. exact E.
Qed.

Lemma search_date_some (s d : str) :
  search_date s = Some d ->
  is_date_form d = true /\ exists a b, s = a ++ d ++ b.
Proof.
  induction s as [|c s IH]; intro H.
  - simpl in H. discriminate.
  - cbn [search_date] in H.
    destruct (match_date (c :: s)) as [d'|] eqn:E.
    + injection H as H. subst d'.
      apply match_date_some in E. destruct E as (Hf & [b Hb] & _).
      split; [exact Hf|]. exists [], b. exact Hb.
    + apply IH in H. destruct H as (Hf & a & b & Hs).
      split; [exact Hf|]. exists (c :: a), b. rewrite Hs. reflexivity.
Qed.

Lemma date_form_shape (d : str) :
  is_date_form d = true ->
  exists y1 y2 y3 y4 m1 m2 d1 d2,
    d = [y1; y2; y3; y4; "."%char; m1; m2; "."%char; d1; d2]
    /\ forallb is_digit [y1; y2; y3; y4; m1; m2; d1; d2] = true.
Proof.
  unfold is_date_form.
  destruct d as [|y1 [|y2 [|y3 [|y4 [|p1 [|m1 [|m2 [|p2 [|d1 [|d2 [|x r]]]]]]]]]]];
    try discriminate.
  intro E.
  apply andb_true_iff in E. destruct E as [E E2].
  apply andb_true_iff in E. destruct E as [E E1].
  apply Ascii.eqb_eq in E1. apply Ascii.eqb_eq in E2. subst p1 p2.
  exists y1, y2, y3, y4, m1, m2, d1, d2. split; [reflexivity|exact E].
Qed.

Lemma match_date_here (d b : str) :
  is_date_form d = true -> match_date (d ++ b) = Some d.
Proof.
  intro H. pose proof H as H'.
  apply date_form_shape in H.
  destruct H as (y1 & y2 & y3 & y4 & m1 & m2 & d1 & d2 & E & _).
  subst d. cbn [app]. unfold match_date. rewrite H'. reflexivity.
Qed.

Lemma search_date_skip (a d b : str) :
  ~ In "."%char a -> is_date_form d = true ->
  search_date (a ++ d ++ b) = Some d.
Proof.
  intros Ha Hd. induction a as [|c a IH].
  - cbn [app]. destruct (d ++ b) as [|x r] eqn:E.
    + apply date_form_shape in Hd.
      destruct Hd as (y1 & y2 & y3 & y4 & m1 & m2 & d1 & d2 & Ed & _).
      subst d. discriminate.
    + cbn [search_date]. rewrite <- E. rewrite (@match_date_here d b Hd).
      reflexivity.
  - cbn [app search_date].
    destruct (match_date (c :: a ++ d ++ b)) as [d'|] eqn:E.
    + exfalso. apply match_date_some in E. destruct E as (_ & _ & E).
      change (c :: a ++ d ++ b) with ((c :: a) ++ d ++ b) in E.
      destruct (Nat.lt_ge_cases 4 (List.length (c :: a))) as [Hl|Hl].
      * rewrite nth_error_app1 in E by exact Hl.
        apply nth_error_In in E. exact (Ha E).
      * rewrite nth_error_app2 in E by exact Hl.
        pose proof Hd as Hd'. apply date_form_shape in Hd'.
        destruct Hd' as (y1 & y2 & y3 & y4 & m1 & m2 & d1 & d2 & Ed & Hdig).
        subst d. cbn [forallb] in Hdig.
        repeat (apply andb_true_iff in Hdig;
                let H := fresh "Hy" in destruct Hdig as [H Hdig]).
        cbn [List.length] in Hl, E.
        destruct (4 - S (List.length a))%nat as [|[|[|[|i]]]] eqn:Ei;
          cbn [app nth_error] in E; try lia;
          injection E as E;
          first [ exact (@is_digit_not_dot _ Hy E)
                | exact (@is_digit_not_dot _ Hy0 E)
                | exact (@is_digit_not_dot _ Hy1 E)
                | exact (@is_digit_not_dot _ Hy2 E) ].
    + apply IH. intro H. apply Ha. right. exact H.
Qed.

Lemma original_filename_name (track car number date time : str) :
  ~ In "."%char ("ld"%string : str) ->
  rsplit1_head "."%char (original_filename track car number date time)
  = track ++ "-"%char :: car ++ "-"%char :: number ++ "-"%char :: date
          ++ "-"%char :: time.
Proof.
  intro Hld. unfold original_filename.
  replace (track ++ "-"%char :: car ++ "-"%char :: number ++ "-"%char :: date
                 ++ "-"%char :: time ++ (".ld"%string : str))
    with ((track ++ "-"%char :: car ++ "-"%char :: number ++ "-"%char :: date
                 ++ "-"%char :: time) ++ "."%char :: ("ld"%string : str)).
  - apply rsplit1_head_app. exact Hld.
  - repeat (rewrite <- app_assoc; cbn [app]). reflexivity.
Qed.

Lemma ld_no_dot : ~ In "."%char ("ld"%string : str).
Proof. intros [H|[H|[]]]; discriminate. Qed.

(** X10: a recording named as the simulator names it is read back.  For
    [{Track}-{car}-{number}-{YYYY.MM.DD}-{HH.MM.SS}.ld] with a track and a
    car that hold no dash, no dot in track, car and number, and a date of
    the form YYYY.MM.DD, [parse_original_filename] returns that car and
    that date, whatever the time part is; so a non-empty car of the name
    wins over the vehicle id of the telemetry header. *)
Theorem original_filename_read_back
        (track car number date time : str) (vehicleid : option str) :
  ~ In "-"%char track -> ~ In "-"%char car ->
  ~ In "."%char track -> ~ In "."%char car -> ~ In "."%char number ->
  is_date_form date = true ->
  parse_original_filename (original_filename track car number date time)
  = (Some car, Some date) /\
  (car <> [] ->
   car_of (original_filename track car number date time) vehicleid = car).
Proof.
  intros Ht Hc Htd Hcd Hnd Hdate.
  assert (E : parse_original_filename
                (original_filename track car number date time)
              = (Some car, Some date)).
  { unfold parse_original_filename.
    rewrite (original_filename_name track car number date time ld_no_dot).
    f_equal.
    - rewrite split_app, (@split_none _ _ Ht).
      rewrite split_app, (@split_none _ _ Hc).
      rewrite split_app.
      destruct (split "-"%char number) as [|n1 ns] eqn:En;
        [exfalso; exact (split_nonempty _ _ En)|].
      destruct (split "-"%char (date ++ "-"%char :: time)) as [|r1 rs] eqn:Er;
        [exfalso; exact (split_nonempty _ _ Er)|].
      cbn [app List.length].
      rewrite length_app. cbn [List.length].
      replace (4 <=? S (S (S (List.length ns + S (List.length rs)))))%nat
        with true by (symmetry; apply Nat.leb_le; lia).
      reflexivity.
    - replace (track ++ "-"%char :: car ++ "-"%char :: number ++ "-"%char :: date
                     ++ "-"%char :: time)
        with ((track ++ "-"%char :: car ++ "-"%char :: number ++ ["-"%char])
                ++ date ++ "-"%char :: time)
        by (repeat (rewrite <- app_assoc; cbn [app]); reflexivity).
      apply search_date_skip; [|exact Hdate].
      intro H. apply in_app_or in H. destruct H as [H|[H|H]];
        [exact (Htd H) | discriminate |].
      apply in_app_or in H. destruct H as [H|[H|H]];
        [exact (Hcd H) | discriminate |].
      apply in_app_or in H. destruct H as [H|[H|[]]];
        [exact (Hnd H) | discriminate]. }
  split; [exact E|].
  intro Hne. unfold car_of. rewrite E. cbn [fst str_or].
  destruct car as [|c car']; [contradiction|]. reflexivity.
Qed.

Lemma original_filename_read_back_witness :
  parse_original_filename
    ("Spa-bmw_m4_gt3-12-2024.05.12-18.30.05.ld"%string : str)
  = (Some ("bmw_m4_gt3"%string : str), Some ("2024.05.12"%string : str)).
Proof.
  refine (proj1 (@original_filename_read_back
                   ("Spa"%string : str) ("bmw_m4_gt3"%string : str)
                   ("12"%string : str) ("2024.05.12"%string : str)
                   ("18.30.05"%string : str) None _ _ _ _ _ _));
    try reflexivity;
    intro H; repeat (destruct H as [H|H]; [discriminate|]); exact H.
Defined.

(** X11: what [parse_original_filename] can return, for any file name.  A
    car is returned only when the name (without its extension) has at least
    four dash-separated parts, and it holds no dash, so a car whose own name
    has a dash is cut at it; a date is always of the form YYYY.MM.DD and is
    a piece of the name; and the car the scanner uses,
    [car_from_filename or vehicleid or "unknown"], is never empty. *)
Theorem parsed_car_and_date_shape (filename : str) (vehicleid : option str) :
  let name := rsplit1_head "."%char filename in
  let '(car_name, date_str) := parse_original_filename filename in
  (forall car, car_name = Some car ->
     ~ In "-"%char car /\ (4 <= List.length (split "-"%char name))%nat
     /\ nth_error (split "-"%char name) 1 = Some car) /\
  (car_name = None <-> (List.length (split "-"%char name) < 4)%nat) /\
  (forall date, date_str = Some date ->
     is_date_form date = true /\ exists a b, name = a ++ date ++ b) /\
  car_of filename vehicleid <> [].
Proof.
  cbv zeta. unfold car_of. unfold parse_original_filename. cbn [fst].
  set (name := rsplit1_head "."%char filename).
  split; [|split; [|split]].
  - intros car H.
    destruct (4 <=? List.length (split "-"%char name))%nat eqn:E;
      [|discriminate].
    apply Nat.leb_le in E.
    split; [|split; [exact E|exact H]].
    apply (@split_parts_no_sep "-"%char name car).
    eapply nth_error_In. exact H.
  - destruct (4 <=? List.length (split "-"%char name))%nat eqn:E.
    + apply Nat.leb_le in E. split; [|lia].
      intro H. apply nth_error_None in H. lia.
    + apply Nat.leb_gt in E. split; [intros _; exact E|reflexivity].
  - intros date H. apply search_date_some. exact H.
  - destruct (if (4 <=? List.length (split "-"%char name))%nat
              then nth_error (split "-"%char name) 1 else None)
      as [[|c s]|]; cbn [str_or];
      destruct vehicleid as [[|c' s']|]; cbn [str_or]; discriminate.
Qed.


(** ** Names of personal bests, decoded *)

Lemma find_index_some {X : Type} (p : X -> bool) (l : list X) (i : nat) :
  find_index p l = Some i ->
  exists x, nth_error l i = Some x /\ p x = true.
Proof.
  revert i. induction l as [|y l IH]; intros i H; [discriminate|].
  cbn [find_index] in H. destruct (p y) eqn:E.
  - injection H as H. subst i. exists y. split; [reflexivity|exact E].
  - destruct (find_index p l) as [j|]; [|discriminate].
    injection H as H. subst i. apply IH. reflexivity.
Qed.

Lemma inject_N_nonneg (n : N) : 0 <= inject_Z (Z.of_N n).
Proof. change 0 with (inject_Z 0). rewrite <- Zle_Qle. lia. Qed.

Lemma float_of_decimal_nonneg (s : str) (v : Q) :
  float_of_decimal s = Some v -> 0 <= v.
Proof.
  unfold float_of_decimal. destruct (span is_digit s) as [ip r].
  destruct r as [|c fp].
  - destruct ip; [discriminate|]. intro H. injection H as H. subst v.
    apply inject_N_nonneg.
  - destruct (Ascii.eqb c "."%char && forallb is_digit fp
              && negb (Nat.eqb (List.length ip + List.length fp) 0));
      [|discriminate].
    intro H. injection H as H. subst v.
    pose proof (inject_N_nonneg (int_of_digits ip)) as H1.
    pose proof (inject_N_nonneg (int_of_digits fp)) as H2.
    assert (H3 : 0 < inject_Z (10 ^ Z.of_nat (List.length fp))).
    { change 0 with (inject_Z 0). rewrite <- Zlt_Qlt.
      apply Z.pow_pos_nonneg; lia. }
    assert (H4 : 0 <= inject_Z (Z.of_N (int_of_digits fp))
                      / inject_Z (10 ^ Z.of_nat (List.length fp))).
    { apply Qle_shift_div_l; [exact H3|]. lra. }
    lra.
Qed.

Lemma digit_val_range (c : ascii) :
  is_digit c = true -> (digit_val c <= 9)%N.
Proof.
  unfold is_digit, digit_val. intro H.
  apply andb_true_iff in H. destruct H as [H1 H2].
  apply N.leb_le in H1. apply N.leb_le in H2. lia.
Qed.

Lemma last_in {X : Type} (l : list X) (d : X) : l <> [] -> In (last l d) l.
Proof.
  induction l as [|x l IH]; intro H; [contradiction|].
  destruct l as [|y l']; [left; reflexivity|].
  right. apply IH. discriminate.
Qed.

Lemma condition_part_lower (part : str) :
  is_condition_part part = true ->
  lower part = ("dry"%string : str) \/ lower part = ("wet"%string : str).
Proof.
  unfold is_condition_part. intro H. apply orb_true_iff in H.
  destruct H as [H|H]; apply str_eqb_eq in H; [left|right]; exact H.
Qed.

(** The fields of a decoded name. *)
Lemma parse_pb_filename_fields (filename : str) (info : pb_info) :
  parse_pb_filename filename = Some info ->
  let parts := split "_"%char (rsplit1_head "."%char filename) in
  (6 <= List.length parts)%nat /\
  (pb_condition info = ("dry"%string : str)
   \/ pb_condition info = ("wet"%string : str)) /\
  (0 <= pb_rank info <= 9)%Z /\
  0 <= pb_lap_time info /\
  nth_error parts 0 = Some (pb_track info) /\
  ~ In "_"%char (pb_track info) /\
  pb_date info = last parts [] /\
  ~ In "_"%char (pb_date info).
Proof.
  unfold parse_pb_filename. cbv zeta.
  set (parts := split "_"%char (rsplit1_head "."%char filename)).
  destruct (List.length parts <? 6)%nat eqn:El; [discriminate|].
  apply Nat.ltb_ge in El.
  destruct (nth_error parts 0) as [track|] eqn:Et; [|discriminate].
  destruct (find_index is_condition_part parts) as [idx|] eqn:Ei; [|discriminate].
  destruct (nth_error parts idx) as [cond_part|] eqn:Ec; [|discriminate].
  destruct (nth_error parts (idx + 1)) as [[|c rs]|]; try discriminate.
  destruct (nth_error parts (idx + 2)) as [lap_time_str|]; [|discriminate].
  destruct (is_digit c) eqn:Ed; [|discriminate].
  destruct (match_lap_time lap_time_str) as [[g1 g2]|]; [|discriminate].
  destruct (float_of_decimal g2) as [seconds|] eqn:Ef; [|discriminate].
  intro H. injection H as H. subst info. cbn [pb_condition pb_rank pb_lap_time
                                                pb_track pb_date].
  split; [exact El|]. split.
  { apply find_index_some in Ei. destruct Ei as (x & Hx & Hp).
    rewrite Ec in Hx. injection Hx as Hx. subst x.
    apply condition_part_lower. exact Hp. }
  split.
  { pose proof (@digit_val_range c Ed). lia. }
  split.
  { pose proof (inject_N_nonneg (int_of_digits g1)).
    pose proof (@float_of_decimal_nonneg g2 seconds Ef). lra. }
  split; [reflexivity|]. split.
  { apply (@split_parts_no_sep "_"%char (rsplit1_head "."%char filename)).
    eapply nth_error_In. exact Et. }
  split; [reflexivity|].
  apply (@split_parts_no_sep "_"%char (rsplit1_head "."%char filename)).
  apply last_in. apply split_nonempty.
Qed.

(** X12: what [parse_pb_filename] can return, for any file name.  A name
    is decoded only when it has at least six underscore-separated parts
    (without its extension); the condition returned is "dry" or "wet" in
    lower case, the rank is a single digit (0 to 9), the lap time is not
    negative, the track is the first part and the date the last part, and
    neither holds an underscore. *)
Theorem decoded_pb_name_fields (filename : str) (info : pb_info) :
  parse_pb_filename filename = Some info ->
  let parts := split "_"%char (rsplit1_head "."%char filename) in
  (6 <= List.length parts)%nat /\
  (pb_condition info = ("dry"%string : str)
   \/ pb_condition info = ("wet"%string : str)) /\
  (0 <= pb_rank info <= 9)%Z /\
  0 <= pb_lap_time info /\
  nth_error parts 0 = Some (pb_track info) /\
  ~ In "_"%char (pb_track info) /\
  pb_date info = last parts [] /\
  ~ In "_"%char (pb_date info).
Proof. apply parse_pb_filename_fields. Qed.

Lemma decoded_pb_name_fields_witness :
  exists info,
    parse_pb_filename
      ("Spa_bmw_m4_Wet_2nd_2m05.250s_2024-05-12.ld"%string : str) = Some info
    /\ pb_condition info = ("wet"%string : str)
    /\ (0 <= pb_rank info <= 9)%Z.
Proof.
  destruct (parse_pb_filename
              ("Spa_bmw_m4_Wet_2nd_2m05.250s_2024-05-12.ld"%string : str))
    as [info|] eqn:E; [|vm_compute in E; discriminate].
  exists info. split; [reflexivity|].
  destruct (@decoded_pb_name_fields _ info E) as (_ & Hc & Hr & _).
  split; [|exact Hr].
  destruct Hc as [Hc|Hc]; [|exact Hc].
  exfalso. vm_compute in E. injection E as E. subst info.
  vm_compute in Hc. discriminate.
Defined.

(** ** The previous personal bests *)

Lemma key3_eqb_eq (a b : key3) : key3_eqb a b = true <-> a = b.
Proof.
  destruct a as [[a1 a2] a3]. destruct b as [[b1 b2] b3].
  unfold key3_eqb. rewrite !andb_true_iff, !str_eqb_eq.
  split.
  - intros [[H1 H2] H3]. subst. reflexivity.
  - intro H. injection H as H1 H2 H3. repeat split; assumption.
Qed.

Section DictUpdateFacts.
Variables (K V : Type) (eqb : K -> K -> bool).
Hypothesis eqb_eq : forall a b, eqb a b = true <-> a = b.

Lemma dict_get_update (k q : K) (f : V -> V) (default : V) (d : dict K V) :
  dict_get eqb q (dict_update eqb k f default d)
  = if eqb q k
    then Some (f match dict_get eqb k d with
                 | Some v => v
                 | None => default
                 end)
    else dict_get eqb q d.
Proof.
  induction d as [|[k' v] d IH]; cbn [dict_update dict_get].
  - destruct (eqb q k); reflexivity.
  - destruct (eqb k k') eqn:Ek; cbn [dict_get].
    + apply eqb_eq in Ek. subst k'.
      destruct (eqb q k); reflexivity.
    + rewrite IH. destruct (eqb q k') eqn:Eq; [|reflexivity].
      destruct (eqb q k) eqn:Eqk; [|reflexivity].
      apply eqb_eq in Eq. apply eqb_eq in Eqk. subst.
      assert (eqb k' k' = true) by (apply eqb_eq; reflexivity). congruence.
Qed.

Lemma dict_get_map_values (g : V -> V) (q : K) (d : dict K V) :
  dict_get eqb q (map (fun kv => (fst kv, g (snd kv))) d)
  = option_map g (dict_get eqb q d).
Proof.
  induction d as [|[k v] d IH]; [reflexivity|].
  cbn [map dict_get fst snd]. destruct (eqb q k); [reflexivity|exact IH].
Qed.
End DictUpdateFacts.

Section PreviousPbs.
Variable X : Type.

(** One turn of the loop of [load_previous_pbs]. *)
Lemma load_step_inv (done : list (str * X)) (ld_file : str * X)
      (pbs : dict key3 (list prev_entry)) :
  previous_pbs_inv done pbs ->
  previous_pbs_inv
    (done ++ [ld_file])
    match parse_pb_filename (fst ld_file) with
    | Some parsed =>
        dict_update key3_eqb
          (pb_track parsed, pb_car parsed, pb_condition parsed)
          (fun l => l ++ [(pb_rank parsed, pb_lap_time parsed, fst ld_file)])
          [] pbs
    | None => pbs
    end.
Proof.
  intros (Hnd & Hsound & Hcomplete).
  destruct (parse_pb_filename (fst ld_file)) as [parsed|] eqn:Ep.
  - change (pb_track parsed, pb_car parsed, pb_condition parsed)
      with (prev_key_of parsed).
    change (pb_rank parsed, pb_lap_time parsed, fst ld_file)
      with (prev_entry_of (fst ld_file) parsed).
    split; [apply dict_update_nodup; [exact key3_eqb_eq|exact Hnd]|].
    split.
    + intros key entries Hget.
      rewrite (@dict_get_update _ _ _ key3_eqb_eq) in Hget.
      destruct (key3_eqb key (prev_key_of parsed)) eqn:Ek.
      * apply key3_eqb_eq in Ek. subst key.
        injection Hget as Hget. subst entries.
        split; [intro H; apply app_eq_nil in H; destruct H; discriminate|].
        intros e He. apply in_app_or in He. destruct He as [He|[He|[]]].
        -- destruct (dict_get key3_eqb (prev_key_of parsed) pbs)
             as [old|] eqn:Eo; [|destruct He].
           destruct (Hsound _ _ Eo) as [_ Hs].
           destruct (Hs e He) as (x & info & Hin & Hp & Hk & Hv).
           exists x, info. repeat split; try assumption.
           apply in_or_app. left. exact Hin.
        -- subst e. cbn [prev_entry_of snd].
           exists (snd ld_file), parsed.
           split; [apply in_or_app; right; left; destruct ld_file; reflexivity|].
           repeat split. exact Ep.
      * destruct (Hsound _ _ Hget) as [Hne Hs].
        split; [exact Hne|].
        intros e He. destruct (Hs e He) as (x & info & Hin & Hp & Hk & Hv).
        exists x, info. repeat split; try assumption.
        apply in_or_app. left. exact Hin.
    + intros name x info Hin Hp.
      rewrite (@dict_get_update _ _ _ key3_eqb_eq).
      apply in_app_or in Hin. destruct Hin as [Hin|[Hin|[]]].
      * destruct (Hcomplete _ _ _ Hin Hp) as (entries & Hget & He).
        destruct (key3_eqb (prev_key_of info) (prev_key_of parsed)) eqn:Ek.
        -- apply key3_eqb_eq in Ek. rewrite <- Ek, Hget.
           eexists. split; [reflexivity|]. apply in_or_app. left. exact He.
        -- exists entries. split; assumption.
      * subst ld_file. cbn [fst] in Ep. rewrite Ep in Hp.
        injection Hp as Hp. subst info.
        assert (Ek : key3_eqb (prev_key_of parsed) (prev_key_of parsed) = true)
          by (apply key3_eqb_eq; reflexivity).
        rewrite Ek. eexists. split; [reflexivity|].
        apply in_or_app. right. left. reflexivity.
  - split; [exact Hnd|]. split.
    + intros key entries Hget. destruct (Hsound _ _ Hget) as [Hne Hs].
      split; [exact Hne|].
      intros e He. destruct (Hs e He) as (x & info & Hin & Hp & Hk & Hv).
      exists x, info. repeat split; try assumption.
      apply in_or_app. left. exact Hin.
    + intros name x info Hin Hp.
      apply in_app_or in Hin. destruct Hin as [Hin|[Hin|[]]].
      * exact (Hcomplete _ _ _ Hin Hp).
      * subst ld_file. cbn [fst] in Ep. congruence.
Qed.

Lemma load_fold_inv (ld_files done : list (str * X))
      (pbs : dict key3 (list prev_entry)) :
  previous_pbs_inv done pbs ->
  previous_pbs_inv
    (done ++ ld_files)
    (fold_left
       (fun pbs ld_file =>
          match parse_pb_filename (fst ld_file) with
          | Some parsed =>
              dict_update key3_eqb
                (pb_track parsed, pb_car parsed, pb_condition parsed)
                (fun l => l ++ [(pb_rank parsed, pb_lap_time parsed, fst ld_file)])
                [] pbs
          | None => pbs
          end) ld_files pbs).
Proof.
  revert done pbs. induction ld_files as [|f rest IH]; intros done pbs H.
  - rewrite app_nil_r. exact H.
  - cbn [fold_left].
    replace (done ++ f :: rest) with ((done ++ [f]) ++ rest)
      by (rewrite <- app_assoc; reflexivity).
    apply IH. apply load_step_inv. exact H.
Qed.

Lemma previous_pbs_inv_nil : previous_pbs_inv (@nil (str * X)) [].
Proof.
  split; [constructor|]. split.
  - intros key entries H. discriminate.
  - intros name x info [].
Qed.
End PreviousPbs.

Lemma Z_ltb_asym (a b : Z) : Z.ltb a b = true -> Z.ltb b a = false.
Proof. intro H. apply Z.ltb_lt in H. apply Z.ltb_ge. lia. Qed.

Lemma Z_leb_trans (a b c : Z) :
  Z.ltb b a = false -> Z.ltb c b = false -> Z.ltb c a = false.
Proof.
  intros H1 H2. apply Z.ltb_ge in H1. apply Z.ltb_ge in H2.
  apply Z.ltb_ge. lia.
Qed.

(** X13: the baseline [load_previous_pbs] builds from an output directory.
    Its keys (track, car, condition) are distinct and every condition is
    "dry" or "wet"; no group is empty; every group is in ascending order of
    rank; every entry is decoded from a child of the directory whose name
    ends in .ld and that [parse_pb_filename] accepts, under the key and with
    the rank and lap time decoded from that name; and every such child is
    entered in the group of its key. *)
Theorem previous_pbs_groups (X : Type) (pb_folder : list (str * X)) :
  let pbs := load_previous_pbs pb_folder in
  NoDup (map fst pbs) /\
  (forall key entries,
      In (key, entries) pbs ->
      entries <> [] /\
      (snd key = ("dry"%string : str) \/ snd key = ("wet"%string : str)) /\
      StronglySorted (fun a b => (prev_rank a <= prev_rank b)%Z) entries /\
      forall e, In e entries ->
                exists x info,
                  In (snd e, x) pb_folder
                  /\ ends_with ".ld"%string (snd e) = true
                  /\ parse_pb_filename (snd e) = Some info
                  /\ key = prev_key_of info
                  /\ e = prev_entry_of (snd e) info) /\
  (forall name x info,
      In (name, x) pb_folder -> ends_with ".ld"%string name = true ->
      parse_pb_filename name = Some info ->
      exists entries,
        dict_get key3_eqb (prev_key_of info) pbs = Some entries
        /\ In (prev_entry_of name info) entries).
Proof.
  cbv zeta. unfold load_previous_pbs.
  pose proof (@load_fold_inv X (glob_suffix ".ld"%string pb_folder) [] []
                (previous_pbs_inv_nil X)) as Hinv.
  cbn [app] in Hinv.
  match type of Hinv with previous_pbs_inv _ ?p => set (pbs0 := p) in * end.
  destruct Hinv as (Hnd & Hsound & Hcomplete).
  assert (Hglob : forall name (x : X),
             In (name, x) (glob_suffix ".ld"%string pb_folder)
             <-> In (name, x) pb_folder /\ ends_with ".ld"%string name = true).
  { intros name x. unfold glob_suffix. rewrite filter_In. reflexivity. }
  split; [rewrite map_map; cbn [fst]; exact Hnd|].
  split.
  - intros key entries Hin.
    apply in_map_iff in Hin. destruct Hin as ([k old] & Heq & Hin).
    cbn [fst snd] in Heq. injection Heq as Hk He. subst k entries.
    assert (Hget : dict_get key3_eqb key pbs0 = Some old)
      by (apply (@dict_get_unique _ _ _ key3_eqb_eq); assumption).
    destruct (Hsound _ _ Hget) as [Hne Hs].
    split.
    { intro H. apply Hne. apply length_zero_iff_nil.
      rewrite <- (sort_by_key_length Z.ltb prev_rank old), H. reflexivity. }
    split.
    { destruct old as [|e0 old']; [contradiction|].
      destruct (Hs e0 (or_introl eq_refl)) as (x & info & _ & Hp & Hk & _).
      subst key. cbn [prev_key_of snd].
      apply (@parse_pb_filename_fields _ _ Hp). }
    split.
    { apply (@strongly_sorted_weaken _ (key_le Z.ltb prev_rank)).
      - intros a b H. unfold key_le in H. apply Z.ltb_ge in H. exact H.
      - apply sort_by_key_sorted; [exact Z_ltb_asym|exact Z_leb_trans]. }
    intros e He. apply sort_by_key_in in He.
    destruct (Hs e He) as (x & info & Hin' & Hp & Hk & Hv).
    apply Hglob in Hin'. destruct Hin' as [Hin' Hend].
    exists x, info. repeat split; assumption.
  - intros name x info Hin Hend Hp.
    assert (Hin' : In (name, x) (glob_suffix ".ld"%string pb_folder))
      by (apply Hglob; split; assumption).
    destruct (Hcomplete _ _ _ Hin' Hp) as (entries & Hget & He).
    exists (sort_by_key Z.ltb prev_rank entries). split.
    + rewrite (@dict_get_map_values _ _ key3_eqb).
      transitivity (option_map (sort_by_key Z.ltb prev_rank) (Some entries));
        [|reflexivity].
      f_equal. exact Hget.
    + apply sort_by_key_in. exact He.
Qed.


(** ** Output directories, newest first *)

Section SortMapFacts.
Variables (A B K : Type) (ltb : K -> K -> bool) (key : A -> K) (f : B -> A).

Lemma insert_by_key_map (x : B) (l : list B) :
  insert_by_key ltb key (f x) (map f l)
  = map f (insert_by_key ltb (fun b => key (f b)) x l).
Proof.
  induction l as [|y l IH]; [reflexivity|].
  cbn [map insert_by_key]. destruct (ltb (key (f y)) (key (f x))).
  - cbn [map]. rewrite IH. reflexivity.
  - reflexivity.
Qed.

Lemma sort_by_key_map (l : list B) :
  sort_by_key ltb key (map f l)
  = map f (sort_by_key ltb (fun b => key (f b)) l).
Proof.
  induction l as [|x l IH]; [reflexivity|].
  cbn [map sort_by_key]. rewrite IH. apply insert_by_key_map.
Qed.

Lemma sort_by_key_reverse_map (l : list B) :
  sort_by_key_reverse ltb key (map f l)
  = map f (sort_by_key_reverse ltb (fun b => key (f b)) l).
Proof.
  unfold sort_by_key_reverse.
  rewrite <- map_rev, sort_by_key_map, map_rev. reflexivity.
Qed.
End SortMapFacts.

Lemma map_flat_map {X Y Z : Type} (g : Y -> Z) (F : X -> list Y) (l : list X) :
  map g (flat_map F l) = flat_map (fun x => map g (F x)) l.
Proof.
  induction l as [|x l IH]; [reflexivity|].
  cbn [flat_map]. rewrite map_app, IH. reflexivity.
Qed.

Lemma strongly_sorted_snoc {X : Type} (R : X -> X -> Prop) (l : list X) (x : X) :
  StronglySorted R l -> Forall (fun y => R y x) l -> StronglySorted R (l ++ [x]).
Proof.
  intros Hs Hf. induction Hs as [|a l Hs IH Ha]; cbn [app].
  - constructor; constructor.
  - inversion Hf as [|? ? Hax Hfl]; subst.
    constructor; [apply IH; exact Hfl|].
    apply Forall_app. split; [exact Ha|]. constructor; [exact Hax|constructor].
Qed.

Lemma strongly_sorted_rev {X : Type} (R : X -> X -> Prop) (l : list X) :
  StronglySorted R l -> StronglySorted (fun a b => R b a) (rev l).
Proof.
  intro Hs. induction Hs as [|a l Hs IH Ha]; cbn [rev].
  - constructor.
  - apply strongly_sorted_snoc; [exact IH|].
    apply Forall_rev. exact Ha.
Qed.

Lemma undo_candidates_fst (d : directory) :
  map fst (get_undo_candidates (Some d)) = find_previous_pb_folders d.
Proof.
  unfold get_undo_candidates, find_previous_pb_folders.
  rewrite <- (@sort_by_key_reverse_map
                (str * node * datetime) (str * node * datetime * nat)
                datetime datetime_ltb snd fst).
  f_equal. rewrite map_flat_map. apply flat_map_ext. intro item.
  destruct (pb_folder_timestamp item); reflexivity.
Qed.

(** X14: undo and comparison look at the same directories.  The folders
    [get_undo_candidates] lists are those [find_previous_pb_folders] lists,
    with the same timestamps and in the same order, so the folder
    [undo_last_scan] deletes is the one the next scan would have compared
    against.  The list holds exactly the sub-directories whose name matches
    [PBs_YYYY-MM-DD_HHMMSS] with a valid date and time, newest first, and
    the file count of a candidate is the number of its children whose name
    ends in .ld. *)
Theorem undo_candidates_are_previous_folders (d : directory) :
  map fst (get_undo_candidates (Some d)) = find_previous_pb_folders d /\
  (forall folder ts,
      In (folder, ts) (find_previous_pb_folders d)
      <-> In folder d /\ pb_folder_timestamp folder = Some ts) /\
  StronglySorted (fun a b => datetime_ltb (snd a) (snd b) = false)
                 (find_previous_pb_folders d) /\
  (forall folder ts n,
      In (folder, ts, n) (get_undo_candidates (Some d)) ->
      n = List.length (glob_suffix ".ld"%string (children_of (snd folder)))).
Proof.
  split; [|split; [|split]].
  - apply undo_candidates_fst.
  - intros folder ts. unfold find_previous_pb_folders.
    rewrite <- in_timestamped.
    split; apply Permutation_in;
      [|apply Permutation_sym]; apply sort_by_key_reverse_perm.
  - unfold find_previous_pb_folders, sort_by_key_reverse.
    apply (@strongly_sorted_rev _ (key_le datetime_ltb snd)).
    apply sort_by_key_sorted; [exact datetime_ltb_asym|exact datetime_leb_trans].
  - intros folder ts n H. unfold get_undo_candidates in H.
    apply (Permutation_in _ (sort_by_key_reverse_perm _ _ _)) in H.
    apply in_undo_candidates in H. destruct H as (_ & _ & H). exact H.
Qed.

(** ** The name of a new output directory *)

Lemma digits2_value (n : N) :
  (n < 100)%N ->
  forallb is_digit (digits2 n) = true /\ int_of_digits (digits2 n) = n.
Proof.
  intro H.
  assert (H1 : (n / 10 < 10)%N) by (apply N.Div0.div_lt_upper_bound; lia).
  assert (H2 : (n mod 10 < 10)%N) by (apply N.mod_lt; lia).
  unfold digits2, int_of_digits. cbn [forallb fold_left].
  rewrite !is_digit_digit_char, !digit_val_digit_char by assumption.
  split; [reflexivity|]. pose proof (N.div_mod n 10). lia.
Qed.

Lemma digits4_value (n : N) :
  (n < 10000)%N ->
  forallb is_digit (digits4 n) = true /\ int_of_digits (digits4 n) = n.
Proof.
  intro H.
  assert (H1 : (n / 1000 < 10)%N) by (apply N.Div0.div_lt_upper_bound; lia).
  assert (H2 : ((n / 100) mod 10 < 10)%N) by (apply N.mod_lt; lia).
  assert (H3 : ((n / 10) mod 10 < 10)%N) by (apply N.mod_lt; lia).
  assert (H4 : (n mod 10 < 10)%N) by (apply N.mod_lt; lia).
  unfold digits4, int_of_digits. cbn [forallb fold_left].
  rewrite !is_digit_digit_char, !digit_val_digit_char by assumption.
  split; [reflexivity|].
  pose proof (N.div_mod n 10) as E1.
  pose proof (N.div_mod (n / 10) 10) as E2.
  pose proof (N.div_mod (n / 100) 10) as E3.
  assert (E4 : (n / 10 / 10 = n / 100)%N)
    by (rewrite N.Div0.div_div; reflexivity).
  assert (E5 : (n / 100 / 10 = n / 1000)%N)
    by (rewrite N.Div0.div_div; reflexivity).
  rewrite E4 in E2. rewrite E5 in E3. lia.
Qed.

Lemma strftime_read_back (dt : datetime) :
  valid_datetime dt ->
  is_timestamp_shape (strftime dt) = true /\ strptime (strftime dt) = Some dt.
Proof.
  intros (Hy & Hm & Hd & Hh & Hn & Hs).
  assert (Hdm : (days_in_month (year dt) (month dt) <= 31)%N).
  { unfold days_in_month.
    destruct (month dt) as [|[[[[|[]|]|[]|]|[[]|[]|]|]|[[[]|[]|]|[[]|[]|]|]|]];
      try destruct (is_leap (year dt)); lia. }
  destruct (@digits4_value (year dt)) as [Y1 Y2]; [lia|].
  destruct (@digits2_value (month dt)) as [M1 M2]; [lia|].
  destruct (@digits2_value (day dt)) as [D1 D2]; [lia|].
  destruct (@digits2_value (hour dt)) as [H1 H2]; [lia|].
  destruct (@digits2_value (minute dt)) as [N1 N2]; [lia|].
  destruct (@digits2_value (second dt)) as [S1 S2]; [lia|].
  split.
  - unfold strftime, digits4, digits2 in *. cbn [app is_timestamp_shape].
    cbn [forallb] in *.
    repeat match goal with
           | H : _ && _ = true |- _ =>
               apply andb_true_iff in H; destruct H as [? H]
           end.
    repeat match goal with
           | H : is_digit ?c = true |- context [is_digit ?c] => rewrite H
           end.
    reflexivity.
  - unfold strptime.
    change (firstn 4 (skipn 0 (strftime dt))) with (digits4 (year dt)).
    change (firstn 2 (skipn 5 (strftime dt))) with (digits2 (month dt)).
    change (firstn 2 (skipn 8 (strftime dt))) with (digits2 (day dt)).
    change (firstn 2 (skipn 11 (strftime dt))) with (digits2 (hour dt)).
    change (firstn 2 (skipn 13 (strftime dt))) with (digits2 (minute dt)).
    change (firstn 2 (skipn 15 (strftime dt))) with (digits2 (second dt)).
    rewrite Y2, M2, D2, H2, N2, S2. cbn [year month day hour minute second].
    replace (1 <=? year dt)%N with true by (symmetry; apply N.leb_le; lia).
    replace (1 <=? month dt)%N with true by (symmetry; apply N.leb_le; lia).
    replace (month dt <=? 12)%N with true by (symmetry; apply N.leb_le; lia).
    replace (1 <=? day dt)%N with true by (symmetry; apply N.leb_le; lia).
    replace (day dt <=? days_in_month (year dt) (month dt))%N with true
      by (symmetry; apply N.leb_le; lia).
    replace (hour dt <=? 23)%N with true by (symmetry; apply N.leb_le; lia).
    replace (minute dt <=? 59)%N with true by (symmetry; apply N.leb_le; lia).
    replace (second dt <=? 59)%N with true by (symmetry; apply N.leb_le; lia).
    cbn [andb]. destruct dt. reflexivity.
Qed.

(** X15: the output directory of a scan is recognised afterwards.  For
    every valid date and time with a four-digit year, the directory name
    [scan_telemetry] builds, [PBs_] followed by
    [strftime("%Y-%m-%d_%H%M%S")], matches the pattern of
    [find_previous_pb_folders] and [get_undo_candidates], and [strptime]
    reads the same date and time back; so the next scan and the undo see
    that directory with the timestamp of the run that made it, and runs
    at different seconds get different directories. *)
Theorem output_directory_is_recognised
        (dt : datetime) (sz : N) (children : list (str * option str))
        (ue : str) (re : option str) :
  valid_datetime dt ->
  let name : str := "PBs_"%string ++ strftime dt in
  match_pb_pattern name = Some (strftime dt) /\
  strptime (strftime dt) = Some dt /\
  pb_folder_timestamp (name, Dir sz children ue re) = Some dt /\
  (forall read_source pb_count ldx_exists copy_error joinpath source_dir dry_run r,
      scan_telemetry read_source pb_count ldx_exists copy_error joinpath
                     source_dir dry_run (strftime dt) = Return (Some r) ->
      res_pbs_dir r = name) /\
  (forall dt', valid_datetime dt' -> strftime dt = strftime dt' -> dt = dt').
Proof.
  intros Hv name.
  destruct (strftime_read_back Hv) as [Hshape Hread].
  assert (Hm : match_pb_pattern name = Some (strftime dt)).
  { unfold match_pb_pattern, name.
    change (prefixb "PBs_"%string (("PBs_"%string : str) ++ strftime dt))
      with true.
    change (skipn 4 (("PBs_"%string : str) ++ strftime dt)) with (strftime dt).
    assert (Hl : List.length (strftime dt) = 17%nat) by reflexivity.
    rewrite firstn_all2 by (rewrite Hl; apply Nat.le_refl).
    rewrite skipn_all2 by (rewrite Hl; apply Nat.le_refl).
    rewrite Hshape. reflexivity. }
  split; [exact Hm|]. split; [exact Hread|]. split.
  { unfold pb_folder_timestamp. cbn [snd fst is_dir]. rewrite Hm. exact Hread. }
  split.
  { intros read_source pb_count ldx_exists copy_error joinpath source_dir
           dry_run r H.
    unfold scan_telemetry in H.
    destruct (map fst (glob_suffix ".ld"%string source_dir)); [discriminate|].
    destruct dry_run.
    - injection H as H. subst r. reflexivity.
    - destruct (copy_pb_files _ _ _ _ _ _) as [copied [e|]]; [discriminate|].
      injection H as H. subst r. reflexivity. }
  intros dt' Hv' E. destruct (strftime_read_back Hv') as [_ Hread'].
  rewrite <- E in Hread'. congruence.
Qed.

Lemma output_directory_is_recognised_witness :
  pb_folder_timestamp
    (("PBs_2024-02-29_235959"%string : str),
     Dir 0 [] ("EISDIR"%string : str) None)
  = Some {| year := 2024; month := 2; day := 29;
            hour := 23; minute := 59; second := 59 |}.
Proof.
  refine (proj1 (proj2 (proj2
           (@output_directory_is_recognised
              {| year := 2024; month := 2; day := 29;
                 hour := 23; minute := 59; second := 59 |}
              0 [] ("EISDIR"%string : str) None _)))).
  unfold valid_datetime. cbn [year month day hour minute second].
  change (days_in_month 2024 2) with 29%N. lia.
Defined.


(** ** The scanner: counts, dry runs and failing copies *)

Lemma process_file_counts (read_source : str -> option source_info)
      (st : scan_state) (ld_file : str) :
  let readable :=
    match read_source ld_file with
    | Some info => match si_lap_times info with [] => false | _ :: _ => true end
    | None => false
    end in
  processed (process_file read_source st ld_file)
  = (if readable then S (processed st) else processed st) /\
  skipped (process_file read_source st ld_file)
  = (if readable then skipped st else S (skipped st)).
Proof.
  cbv zeta. unfold process_file.
  destruct (read_source ld_file) as [info|]; [|split; reflexivity].
  destruct (si_lap_times info) as [|x l]; [split; reflexivity|].
  destruct (classify_laps (x :: l) (si_dry_benchmark info)
                          (si_wet_benchmark info) (si_tolerance info))
    as [[bd bw] gl].
  split; reflexivity.
Qed.

Lemma process_files_counts_from (read_source : str -> option source_info)
      (ld_files : list str) (st : scan_state) :
  let readable f :=
    match read_source f with
    | Some info => match si_lap_times info with [] => false | _ :: _ => true end
    | None => false
    end in
  processed (fold_left (process_file read_source) ld_files st)
  = (processed st + List.length (filter readable ld_files))%nat /\
  skipped (fold_left (process_file read_source) ld_files st)
  = (skipped st + List.length (filter (fun f => negb (readable f)) ld_files))%nat.
Proof.
  cbv zeta. revert st. induction ld_files as [|f rest IH]; intro st.
  - cbn [fold_left filter List.length]. split; lia.
  - cbn [fold_left filter].
    destruct (IH (process_file read_source st f)) as [IH1 IH2].
    destruct (process_file_counts read_source st f) as [H1 H2].
    rewrite IH1, IH2, H1, H2.
    destruct (match read_source f with
              | Some info =>
                  match si_lap_times info with [] => false | _ :: _ => true end
              | None => false
              end); cbn [negb List.length]; split; lia.
Qed.

(** X16: every telemetry file is counted once.  In the result of
    [scan_telemetry], [processed] is the number of files the readers could
    read and that have at least one lap time, [skipped] is the number of
    all the others, the two add up to the number of [*.ld] entries of the
    directory, and [pbs] is the number of slots in [files_to_pb]. *)
Theorem every_file_processed_or_skipped
        (read_source : str -> option source_info) (pb_count : nat)
        (ldx_exists : str -> bool) (copy_error : str -> option str)
        (joinpath : str -> str -> str) (source_dir : directory)
        (dry_run : bool) (now : str) (r : scan_result) :
  scan_telemetry read_source pb_count ldx_exists copy_error joinpath
                 source_dir dry_run now = Return (Some r) ->
  let ld_files := map fst (glob_suffix ".ld"%string source_dir) in
  let readable f :=
    match read_source f with
    | Some info => match si_lap_times info with [] => false | _ :: _ => true end
    | None => false
    end in
  res_processed r = List.length (filter readable ld_files) /\
  res_skipped r = List.length (filter (fun f => negb (readable f)) ld_files) /\
  (res_processed r + res_skipped r = List.length ld_files)%nat /\
  res_pbs r = List.length (res_files_to_pb r).
Proof.
  intro H. cbv zeta.
  set (ld_files := map fst (glob_suffix ".ld"%string source_dir)) in *.
  destruct (process_files_counts_from
              read_source ld_files
              {| track_car_data := []; skipped := 0; processed := 0 |})
    as [Hp Hs].
  cbn [processed skipped Nat.add] in Hp, Hs.
  assert (Hres : res_processed r = processed (process_files read_source ld_files)
                 /\ res_skipped r = skipped (process_files read_source ld_files)
                 /\ res_pbs r = List.length (res_files_to_pb r)).
  { unfold scan_telemetry in H. fold ld_files in H.
    destruct ld_files as [|f rest]; [discriminate|].
    destruct dry_run.
    - injection H as H. subst r. repeat split.
    - destruct (copy_pb_files _ _ _ _ _ _) as [copied [e|]]; [discriminate|].
      injection H as H. subst r. repeat split. }
  destruct Hres as (Hrp & Hrs & Hpbs).
  unfold process_files in Hrp, Hrs. rewrite Hrp, Hrs, Hp, Hs.
  repeat split; try assumption.
  apply filter_partition_length.
Qed.

Lemma every_file_processed_or_skipped_witness :
  exists r,
    scan_telemetry example_read_source 3 (fun _ => true) (fun _ => None)
                   example_joinpath example_root true
                   ("2024-06-01_101010"%string : str) = Return (Some r)
    /\ res_processed r = 3%nat /\ res_skipped r = 1%nat.
Proof.
  destruct (scan_telemetry example_read_source 3 (fun _ => true) (fun _ => None)
                           example_joinpath example_root true
                           ("2024-06-01_101010"%string : str))
    as [[r|]|e] eqn:E; try (vm_compute in E; discriminate).
  exists r. split; [reflexivity|].
  destruct (@every_file_processed_or_skipped _ _ _ _ _ _ _ _ _ E)
    as (Hp & Hs & _).
  rewrite Hp, Hs. split; vm_compute; reflexivity.
Defined.

(** ** The copy loop, from any state *)

Section CopyErrors.
Variables (ldx_exists : str -> bool) (copy_error : str -> option str)
          (joinpath : str -> str -> str) (pbs_dir : str).







End CopyErrors.





(** ** Configuration files *)

Section ConfigFacts.
Variable V : Type.

Lemma dict_get_set (k q : str) (v : V) (d : dict str V) :
  dict_get str_eqb q (dict_set str_eqb k v d)
  = if str_eqb q k then Some v else dict_get str_eqb q d.
Proof.
  induction d as [|[k' v'] d IH]; cbn [dict_set dict_get].
  - destruct (str_eqb q k); reflexivity.
  - destruct (str_eqb k k') eqn:Ek; cbn [dict_get].
    + apply str_eqb_eq in Ek. subst k'. destruct (str_eqb q k); reflexivity.
    + rewrite IH. destruct (str_eqb q k') eqn:Eq; [|reflexivity].
      destruct (str_eqb q k) eqn:Eqk; [|reflexivity].
      apply str_eqb_eq in Eq. apply str_eqb_eq in Eqk. subst.
      rewrite str_eqb_refl in Ek. discriminate.
Qed.

Lemma dict_mem_set (k q : str) (v : V) (d : dict str V) :
  dict_mem str_eqb q (dict_set str_eqb k v d)
  = (str_eqb q k || dict_mem str_eqb q d).
Proof.
  unfold dict_mem. rewrite dict_get_set. destruct (str_eqb q k); reflexivity.
Qed.

(** A key the search skips can be set without changing what is found. *)
Lemma find_dict_set_skipped (p : str * V -> bool) (k : str) (v : V)
      (d : dict str V) :
  (forall x, p (k, x) = false) ->
  find p (dict_set str_eqb k v d) = find p d.
Proof.
  intro Hp. induction d as [|[k' v'] d IH]; cbn [dict_set find].
  - rewrite Hp. reflexivity.
  - destruct (str_eqb k k') eqn:Ek; cbn [find].
    + apply str_eqb_eq in Ek. subst k'. rewrite !Hp. reflexivity.
    + rewrite IH. reflexivity.
Qed.

(** A key set is found when no other key is accepted. *)
Lemma find_dict_set_only (p : str * V -> bool) (k : str) (v : V)
      (d : dict str V) :
  p (k, v) = true ->
  (forall k' x, In (k', x) d -> k' <> k -> p (k', x) = false) ->
  find p (dict_set str_eqb k v d) = Some (k, v).
Proof.
  intros Hp Hother. induction d as [|[k' v'] d IH]; cbn [dict_set find].
  - rewrite Hp. reflexivity.
  - destruct (str_eqb k k') eqn:Ek; cbn [find].
    + apply str_eqb_eq in Ek. subst k'. rewrite Hp. reflexivity.
    + apply str_eqb_neq in Ek.
      rewrite (Hother k' v' (or_introl eq_refl)) by congruence.
      apply IH. intros k2 x Hin. apply Hother. right. exact Hin.
Qed.

Lemma dict_get_filter_keys (q : str -> bool) (k : str) (d : dict str V) :
  dict_get str_eqb k (filter (fun kv => q (fst kv)) d)
  = if q k then dict_get str_eqb k d else None.
Proof.
  induction d as [|[k' v'] d IH]; cbn [filter dict_get fst].
  - destruct (q k); reflexivity.
  - destruct (q k') eqn:Eq; cbn [dict_get].
    + destruct (str_eqb k k') eqn:Ek.
      * apply str_eqb_eq in Ek. subst k'. rewrite Eq. reflexivity.
      * exact IH.
    + rewrite IH. destruct (str_eqb k k') eqn:Ek; [|reflexivity].
      apply str_eqb_eq in Ek. subst k'. rewrite Eq. reflexivity.
Qed.
End ConfigFacts.

Lemma load_save (files : config_dir) (name other : str) (data : config) :
  load_json_config (save_json_config files name data) other
  = if str_eqb other name then data else load_json_config files other.
Proof.
  unfold load_json_config, save_json_config. rewrite dict_get_set.
  destruct (str_eqb other name); reflexivity.
Qed.

Lemma json_get_set (key q : str) (default v : json) (d : config) :
  json_get q default (dict_set str_eqb key v d)
  = if str_eqb q key then v else json_get q default d.
Proof.
  unfold json_get. rewrite dict_get_set. destruct (str_eqb q key); reflexivity.
Qed.

(** The loop over categories and conditions, one file at a time. *)
Lemma fold_files_spec (g : config -> config) (names : list str)
      (files : config_dir) (other : str) :
  NoDup names ->
  load_json_config
    (fold_left (fun files name =>
                  save_json_config files name (g (load_json_config files name)))
               names files) other
  = if existsb (str_eqb other) names then g (load_json_config files other)
    else load_json_config files other.
Proof.
  intro Hnd. revert files.
  induction Hnd as [|name names Hnotin Hnd IH]; intro files.
  - reflexivity.
  - cbn [fold_left existsb]. rewrite IH, !load_save.
    destruct (str_eqb other name) eqn:E.
    + apply str_eqb_eq in E. subst other. cbn [orb].
      destruct (existsb (str_eqb name) names) eqn:Ex; [|reflexivity].
      exfalso. apply existsb_exists in Ex. destruct Ex as (x & Hx & Hxe).
      apply str_eqb_eq in Hxe. subst x. exact (Hnotin Hx).
    + reflexivity.
Qed.

Lemma apply_tolerance_to_all_fold (files : config_dir) (tolerance : json) :
  Settings.apply_tolerance_to_all files tolerance true
  = fold_left
      (fun files name =>
         save_json_config files name
           (dict_set str_eqb "_tolerance"%string tolerance
                     (load_json_config files name)))
      (flat_map (fun cat => [lap_times_file cat "dry"%string;
                             lap_times_file cat "wet"%string])
                VALID_CATEGORIES)
      files.
Proof. reflexivity. Qed.

Lemma find_benchmark_set_tolerance (track_lower : str) (tolerance : json)
      (cfg : config) :
  find_benchmark track_lower (dict_set str_eqb "_tolerance"%string tolerance cfg)
  = find_benchmark track_lower cfg.
Proof.
  unfold find_benchmark. rewrite find_dict_set_skipped; [reflexivity|].
  intro x. reflexivity.
Qed.

(** X19: a tolerance applied to all categories is the one the scanner
    reads.  After [apply_tolerance_to_all] has been confirmed,
    [get_tolerance] returns the applied tolerance for each of the five
    categories and both conditions; the benchmark found for any track is
    the one found before; and every other configuration file, the
    settings among them, is as it was.  When the question is declined
    nothing changes. *)
Theorem applied_tolerance_is_read_back
        (files : config_dir) (tolerance : json) :
  let files' := Settings.apply_tolerance_to_all files tolerance true in
  (forall category condition,
      In category VALID_CATEGORIES ->
      condition = ("dry"%string : str) \/ condition = ("wet"%string : str) ->
      get_tolerance files' category condition = tolerance /\
      forall track_lower,
        find_benchmark track_lower (get_lap_times_config files' category condition)
        = find_benchmark track_lower
                         (get_lap_times_config files category condition)) /\
  (forall name,
      (forall category condition,
          In category VALID_CATEGORIES ->
          condition = ("dry"%string : str) \/ condition = ("wet"%string : str) ->
          name <> lap_times_file category condition) ->
      load_json_config files' name = load_json_config files name) /\
  get_settings files' = get_settings files /\
  Settings.apply_tolerance_to_all files tolerance false = files.
Proof.
  cbv zeta. rewrite apply_tolerance_to_all_fold.
  set (names := flat_map (fun cat => [lap_times_file cat "dry"%string;
                                      lap_times_file cat "wet"%string])
                         VALID_CATEGORIES).
  assert (Hnd : NoDup names).
  { unfold names. cbn.
    repeat (constructor;
            [intro H; repeat (destruct H as [H|H]; [discriminate|]); exact H|]).
    constructor. }
  assert (Hin : forall category condition,
             In category VALID_CATEGORIES ->
             condition = ("dry"%string : str) \/ condition = ("wet"%string : str) ->
             existsb (str_eqb (lap_times_file category condition)) names = true).
  { intros category condition Hc Hcond.
    unfold VALID_CATEGORIES in Hc.
    repeat (destruct Hc as [Hc|Hc]; [subst category|]); [..|destruct Hc];
      destruct Hcond; subst condition; vm_compute; reflexivity. }
  split; [|split; [|split]].
  - intros category condition Hc Hcond.
    unfold get_tolerance, get_lap_times_config.
    rewrite (fold_files_spec _ _ _ Hnd), (Hin _ _ Hc Hcond).
    split.
    + rewrite json_get_set. reflexivity.
    + intro track_lower. apply find_benchmark_set_tolerance.
  - intros name Hname.
    rewrite (fold_files_spec _ _ _ Hnd).
    destruct (existsb (str_eqb name) names) eqn:Ex; [|reflexivity].
    exfalso. apply existsb_exists in Ex. destruct Ex as (x & Hx & Hxe).
    apply str_eqb_eq in Hxe. subst x.
    unfold names in Hx. apply in_flat_map in Hx.
    destruct Hx as (cat & Hcat & Hx).
    destruct Hx as [Hx|[Hx|[]]]; symmetry in Hx; revert Hx;
      apply Hname; auto.
  - unfold get_settings. rewrite (fold_files_spec _ _ _ Hnd).
    reflexivity.
  - reflexivity.
Qed.

(** ** Benchmarks asked for and remembered *)

Lemma py_lower_char_fixed (c : ascii) :
  py_lower_char (if Ascii.eqb " "%char (py_lower_char c) then "_"%char
                 else py_lower_char c)
  = (if Ascii.eqb " "%char (py_lower_char c) then "_"%char
     else py_lower_char c).
Proof.
  destruct c as [[] [] [] [] [] [] [] []]; vm_compute; reflexivity.
Qed.

Lemma normalize_track_map (track : str) :
  normalize_track track
  = map (fun x => if Ascii.eqb " "%char x then "_"%char else x) (py_lower track).
Proof. unfold normalize_track. apply (replace_char " "%char "_"%char). Qed.

Lemma normalize_track_lower (track : str) :
  py_lower (normalize_track track) = normalize_track track.
Proof.
  rewrite normalize_track_map. unfold py_lower. rewrite !map_map.
  apply map_ext. intro c. apply py_lower_char_fixed.
Qed.

Lemma py_lower_underscore (s : str) :
  prefixb "_"%string (py_lower s) = prefixb "_"%string s.
Proof.
  destruct s as [|c s]; [reflexivity|].
  cbn [py_lower map]. change (prefixb "_"%string (py_lower_char c :: map py_lower_char s))
    with (Ascii.eqb "_"%char (py_lower_char c) && true).
  change (prefixb "_"%string (c :: s)) with (Ascii.eqb "_"%char c && true).
  f_equal.
  destruct c as [[] [] [] [] [] [] [] []]; vm_compute; reflexivity.
Qed.

Lemma find_benchmark_underscore (track_lower : str) (cfg : config) :
  prefixb "_"%string track_lower = true ->
  find_benchmark track_lower cfg = None.
Proof.
  intro Hp. unfold find_benchmark.
  replace (find _ cfg) with (@None (str * json)); [reflexivity|].
  symmetry. induction cfg as [|[k v] cfg IH]; [reflexivity|].
  cbn [find fst].
  destruct (str_eqb (py_lower k) track_lower) eqn:E.
  - apply str_eqb_eq in E. rewrite <- E, py_lower_underscore in Hp.
    rewrite Hp. cbn [negb andb]. exact IH.
  - rewrite andb_false_r. exact IH.
Qed.

Lemma lap_times_files_differ (category : str) :
  str_eqb (lap_times_file category "dry"%string)
          (lap_times_file category "wet"%string) = false.
Proof.
  apply str_eqb_neq. unfold lap_times_file. intro H.
  apply app_inv_head in H. apply app_inv_head in H. discriminate.
Qed.

(** X20: benchmarks typed in during a scan are found by the next lookup.
    When [get_benchmark_times] has to ask (a time is missing) and saves the
    answers, a later call for the same track and category returns those
    answers without asking and changes nothing, provided the normalised
    track name does not start with an underscore and no other key of the
    two files equals it up to case (a key that differs only in case would
    be found first).  A track whose normalised name starts with an
    underscore is asked for on every call, saved or not. *)
Theorem entered_benchmarks_are_remembered
        (files : config_dir) (track category : str) (answers : Q * Q) :
  let track_lower := normalize_track track in
  let asked := get_benchmark_times files track category answers true in
  (prefixb "_"%string track_lower = true ->
   forall files' answers' auto_save,
     bm_prompted (get_benchmark_times files' track category answers' auto_save)
     = true) /\
  (prefixb "_"%string track_lower = false ->
   (forall condition key value,
       condition = ("dry"%string : str) \/ condition = ("wet"%string : str) ->
       In (key, value) (get_lap_times_config files category condition) ->
       py_lower key = track_lower -> key = track_lower) ->
   bm_prompted asked = true ->
   forall answers' auto_save,
     get_benchmark_times (bm_files asked) track category answers' auto_save
     = {| bm_dry := JNum (fst answers);
          bm_wet := JNum (snd answers);
          bm_prompted := false;
          bm_files := bm_files asked |}).
Proof.
  cbv zeta. split.
  - intros Hp files' answers' auto_save. unfold get_benchmark_times.
    rewrite (@find_benchmark_underscore (normalize_track track) _ Hp).
    destruct answers'. reflexivity.
  - intros Hp Hkeys Hasked answers' auto_save.
    destruct answers as [d w]. cbn [fst snd].
    set (tl := normalize_track track) in *.
    set (dry_config := get_lap_times_config files category "dry"%string) in *.
    set (wet_config := get_lap_times_config files category "wet"%string) in *.
    assert (Hfiles :
              bm_files (get_benchmark_times files track category (d, w) true)
              = save_lap_times_config
                  (save_lap_times_config files category "dry"%string
                     (dict_set str_eqb tl (JNum d) dry_config))
                  category "wet"%string
                  (dict_set str_eqb tl (JNum w) wet_config)).
    { unfold get_benchmark_times in Hasked |- *.
      fold tl dry_config wet_config in Hasked |- *.
      destruct (find_benchmark tl dry_config);
        destruct (find_benchmark tl wet_config); try reflexivity.
      discriminate. }
    rewrite Hfiles.
    set (files2 := save_lap_times_config _ category "wet"%string _).
    assert (Hdry : get_lap_times_config files2 category "dry"%string
                   = dict_set str_eqb tl (JNum d) dry_config).
    { unfold files2, get_lap_times_config, save_lap_times_config.
      rewrite !load_save, lap_times_files_differ, str_eqb_refl. reflexivity. }
    assert (Hwet : get_lap_times_config files2 category "wet"%string
                   = dict_set str_eqb tl (JNum w) wet_config).
    { unfold files2, get_lap_times_config, save_lap_times_config.
      rewrite !load_save, str_eqb_refl. reflexivity. }
    assert (Hfound : forall (cfg : config) (x : Q),
               (forall key value, In (key, value) cfg ->
                                  py_lower key = tl -> key = tl) ->
               find_benchmark tl (dict_set str_eqb tl (JNum x) cfg)
               = Some (JNum x)).
    { intros cfg x Hcfg. unfold find_benchmark.
      rewrite (@find_dict_set_only _ _ tl (JNum x) cfg); [reflexivity| |].
      - cbn [fst]. rewrite Hp. unfold tl at 1.
        rewrite normalize_track_lower. fold tl.
        rewrite str_eqb_refl. reflexivity.
      - intros k' v' Hin Hne. cbn [fst].
        destruct (str_eqb (py_lower k') tl) eqn:E.
        + apply str_eqb_eq in E. exfalso. apply Hne. exact (Hcfg _ _ Hin E).
        + apply andb_false_r. }
    unfold get_benchmark_times. fold tl. rewrite Hdry, Hwet.
    rewrite (Hfound dry_config d), (Hfound wet_config w).
    + reflexivity.
    + intros key value Hin Hl.
      apply (Hkeys ("wet"%string : str) key value);
        [right; reflexivity | exact Hin | exact Hl].
    + intros key value Hin Hl.
      apply (Hkeys ("dry"%string : str) key value);
        [left; reflexivity | exact Hin | exact Hl].
Qed.

Lemma get_car_category_found (files : config_dir) (car_name answer : str)
      (auto_save : bool) :
  let found :=
    dict_get str_eqb car_name
      (filter (fun kv : str * json => negb (prefixb "_"%string (fst kv)))
              (load_json_config files "car_categories.json"%string)) in
  cat_value (get_car_category files car_name answer auto_save)
  = match found with Some category => category | None => JStr answer end /\
  cat_prompted (get_car_category files car_name answer auto_save)
  = match found with Some _ => false | None => true end.
Proof.
  cbv zeta. unfold get_car_category.
  destruct (dict_get str_eqb car_name _); split; reflexivity.
Qed.

(** X21: a car category typed in during a scan is found by the next
    lookup.  When [get_car_category] has to ask and saves the answer, a
    later call for that car returns the answer without asking and changes
    nothing, and the lookup of every other car is as before.  A car whose
    name starts with an underscore is never found, so it is asked for on
    every call. *)
Theorem entered_category_is_remembered
        (files : config_dir) (car_name answer : str) :
  let asked := get_car_category files car_name answer true in
  (prefixb "_"%string car_name = true ->
   forall files' answer' auto_save,
     cat_prompted (get_car_category files' car_name answer' auto_save) = true) /\
  (prefixb "_"%string car_name = false ->
   cat_prompted asked = true ->
   forall answer' auto_save,
     get_car_category (cat_files asked) car_name answer' auto_save
     = {| cat_value := JStr answer;
          cat_prompted := false;
          cat_files := cat_files asked |}) /\
  (forall other answer' auto_save,
      other <> car_name ->
      cat_value (get_car_category (cat_files asked) other answer' auto_save)
      = cat_value (get_car_category files other answer' auto_save) /\
      cat_prompted (get_car_category (cat_files asked) other answer' auto_save)
      = cat_prompted (get_car_category files other answer' auto_save)).
Proof.
  cbv zeta. split; [|split].
  - intros Hp files' answer' auto_save. unfold get_car_category.
    rewrite (@dict_get_filter_keys json (fun k => negb (prefixb "_"%string k))).
    rewrite Hp. reflexivity.
  - intros Hp Hasked answer' auto_save.
    assert (Hfiles :
              cat_files (get_car_category files car_name answer true)
              = save_json_config files "car_categories.json"%string
                  (dict_set str_eqb car_name (JStr answer)
                     (load_json_config files "car_categories.json"%string))).
    { unfold get_car_category in Hasked |- *.
      destruct (dict_get str_eqb car_name
                  (filter (fun kv : str * json =>
                             negb (prefixb "_"%string (fst kv)))
                          (load_json_config files "car_categories.json"%string)));
        [discriminate|reflexivity]. }
    rewrite Hfiles. unfold get_car_category.
    rewrite load_save, str_eqb_refl.
    rewrite (@dict_get_filter_keys json (fun k => negb (prefixb "_"%string k))), Hp.
    cbn [negb]. rewrite dict_get_set, str_eqb_refl. reflexivity.
  - intros other answer' auto_save Hne.
    assert (E : str_eqb other car_name = false)
      by (apply str_eqb_neq; exact Hne).
    assert (Hget :
              dict_get str_eqb other
                (filter (fun kv : str * json => negb (prefixb "_"%string (fst kv)))
                   (load_json_config
                      (cat_files (get_car_category files car_name answer true))
                      "car_categories.json"%string))
              = dict_get str_eqb other
                  (filter (fun kv : str * json =>
                             negb (prefixb "_"%string (fst kv)))
                          (load_json_config files "car_categories.json"%string))).
    { unfold get_car_category.
      destruct (dict_get str_eqb car_name
                  (filter (fun kv : str * json =>
                             negb (prefixb "_"%string (fst kv)))
                          (load_json_config files "car_categories.json"%string)));
        [reflexivity|].
      cbn [cat_files]. rewrite load_save, str_eqb_refl.
      rewrite !(@dict_get_filter_keys json (fun k => negb (prefixb "_"%string k))).
      rewrite dict_get_set, E. reflexivity. }
    destruct (get_car_category_found
                (cat_files (get_car_category files car_name answer true))
                other answer' auto_save) as [H1 H2].
    destruct (get_car_category_found files other answer' auto_save) as [H3 H4].
    rewrite H1, H2, H3, H4, Hget. split; reflexivity.
Qed.

(** ** The settings editor *)

Lemma settings_in_range_step (settings : config) (e : Settings.edit) :
  ((exists n, json_get "pb_count"%string (JNum 3) settings = JNum (inject_Z n)
              /\ (1 <= n <= 10)%Z) /\
   (exists t, json_get "default_tolerance"%string (JNum 0.05) settings = JNum t
              /\ 0.01 <= t /\ t <= 0.50)) ->
  ((exists n, json_get "pb_count"%string (JNum 3) (Settings.apply_edit settings e)
              = JNum (inject_Z n) /\ (1 <= n <= 10)%Z) /\
   (exists t, json_get "default_tolerance"%string (JNum 0.05)
                       (Settings.apply_edit settings e) = JNum t
              /\ 0.01 <= t /\ t <= 0.50)).
Proof.
  intros [Hn Ht].
  destruct e as [p|p|[count|]|[tol|]]; cbn [Settings.apply_edit];
    unfold Settings.edit_path_setting, Settings.edit_pb_count,
           Settings.edit_default_tolerance.
  - destruct p; [split; assumption|].
    rewrite !json_get_set. split; assumption.
  - destruct p; [split; assumption|].
    rewrite !json_get_set. split; assumption.
  - destruct ((1 <=? count) && (count <=? 10))%Z eqn:E; [|split; assumption].
    apply andb_true_iff in E. destruct E as [E1 E2].
    apply Z.leb_le in E1. apply Z.leb_le in E2.
    rewrite !json_get_set. split; [|exact Ht].
    exists count. split; [reflexivity|lia].
  - split; assumption.
  - destruct (Qle_bool 0.01 tol && Qle_bool tol 0.50) eqn:E; [|split; assumption].
    apply andb_true_iff in E. destruct E as [E1 E2].
    apply Qle_bool_iff in E1. apply Qle_bool_iff in E2.
    rewrite !json_get_set. split; [exact Hn|].
    exists tol. split; [reflexivity|]. split; assumption.
  - split; assumption.
Qed.

Lemma with_defaults_get (key : str) (default : json) (settings : config) :
  key = ("pb_count"%string : str) /\ default = JNum 3
  \/ key = ("default_tolerance"%string : str) /\ default = JNum 0.05 ->
  json_get key default (Settings.with_defaults settings)
  = json_get key default settings.
Proof.
  intro Hk. unfold Settings.with_defaults.
  assert (Hset : forall k v (s : config),
             (str_eqb key k = true -> v = default) ->
             json_get key default
                      (if dict_mem str_eqb k s then s else dict_set str_eqb k v s)
             = json_get key default s).
  { intros k v s Hkv. destruct (dict_mem str_eqb k s) eqn:Em; [reflexivity|].
    rewrite json_get_set. destruct (str_eqb key k) eqn:E; [|reflexivity].
    apply str_eqb_eq in E. subst k. rewrite (Hkv eq_refl).
    unfold json_get. unfold dict_mem in Em.
    destruct (dict_get str_eqb key s); [discriminate|reflexivity]. }
  rewrite !Hset; try reflexivity;
    destruct Hk as [[Hk Hd]|[Hk Hd]]; subst key default;
    intro H; try reflexivity; vm_compute in H; discriminate.
Qed.

(** X22: the settings editor keeps the settings in range.  If the number
    of personal bests read by [get_pb_count] is a whole number from 1 to 10
    and the default tolerance read by [get_default_tolerance] lies between
    1% and 50% (as they do when the settings file does not exist or does not
    set them: 3 and 5%), they still are after any session of the settings
    editor, whatever is typed; an entry outside the range, or that is not a
    number, leaves the stored value as it was. *)
Theorem settings_stay_in_range
        (files : config_dir) (edits : list Settings.edit) :
  let in_range files :=
    (exists n, get_pb_count files = JNum (inject_Z n) /\ (1 <= n <= 10)%Z) /\
    (exists t, get_default_tolerance files = JNum t /\ 0.01 <= t /\ t <= 0.50) in
  in_range [] /\
  (in_range files -> in_range (Settings.settings_editor files edits)) /\
  (forall settings count,
      ~ (1 <= count <= 10)%Z ->
      Settings.edit_pb_count settings (Some count) = settings) /\
  (forall settings new_tol,
      ~ (0.01 <= new_tol /\ new_tol <= 0.50) ->
      Settings.edit_default_tolerance settings (Some new_tol) = settings).
Proof.
  cbv zeta. split; [|split; [|split]].
  - split.
    + exists 3%Z. split; [reflexivity|lia].
    + exists 0.05. split; [reflexivity|]. split; lra.
  - intro H. unfold Settings.settings_editor.
    destruct edits as [|e edits]; [exact H|].
    unfold get_pb_count, get_default_tolerance, get_settings in *.
    rewrite load_save, str_eqb_refl.
    assert (Hstart :
              (exists n, json_get "pb_count"%string (JNum 3)
                           (Settings.with_defaults
                              (load_json_config files "settings.json"%string))
                         = JNum (inject_Z n) /\ (1 <= n <= 10)%Z) /\
              (exists t, json_get "default_tolerance"%string (JNum 0.05)
                           (Settings.with_defaults
                              (load_json_config files "settings.json"%string))
                         = JNum t /\ 0.01 <= t /\ t <= 0.50)).
    { rewrite !with_defaults_get by (first [left; split; reflexivity
                                           | right; split; reflexivity]).
      exact H. }
    revert Hstart.
    generalize (Settings.with_defaults
                  (load_json_config files "settings.json"%string)).
    generalize (e :: edits). clear.
    intro l. induction l as [|e l IH]; intros s Hs; [exact Hs|].
    cbn [fold_left]. apply IH. apply settings_in_range_step. exact Hs.
  - intros settings count Hc. unfold Settings.edit_pb_count.
    destruct ((1 <=? count) && (count <=? 10))%Z eqn:E; [|reflexivity].
    exfalso. apply Hc. apply andb_true_iff in E. destruct E as [E1 E2].
    apply Z.leb_le in E1. apply Z.leb_le in E2. lia.
  - intros settings new_tol Hc. unfold Settings.edit_default_tolerance.
    destruct (Qle_bool 0.01 new_tol && Qle_bool new_tol 0.50) eqn:E;
      [|reflexivity].
    exfalso. apply Hc. apply andb_true_iff in E. destruct E as [E1 E2].
    apply Qle_bool_iff in E1. apply Qle_bool_iff in E2. split; assumption.
Qed.


(** ** Lap times typed in *)









(** ** Menus *)

Lemma mod_wrap (n r a : Z) (q : Z) :
  (0 <= r < n)%Z -> (a = n * q + r)%Z -> (a mod n = r)%Z.
Proof.
  intros Hr Ha. symmetry. apply (Z.mod_unique a n q r); [left; exact Hr|exact Ha].
Qed.

Lemma move_selection_range (n selected : Z) (key : menu_key) :
  (0 < n)%Z -> (0 <= selected < n)%Z ->
  (0 <= move_selection n selected key < n)%Z.
Proof.
  intros Hn Hs. destruct key; cbn [move_selection]; try exact Hs;
    apply Z.mod_pos_bound; exact Hn.
Qed.

(** X24: the selection of a menu.  In a menu of [n] options the selection
    stays on an option whatever key is pressed; Up and Down undo each
    other; Up on the first option goes to the last one and Down on the last
    one to the first.  In the main menu, which starts on its first option,
    every entry launched is one of the six entries above Exit, whatever the
    keys pressed. *)
Theorem menu_selection_stays_on_an_option :
  (forall n selected key,
      (0 < n)%Z -> (0 <= selected < n)%Z ->
      (0 <= move_selection n selected key < n)%Z /\
      move_selection n (move_selection n selected DOWN) UP = selected /\
      move_selection n (move_selection n selected UP) DOWN = selected) /\
  (forall n, (0 < n)%Z ->
     move_selection n 0 UP = (n - 1)%Z /\
     move_selection n (n - 1) DOWN = 0%Z) /\
  (forall keys, Forall (fun entry => (0 <= entry <= 5)%Z) (main_menu 0 keys)).
Proof.
  split; [|split].
  - intros n selected key Hn Hs.
    split; [apply move_selection_range; assumption|].
    cbn [move_selection]. split.
    + destruct (Z.eq_dec (selected + 1) n) as [E|E].
      * rewrite (@mod_wrap n 0 (selected + 1) 1) by lia.
        apply (@mod_wrap n selected (0 - 1) (-1)); lia.
      * rewrite (@mod_wrap n (selected + 1) (selected + 1) 0) by lia.
        apply (@mod_wrap n selected (selected + 1 - 1) 0); lia.
    + destruct (Z.eq_dec selected 0) as [E|E].
      * rewrite (@mod_wrap n (n - 1) (selected - 1) (-1)) by lia.
        apply (@mod_wrap n selected (n - 1 + 1) 1); lia.
      * rewrite (@mod_wrap n (selected - 1) (selected - 1) 0) by lia.
        apply (@mod_wrap n selected (selected - 1 + 1) 0); lia.
  - intros n Hn. cbn [move_selection]. split.
    + apply (@mod_wrap n (n - 1) (0 - 1) (-1)); lia.
    + apply (@mod_wrap n 0 (n - 1 + 1) 1); lia.
  - intro keys.
    assert (H : forall selected, (0 <= selected < 7)%Z ->
                  Forall (fun entry => (0 <= entry <= 5)%Z)
                         (main_menu selected keys)).
    { induction keys as [|key rest IH]; intros selected Hs; [constructor|].
      cbn [main_menu].
      destruct key.
      - apply IH. apply move_selection_range; [lia|exact Hs].
      - apply IH. apply move_selection_range; [lia|exact Hs].
      - destruct (selected =? 6)%Z eqn:E; [constructor|].
        apply Z.eqb_neq in E. constructor; [lia|]. apply IH. exact Hs.
      - constructor.
      - apply IH. exact Hs. }
    apply H. lia.
Qed.


(** ** Undo, step by step *)

Section SortRemoveFacts.
Variables (A K : Type) (ltb : K -> K -> bool) (key : A -> K).
Hypothesis ltb_asym : forall a b, ltb a b = true -> ltb b a = false.

Lemma insert_by_key_last (x : A) (l : list A) :
  (forall y, In y l -> ltb (key y) (key x) = true) ->
  insert_by_key ltb key x l = l ++ [x].
Proof.
  induction l as [|y l IH]; intro H; [reflexivity|].
  cbn [insert_by_key app]. rewrite (H y (or_introl eq_refl)).
  rewrite IH; [reflexivity|]. intros z Hz. apply H. right. exact Hz.
Qed.

Lemma insert_by_key_snoc (a c : A) (l : list A) :
  ltb (key c) (key a) = false ->
  insert_by_key ltb key a (l ++ [c]) = insert_by_key ltb key a l ++ [c].
Proof.
  intro H. induction l as [|y l IH]; cbn [insert_by_key app].
  - rewrite H. reflexivity.
  - destruct (ltb (key y) (key a)); [rewrite IH|]; reflexivity.
Qed.

(** An element that sorts last can be taken out before sorting. *)
Lemma sort_by_key_remove_last (l1 l2 : list A) (c : A) :
  (forall y, In y l1 -> ltb (key c) (key y) = false) ->
  (forall y, In y l2 -> ltb (key y) (key c) = true) ->
  sort_by_key ltb key (l1 ++ c :: l2) = sort_by_key ltb key (l1 ++ l2) ++ [c].
Proof.
  intros H1 H2. induction l1 as [|a l1 IH]; cbn [app sort_by_key].
  - apply insert_by_key_last. intros y Hy. apply H2.
    apply (@sort_by_key_in A K ltb key). exact Hy.
  - rewrite IH by (intros y Hy; apply H1; right; exact Hy).
    apply insert_by_key_snoc. apply H1. left. reflexivity.
Qed.

Lemma sort_by_key_reverse_stable
      (leb_trans : forall a b c, ltb b a = false -> ltb c b = false -> ltb c a = false)
      (k : K) (l : list A) :
  filter (same_key ltb key k) (sort_by_key_reverse ltb key l)
  = filter (same_key ltb key k) l.
Proof.
  unfold sort_by_key_reverse.
  rewrite filter_rev, (@sort_by_key_stable A K ltb key leb_trans), filter_rev,
    rev_involutive.
  reflexivity.
Qed.

(** The head of a descending sort can be taken out before sorting. *)
Lemma sort_by_key_reverse_remove_head
      (leb_trans : forall a b c, ltb b a = false -> ltb c b = false -> ltb c a = false)
      (l1 l2 rest : list A) (c : A) :
  ~ In c l1 ->
  sort_by_key_reverse ltb key (l1 ++ c :: l2) = c :: rest ->
  sort_by_key_reverse ltb key (l1 ++ l2) = rest.
Proof.
  intros Hnotin Hsort.
  destruct (@sort_by_key_reverse_head A K ltb key ltb_asym leb_trans _ _ _ Hsort)
    as [_ Hmax].
  assert (Hirr : ltb (key c) (key c) = false).
  { destruct (ltb (key c) (key c)) eqn:E; [|reflexivity].
    pose proof (ltb_asym E). congruence. }
  assert (Hstrict : forall y, In y l1 -> ltb (key y) (key c) = true).
  { pose proof (sort_by_key_reverse_stable leb_trans (key c) (l1 ++ c :: l2))
      as Hst.
    rewrite Hsort, filter_app in Hst. cbn [filter] in Hst.
    unfold same_key at 1 3 in Hst. rewrite Hirr in Hst. cbn [negb andb] in Hst.
    assert (Hnil : filter (same_key ltb key (key c)) l1 = []).
    { destruct (filter (same_key ltb key (key c)) l1) as [|y f] eqn:Ef;
        [reflexivity|].
      exfalso. cbn [app] in Hst. injection Hst as Hy _. subst y.
      assert (Hin : In c (filter (same_key ltb key (key c)) l1))
        by (rewrite Ef; left; reflexivity).
      apply filter_In in Hin. exact (Hnotin (proj1 Hin)). }
    intros y Hy.
    assert (Hs : same_key ltb key (key c) y = false).
    { destruct (same_key ltb key (key c) y) eqn:E; [|reflexivity].
      exfalso.
      assert (Hin : In y (filter (same_key ltb key (key c)) l1))
        by (apply filter_In; split; assumption).
      rewrite Hnil in Hin. exact Hin. }
    unfold same_key in Hs.
    rewrite (Hmax y) in Hs by (apply in_or_app; left; exact Hy).
    destruct (ltb (key y) (key c)); [reflexivity|discriminate]. }
  unfold sort_by_key_reverse in *.
  rewrite rev_app_distr in Hsort. cbn [rev] in Hsort.
  rewrite <- app_assoc in Hsort. cbn [app] in Hsort.
  rewrite sort_by_key_remove_last in Hsort.
  - rewrite rev_app_distr in Hsort. cbn [rev app] in Hsort.
    injection Hsort as Hsort. rewrite rev_app_distr. exact Hsort.
  - intros y Hy. apply Hmax. apply in_or_app. right. right.
    apply in_rev. exact Hy.
  - intros y Hy. apply Hstrict. apply in_rev. exact Hy.
Qed.
End SortRemoveFacts.

Lemma remove_entry_split {X : Type} (name : str) (x : X) (d : list (str * X)) :
  NoDup (map fst d) -> In (name, x) d ->
  exists d1 d2,
    d = d1 ++ (name, x) :: d2 /\ remove_entry name d = d1 ++ d2
    /\ ~ In name (map fst d1).
Proof.
  induction d as [|[n y] d IH]; intros Hnd Hin; [destruct Hin|].
  inversion Hnd as [|? ? Hn Hd]; subst.
  cbn [remove_entry]. destruct (str_eqb n name) eqn:E.
  - apply str_eqb_eq in E. subst n.
    destruct Hin as [Hin|Hin].
    + injection Hin as Hin. subst y. exists [], d. repeat split. intros [].
    + exfalso. apply Hn. apply in_map_iff. exists (name, x). split; [reflexivity|exact Hin].
  - apply str_eqb_neq in E.
    destruct Hin as [Hin|Hin]; [injection Hin as Hin _; contradiction|].
    destruct (IH Hd Hin) as (d1 & d2 & Hd1 & Hr & Hnot).
    exists ((n, y) :: d1), d2. split; [rewrite Hd1; reflexivity|].
    split; [rewrite Hr; reflexivity|].
    intros [H|H]; [exact (E H)|exact (Hnot H)].
Qed.

(** A successful undo removes the newest output directory. *)
Lemma undo_success (d d' : directory) (name msg : str) :
  NoDup (map fst d) ->
  undo_last_scan (Some d) = (Some d', (Some name, msg)) ->
  exists folder ts file_count rest,
    get_undo_candidates (Some d) = (folder, ts, file_count) :: rest
    /\ name = fst folder /\ In folder d
    /\ pb_folder_timestamp folder = Some ts
    /\ file_count
       = List.length (glob_suffix ".ld"%string (children_of (snd folder)))
    /\ d' = remove_entry name d.
Proof.
  intros Hnd Hundo.
  destruct (get_undo_candidates (Some d)) as [|[[folder ts] file_count] rest] eqn:Ec.
  - unfold undo_last_scan in Hundo. rewrite Ec in Hundo. discriminate.
  - destruct (get_undo_candidates_head _ Ec) as (Hin & Hts & Hcount & _).
    destruct (pb_folder_is_dir _ Hts) as (sz & children & ue & re & Hdir).
    destruct folder as [fname fnode]. cbn [snd] in Hdir. subst fnode.
    assert (Hlook : lookup_entry fname d = Some (Dir sz children ue re))
      by (apply lookup_entry_unique; assumption).
    unfold undo_last_scan in Hundo. rewrite Ec in Hundo.
    cbn [fst snd children_of] in Hundo.
    rewrite (@unlink_all_spec fname sz ue re children d Hlook) in Hundo.
    destruct (snd (remaining_children children)) as [e|] eqn:Erem;
      [discriminate|].
    assert (Hlook1 : lookup_entry fname
                       (replace_entry fname
                          (Dir sz (fst (remaining_children children)) ue re) d)
                     = Some (Dir sz (fst (remaining_children children)) ue re))
      by (eapply lookup_entry_replace; exact Hlook).
    rewrite (@remaining_children_done children Erem) in Hlook1, Hundo.
    unfold rmdir in Hundo. rewrite Hlook1 in Hundo.
    destruct re as [e|]; [discriminate|].
    injection Hundo as Hd' Hname _. subst name.
    exists (fname, Dir sz children ue None), ts, file_count, rest.
    split; [reflexivity|]. split; [reflexivity|].
    split; [exact Hin|]. split; [exact Hts|]. split; [exact Hcount|].
    rewrite <- Hd'. apply remove_entry_replace.
Qed.

(** X25: each undo steps back by one scan.  In a directory whose entries
    have distinct names, after [undo_last_scan] has succeeded the
    candidates of [get_undo_candidates] are the former candidates without
    the first, and the folders of [find_previous_pb_folders] are the former
    ones without the first: a second undo deletes the output directory of
    the scan before, and the next scan compares against that directory. *)
Theorem undo_steps_back_one_scan (d d' : directory) (name msg : str) :
  NoDup (map fst d) ->
  undo_last_scan (Some d) = (Some d', (Some name, msg)) ->
  get_undo_candidates (Some d') = tl (get_undo_candidates (Some d)) /\
  find_previous_pb_folders d' = tl (find_previous_pb_folders d) /\
  NoDup (map fst d').
Proof.
  intros Hnd Hundo.
  destruct (@undo_success d d' name msg Hnd Hundo)
    as (folder & ts & file_count & rest & Hc & Hname & Hin & Hts & Hcount & Hd').
  assert (Hcand : get_undo_candidates (Some d') = rest).
  { destruct folder as [fname fnode]. cbn [fst] in Hname. subst name.
    destruct (@remove_entry_split _ fname fnode d Hnd Hin)
      as (d1 & d2 & Hd & Hr & Hnot).
    rewrite Hd', Hr.
    unfold get_undo_candidates in Hc |- *.
    rewrite Hd in Hc. rewrite flat_map_app in Hc |- *.
    cbn [flat_map] in Hc. rewrite Hts in Hc. cbn [app] in Hc.
    rewrite <- Hcount in Hc.
    eapply (@sort_by_key_reverse_remove_head
              _ _ datetime_ltb (fun c => snd (fst c))
              datetime_ltb_asym datetime_leb_trans);
      [|exact Hc].
    intro Hbad. apply in_undo_candidates in Hbad.
    destruct Hbad as (Hbad & _). apply Hnot.
    apply in_map_iff. exists (fname, fnode). split; [reflexivity|exact Hbad]. }
  split; [rewrite Hcand, Hc; reflexivity|].
  split.
  - rewrite <- !undo_candidates_fst, Hcand, Hc. reflexivity.
  - rewrite Hd'. apply remove_entry_names. exact Hnd.
Qed.

Lemma undo_steps_back_one_scan_witness :
  exists d',
    fst (undo_last_scan (Some example_root)) = Some d'
    /\ map (fun c => fst (fst (fst c))) (get_undo_candidates (Some d'))
       = [("PBs_2023-01-01_120000"%string : str)].
Proof.
  destruct (undo_last_scan (Some example_root)) as [[d'|] [[name|] msg]] eqn:E;
    try (vm_compute in E; discriminate).
  exists d'. split; [reflexivity|].
  destruct (@undo_steps_back_one_scan example_root d' name msg
              example_root_names E) as (H & _).
  rewrite H. vm_compute. reflexivity.
Defined.

(** ** Cleanup, run again *)

Lemma remove_entry_filter (name : str) (d : directory) :
  NoDup (map fst d) ->
  remove_entry name d = filter (fun x => negb (str_eqb (fst x) name)) d.
Proof.
  induction d as [|[n y] d IH]; intro Hnd; [reflexivity|].
  inversion Hnd as [|? ? Hn Hd]; subst.
  cbn [remove_entry filter fst]. destruct (str_eqb n name) eqn:E; cbn [negb].
  - apply str_eqb_eq in E. subst n.
    transitivity (remove_entry name d);
      [symmetry; apply (@remove_entry_absent _ name d Hn)|apply IH; exact Hd].
  - rewrite IH by exact Hd. reflexivity.
Qed.

Lemma filter_names_nodup (p : str * node -> bool) (d : directory) :
  NoDup (map fst d) -> NoDup (map fst (filter p d)).
Proof.
  induction d as [|e d IH]; intro H; [constructor|].
  inversion H as [|? ? He Hd]; subst. cbn [filter].
  destruct (p e); [|apply IH; exact Hd].
  cbn [map]. constructor; [|apply IH; exact Hd].
  intro Hin. apply He. apply in_map_iff in Hin. destruct Hin as (x & Hx & Hin).
  apply filter_In in Hin. apply in_map_iff. exists x. split; [exact Hx|apply Hin].
Qed.

Lemma filter_filter {X : Type} (p q : X -> bool) (l : list X) :
  filter p (filter q l) = filter (fun x => q x && p x) l.
Proof.
  induction l as [|x l IH]; [reflexivity|].
  cbn [filter]. destruct (q x); cbn [filter andb]; [destruct (p x)|];
    rewrite IH; reflexivity.
Qed.

(** What a cleanup leaves behind, as a filter of the directory. *)
Lemma cleanup_fold_filter (cands : list (str * node)) (d : directory) :
  NoDup (map fst d) ->
  fold_left (fun d e => if deletable e then remove_entry (fst e) d else d) cands d
  = filter (fun x => negb (existsb (fun e => deletable e
                                             && str_eqb (fst x) (fst e)) cands)) d.
Proof.
  revert d. induction cands as [|e cands IH]; intros d Hnd.
  - cbn [fold_left existsb negb]. symmetry. apply forallb_filter_id.
    apply forallb_forall. reflexivity.
  - cbn [fold_left existsb]. destruct (deletable e) eqn:Ed.
    + rewrite IH by (apply remove_entry_names; exact Hnd).
      rewrite (@remove_entry_filter (fst e) d Hnd), filter_filter.
      apply filter_ext. intro x. cbn [andb].
      destruct (str_eqb (fst x) (fst e)); reflexivity.
    + rewrite IH by exact Hnd. reflexivity.
Qed.

Lemma cleanup_entries_filter (p : str * node -> bool) (d : directory) :
  cleanup_entries (filter p d) = filter p (cleanup_entries d).
Proof.
  unfold cleanup_entries, glob_suffix.
  rewrite filter_app, !filter_filter.
  f_equal; apply filter_ext; intro x; apply andb_comm.
Qed.

Lemma cleanup_leaves_failures (d : directory) :
  NoDup (map fst d) ->
  let d' := fold_left (fun d e => if deletable e then remove_entry (fst e) d else d)
                      (cleanup_entries d) d in
  NoDup (map fst d') /\
  cleanup_entries d' = filter (fun e => negb (deletable e)) (cleanup_entries d).
Proof.
  intro Hnd. cbv zeta. rewrite (@cleanup_fold_filter (cleanup_entries d) d Hnd).
  split; [apply filter_names_nodup; exact Hnd|].
  rewrite cleanup_entries_filter. apply filter_ext_in. intros x Hx.
  destruct (deletable x) eqn:Ed; cbn [negb].
  - apply negb_false_iff. apply existsb_exists. exists x.
    split; [exact Hx|]. rewrite Ed, str_eqb_refl. reflexivity.
  - apply negb_true_iff.
    destruct (existsb _ (cleanup_entries d)) eqn:Ex; [|reflexivity].
    exfalso. apply existsb_exists in Ex. destruct Ex as (e & He & Hb).
    apply andb_true_iff in Hb. destruct Hb as [Hde Hname].
    apply str_eqb_eq in Hname.
    apply cleanup_entries_spec in Hx. apply cleanup_entries_spec in He.
    assert (x = e)
      by (apply (@entry_unique d x e Hnd); [apply Hx|apply He|exact Hname]).
    subst e. congruence.
Qed.

Lemma fold_nothing_deletable (cands : list (str * node)) (d : directory) :
  (forall e, In e cands -> deletable e = false) ->
  fold_left (fun d e => if deletable e then remove_entry (fst e) d else d) cands d
  = d.
Proof.
  revert d. induction cands as [|e cands IH]; intros d H; [reflexivity|].
  cbn [fold_left]. rewrite (H e (or_introl eq_refl)).
  apply IH. intros x Hx. apply H. right. exact Hx.
Qed.

(** X26: a second cleanup finds only what the first could not delete.
    In a directory whose entries have distinct names, after
    [cleanup_old_files] the candidates of [get_cleanup_candidates] are the
    former candidates that could not be unlinked, in the same order, as
    many as the errors reported; running [cleanup_old_files] again deletes
    nothing, leaves the directory as it is, and reports the same errors. *)
Theorem second_cleanup_finds_only_failures
        (d d' : directory) (success_count error_count : nat) (errors : list str) :
  NoDup (map fst d) ->
  cleanup_old_files (Some d) = (Some d', (success_count, error_count, errors)) ->
  files (get_cleanup_candidates (Some d'))
  = map (fun e => [fst e])
        (filter (fun e => negb (deletable e)) (cleanup_entries d)) /\
  count (get_cleanup_candidates (Some d')) = error_count /\
  cleanup_old_files (Some d') = (Some d', (0%nat, error_count, errors)).
Proof.
  intros Hnd Hrun.
  rewrite (@cleanup_old_files_spec d Hnd) in Hrun.
  injection Hrun as Hd' Hs He Herr.
  destruct (@cleanup_leaves_failures d Hnd) as [Hnd' Hentries].
  rewrite Hd' in Hnd', Hentries.
  assert (Hfiles : files (get_cleanup_candidates (Some d'))
                   = map (fun e => [fst e])
                         (filter (fun e => negb (deletable e)) (cleanup_entries d))).
  { rewrite cleanup_candidate_files, Hentries. reflexivity. }
  assert (Hnone : forall e,
             In e (filter (fun e => negb (deletable e)) (cleanup_entries d)) ->
             deletable e = false).
  { intros e H. apply filter_In in H. destruct H as [_ H].
    apply negb_true_iff in H. exact H. }
  split; [exact Hfiles|]. split.
  - unfold get_cleanup_candidates in Hfiles |- *. cbn [count files] in Hfiles |- *.
    rewrite Hfiles, length_map. exact He.
  - rewrite (@cleanup_old_files_spec d' Hnd'), Hentries.
    rewrite (@fold_nothing_deletable _ d' Hnone).
    set (l := cleanup_entries d) in *.
    assert (H1 : filter deletable (filter (fun e => negb (deletable e)) l) = []).
    { rewrite filter_filter.
      clear. induction l as [|x l IH]; [reflexivity|].
      cbn [filter]. destruct (deletable x); cbn [negb andb]; exact IH. }
    assert (H2 : filter (fun e => negb (deletable e))
                        (filter (fun e => negb (deletable e)) l)
                 = filter (fun e => negb (deletable e)) l).
    { rewrite filter_filter. apply filter_ext.
      intro x. destruct (deletable x); reflexivity. }
    assert (H3 : flat_map cleanup_message (filter (fun e => negb (deletable e)) l)
                 = flat_map cleanup_message l).
    { clear. induction l as [|x l IH]; [reflexivity|].
      cbn [filter flat_map]. unfold deletable at 1.
      destruct (unlink_error_of (snd x)) as [err|] eqn:E; cbn [negb].
      - cbn [flat_map]. rewrite IH. reflexivity.
      - rewrite IH. unfold cleanup_message at 2. rewrite E. reflexivity. }
    rewrite H1, H2, H3, He, Herr. reflexivity.
Qed.

Lemma second_cleanup_finds_only_failures_witness :
  exists d',
    fst (cleanup_old_files (Some example_root)) = Some d'
    /\ files (get_cleanup_candidates (Some d'))
       = [[("c.ld"%string : str)]].
Proof.
  destruct (cleanup_old_files (Some example_root))
    as [[d'|] [[s e] errs]] eqn:E; [|vm_compute in E; discriminate].
  exists d'. split; [reflexivity|].
  destruct (@second_cleanup_finds_only_failures example_root d' s e errs
              example_root_names E) as (H & _).
  rewrite H. vm_compute. reflexivity.
Defined.

(** ** The name of the companion copy *)

Lemma replace_ld_skip (c : ascii) (r : str) :
  c <> "."%char ->
  replace_from ".ld"%string ".ldx"%string (c :: r) 0
  = c :: replace_from ".ld"%string ".ldx"%string r 0.
Proof.
  intro H.
  change (replace_from ".ld"%string ".ldx"%string (c :: r) 0)
    with (if Ascii.eqb "."%char c && prefixb ("ld"%string : str) r
          then (".ldx"%string : str)
                 ++ replace_from ".ld"%string ".ldx"%string r 2
          else c :: replace_from ".ld"%string ".ldx"%string r 0).
  destruct (Ascii.eqb "."%char c) eqn:E; [|reflexivity].
  apply Ascii.eqb_eq in E. congruence.
Qed.

Lemma replace_ld_app (s r : str) :
  ~ In "."%char s ->
  replace_from ".ld"%string ".ldx"%string (s ++ r) 0
  = s ++ replace_from ".ld"%string ".ldx"%string r 0.
Proof.
  induction s as [|c s IH]; intro H; [reflexivity|].
  cbn [app]. rewrite replace_ld_skip.
  - rewrite IH; [reflexivity|]. intro Hin. apply H. right. exact Hin.
  - intro E. apply H. left. exact E.
Qed.

Lemma replace_ld_dot (c : ascii) (r : str) :
  c <> "l"%char ->
  replace_from ".ld"%string ".ldx"%string ("."%char :: c :: r) 0
  = "."%char :: replace_from ".ld"%string ".ldx"%string (c :: r) 0.
Proof.
  intro H.
  change (replace_from ".ld"%string ".ldx"%string ("."%char :: c :: r) 0)
    with (if Ascii.eqb "l"%char c && prefixb ("d"%string : str) r
          then (".ldx"%string : str)
                 ++ replace_from ".ld"%string ".ldx"%string (c :: r) 2
          else "."%char :: replace_from ".ld"%string ".ldx"%string (c :: r) 0).
  destruct (Ascii.eqb "l"%char c) eqn:E; [|reflexivity].
  apply Ascii.eqb_eq in E. congruence.
Qed.

Lemma digits_no_dot (s : str) :
  forallb is_digit s = true -> ~ In "."%char s.
Proof.
  intros H Hin. rewrite forallb_forall in H. specialize (H _ Hin). discriminate.
Qed.

Lemma str_of_Z_no_dot (z : Z) : ~ In "."%char (str_of_Z z).
Proof.
  destruct z as [|p|p]; cbn [str_of_Z].
  - apply digits_no_dot, str_of_N_digits.
  - apply digits_no_dot, str_of_N_digits.
  - intros [E|Hin]; [discriminate|].
    exact (@digits_no_dot _ (str_of_N_digits (N.pos p)) Hin).
Qed.

Lemma rank_suffix_no_dot (rank : Z) : ~ In "."%char (rank_suffix rank).
Proof.
  assert (Hth : ~ In "."%char (str_of_Z rank ++ ("th"%string : str))).
  { intro Hin. apply in_app_or in Hin. destruct Hin as [Hin|Hin].
    - exact (str_of_Z_no_dot _ Hin).
    - cbn in Hin. destruct Hin as [E|[E|[]]]; discriminate. }
  assert (Hfix : forall s : str,
             forallb (fun c => negb (Ascii.eqb c "."%char)) s = true ->
             ~ In "."%char s).
  { intros s H Hin. rewrite forallb_forall in H. specialize (H _ Hin).
    discriminate. }
  unfold rank_suffix.
  destruct rank as [|[[p|p|]|[p|p|]|]|p];
    first [exact Hth | apply Hfix; reflexivity].
Qed.

Lemma replaced_date_no_dot (date_str : str) :
  ~ In "."%char (replace "."%string "-"%string date_str).
Proof.
  intro Hin.
  change (replace "."%string "-"%string date_str)
    with (replace ["."%char] ["-"%char] date_str) in Hin.
  rewrite replace_char in Hin. apply in_map_iff in Hin.
  destruct Hin as (x & Hx & Hin).
  destruct (Ascii.eqb "."%char x) eqn:E; [discriminate|].
  subst x. discriminate.
Qed.

(** The seconds field of a file name: characters without a dot, one dot,
    and three digits. *)
Lemma format_3f_shape (x : Q) :
  exists (whole : str) (a b c : ascii),
    format_3f x = whole ++ "."%char :: [a; b; c] /\
    ~ In "."%char whole /\
    is_digit a = true /\ is_digit b = true /\ is_digit c = true.
Proof.
  unfold format_3f.
  set (n := py_round (Qabs x * 1000)).
  assert (Hd : forall k, is_digit (digit_char (k mod 10)) = true)
    by (intro k; apply is_digit_digit_char; apply N.mod_lt; discriminate).
  assert (Ha : is_digit (digit_char (Z.to_N (n mod 1000) / 100)) = true).
  { apply is_digit_digit_char.
    assert (0 <= n mod 1000 < 1000)%Z by (apply Z.mod_pos_bound; lia).
    apply N.Div0.div_lt_upper_bound. lia. }
  destruct (Qlt_bool x 0).
  - exists ("-"%char :: str_of_Z (n / 1000)).
    do 3 eexists. split; [unfold digits3; reflexivity|]. split; [|split; [exact Ha|split; apply Hd]].
    intros [E|Hin]; [discriminate|]. exact (str_of_Z_no_dot _ Hin).
  - exists (str_of_Z (n / 1000)).
    do 3 eexists. split; [unfold digits3; reflexivity|]. split; [|split; [exact Ha|split; apply Hd]].
    apply str_of_Z_no_dot.
Qed.

Lemma is_digit_not_l (c : ascii) : is_digit c = true -> c <> "l"%char.
Proof. intros H E. subst c. discriminate. Qed.

(** X27: the companion copy carries the name of the PB file.  When the
    track, the car and the condition hold no dot, the destination
    [new_filename.replace('.ld', '.ldx')] of the [.ldx] companion is the
    name of [generate_pb_filename] followed by [x], for every rank, lap
    time and date: only the extension at the end is rewritten. *)
Theorem companion_name_is_pb_name_with_x
        (track car cond : str) (rank : Z) (lap_time : Q) (date_str : str) :
  ~ In "."%char track -> ~ In "."%char car -> ~ In "."%char cond ->
  replace ".ld"%string ".ldx"%string
          (generate_pb_filename track car cond rank lap_time date_str)
  = generate_pb_filename track car cond rank lap_time date_str
      ++ ("x"%string : str).
Proof.
  intros Ht Hc Hk.
  unfold generate_pb_filename, format_lap_time_filename.
  destruct (format_3f_shape (mod60 lap_time))
    as (whole & a & b & c & Hf & Hw & Da & Db & Dc).
  rewrite Hf.
  set (date := replace "."%string "-"%string date_str).
  assert (Hdate : ~ In "."%char date) by apply replaced_date_no_dot.
  assert (Hund : forall r,
             replace_from ".ld"%string ".ldx"%string ("_"%char :: r) 0
             = "_"%char :: replace_from ".ld"%string ".ldx"%string r 0)
    by (intro r; apply replace_ld_skip; discriminate).
  unfold replace.
  repeat (rewrite <- ?app_assoc; cbn [app]).
  rewrite (@replace_ld_app track _ Ht), Hund.
  rewrite (@replace_ld_app car _ Hc), Hund.
  rewrite (@replace_ld_app cond _ Hk), Hund.
  rewrite (@replace_ld_app (rank_suffix rank) _ (rank_suffix_no_dot rank)), Hund.
  rewrite (@replace_ld_app (str_of_Z (floordiv60 lap_time)) _
             (str_of_Z_no_dot _)).
  rewrite (replace_ld_skip (c := "m"%char)) by discriminate.
  rewrite (@replace_ld_app whole _ Hw).
  rewrite (replace_ld_dot (c := a)) by (apply is_digit_not_l; exact Da).
  rewrite (replace_ld_skip (c := a)) by (apply is_digit_not_dot; exact Da).
  rewrite (replace_ld_skip (c := b)) by (apply is_digit_not_dot; exact Db).
  rewrite (replace_ld_skip (c := c)) by (apply is_digit_not_dot; exact Dc).
  rewrite (replace_ld_skip (c := "s"%char)) by discriminate.
  rewrite Hund.
  rewrite (@replace_ld_app date _ Hdate).
  reflexivity.
Qed.

Lemma companion_name_is_pb_name_with_x_witness :
  replace ".ld"%string ".ldx"%string
          (generate_pb_filename ("Spa"%string : str) ("bmw_m4"%string : str)
                                ("dry"%string : str) 1 (100 # 1)
                                ("2024.01.01"%string : str))
  = ("Spa_bmw_m4_dry_1st_1m40.000s_2024-01-01.ldx"%string : str).
Proof.
  rewrite (@companion_name_is_pb_name_with_x
             ("Spa"%string : str) ("bmw_m4"%string : str) ("dry"%string : str)
             1 (100 # 1) ("2024.01.01"%string : str)).
  - vm_compute. reflexivity.
  - vm_compute. intuition discriminate.
  - vm_compute. intuition discriminate.
  - vm_compute. intuition discriminate.
Defined.

